(** * DroidBot input policies: a shallow embedding of [droidbot/input_policy.py]

    The policies are Python classes whose methods read a device, a UI
    transition graph (UTG) and a handful of private counters.  Each method is
    embedded as a function that takes the collaborators' answers as explicit
    inputs and returns the new private fields together with the value the
    method returns (or the exception it raises). *)

From stdpp Require Import gmap strings list.
From Stdlib Require Import ZArith Ascii Bool Lia.
From Stdlib Require String.

Local Open Scope Z_scope.

(** ** Python strings

    Text is modelled as ASCII: the case mapping and the character classes
    below are those of Python on the code points below 128. *)

Module PyStr.

(** [s.endswith(suffix)] *)
Fixpoint endswith (s suffix : string) : bool :=
  if String.eqb s suffix then true
  else match s with
       | EmptyString => false
       | String _ s' => endswith s' suffix
       end.

(** [s.startswith(p)] *)
Definition startswith (s p : string) : bool := String.prefix p s.

(** [sub in s] *)
Fixpoint contains (sub s : string) : bool :=
  String.prefix sub s ||
  match s with
  | EmptyString => false
  | String _ s' => contains sub s'
  end.

(** [s.count(sub)] for a non-empty [sub]: occurrences are counted from the
    left and do not overlap; [skip] is the number of characters still
    covered by the occurrence found last. *)
Fixpoint count_from (skip : nat) (sub s : string) : nat :=
  match s with
  | EmptyString => 0%nat
  | String _ s' =>
    match skip with
    | S k => count_from k sub s'
    | O => if String.prefix sub s
           then S (count_from (String.length sub - 1) sub s')
           else count_from 0 sub s'
    end
  end.

Definition count (s sub : string) : nat := count_from 0 sub s.

Definition is_upper (c : ascii) : bool :=
  let n := nat_of_ascii c in (65 <=? n)%nat && (n <=? 90)%nat.

Definition lower_char (c : ascii) : ascii :=
  if is_upper c then ascii_of_nat (nat_of_ascii c + 32) else c.

(** [s.lower()] on ASCII text *)
Fixpoint lower (s : string) : string :=
  match s with
  | EmptyString => EmptyString
  | String c s' => String (lower_char c) (lower s')
  end.

(** The ASCII characters for which [str.isspace] holds: space, \t, \n,
    \v, \f, \r and the separators \x1c to \x1f. *)
Definition is_space (c : ascii) : bool :=
  let n := nat_of_ascii c in
  (n =? 32)%nat || ((9 <=? n)%nat && (n <=? 13)%nat)
  || ((28 <=? n)%nat && (n <=? 31)%nat).

Definition is_digit (c : ascii) : bool :=
  let n := nat_of_ascii c in (48 <=? n)%nat && (n <=? 57)%nat.

(** The ASCII characters that the regular expression class \w matches. *)
Definition is_word (c : ascii) : bool :=
  let n := nat_of_ascii c in
  is_digit c || ((65 <=? n)%nat && (n <=? 90)%nat)
  || ((97 <=? n)%nat && (n <=? 122)%nat) || (n =? 95)%nat.

Fixpoint lstrip (s : string) : string :=
  match s with
  | EmptyString => EmptyString
  | String c s' => if is_space c then lstrip s' else s
  end.

Fixpoint rstrip (s : string) : string :=
  match s with
  | EmptyString => EmptyString
  | String c s' =>
    match rstrip s' with
    | EmptyString => if is_space c then EmptyString else String c EmptyString
    | r => String c r
    end
  end.

(** [s.strip()] *)
Definition strip (s : string) : string := lstrip (rstrip s).

(** [s.replace(c, by)] for a one-character [c] *)
Fixpoint replace_char (c : ascii) (by_ : string) (s : string) : string :=
  match s with
  | EmptyString => EmptyString
  | String x s' =>
    if Ascii.eqb x c then by_ +:+ replace_char c by_ s'
    else String x (replace_char c by_ s')
  end.

(** [s.split(sep)] for a one-character [sep] *)
Fixpoint split_char (sep : ascii) (s : string) : list string :=
  match s with
  | EmptyString => [EmptyString]
  | String x s' =>
    if Ascii.eqb x sep then EmptyString :: split_char sep s'
    else match split_char sep s' with
         | [] => [String x EmptyString]
         | w :: ws => String x w :: ws
         end
  end.

(** truthiness of a string: [if s:] *)
Definition truthy (s : string) : bool :=
  match s with EmptyString => false | _ => true end.

(** [s.find(sub)]: the index of the first occurrence of [sub], or -1 *)
Fixpoint find_from (i : nat) (sub s : string) : Z :=
  if String.prefix sub s then Z.of_nat i
  else match s with
       | EmptyString => -1
       | String _ s' => find_from (S i) sub s'
       end.

Definition find (s sub : string) : Z := find_from 0 sub s.

(** A bound of a slice, brought into the range from 0 to [n] as Python
    does: a negative bound counts from the end. *)
Definition slice_index (n i : Z) : Z :=
  if i <? 0 then Z.max (i + n) 0 else Z.min i n.

(** [s[start:stop]]; [None] is a bound that is left out. *)
Definition slice (s : string) (start stop : option Z) : string :=
  let n := Z.of_nat (String.length s) in
  let a := match start with Some i => slice_index n i | None => 0 end in
  let b := match stop with Some i => slice_index n i | None => n end in
  String.substring (Z.to_nat a) (Z.to_nat (b - a)) s.

(** [s.replace(old, new)] for a non-empty [old]: the occurrences are
    replaced from the left and do not overlap; [skip] is the number of
    characters still covered by the occurrence replaced last. *)
Fixpoint replace_from (skip : nat) (old new s : string) : string :=
  match s with
  | EmptyString => EmptyString
  | String c s' =>
    match skip with
    | S k => replace_from k old new s'
    | O => if String.prefix old s
           then new +:+ replace_from (String.length old - 1) old new s'
           else String c (replace_from 0 old new s')
    end
  end.

Definition replace (s old new : string) : string := replace_from 0 old new s.

(** [s.split()]: the words between runs of white space; [word] holds the
    characters of the word being read. *)
Fixpoint split_ws_from (word s : string) : list string :=
  match s with
  | EmptyString => if truthy word then [word] else []
  | String c s' =>
    if is_space c
    then (if truthy word then [word] else []) ++ split_ws_from EmptyString s'
    else split_ws_from (word +:+ String c EmptyString) s'
  end.

Definition split_ws (s : string) : list string := split_ws_from EmptyString s.

(** The character does not occur in the text. *)
Definition lacks (c : ascii) (s : string) : Prop :=
  c ∉ String.list_ascii_of_string s.

End PyStr.

(** ** Exceptions and results *)

(** The exception classes the policies and the loop tell apart.
    [KeyboardInterrupt] and [SystemExit] derive from [BaseException] only;
    the others derive from [Exception]. *)
Inductive exn : Type :=
  | KeyboardInterrupt
  | SystemExit
  | InputInterruptedException (msg : string)
  | IndexError
  | ValueError
  | TypeError
  | AttributeError
  | RuntimeError (msg : string).

Definition is_Exception (e : exn) : bool :=
  match e with
  | KeyboardInterrupt | SystemExit => false
  | _ => true
  end.

Inductive res (A : Type) : Type :=
  | Ret (a : A)
  | Raise (e : exn).
Arguments Ret {A} a.
Arguments Raise {A} e.

#[export] Instance res_ret : MRet res := fun A a => Ret a.
#[export] Instance res_bind : MBind res := fun A B f m =>
  match m with
  | Ret a => f a
  | Raise e => Raise e
  end.
#[export] Instance res_fmap : FMap res := fun A B f m =>
  match m with
  | Ret a => Ret (f a)
  | Raise e => Raise e
  end.

(** The exceptions the choice of an event can raise are the list errors of
    the humanoid re-ranking and of the random pick. *)
Definition list_error (e : exn) : Prop := e = IndexError \/ e = ValueError.

(** [l[i]] with Python's negative indices *)
Definition py_index {A : Type} (l : list A) (i : Z) : res A :=
  let n := Z.of_nat (length l) in
  if (0 <=? i) && (i <? n) then
    match l !! Z.to_nat i with Some a => Ret a | None => Raise IndexError end
  else if (- n <=? i) && (i <? 0) then
    match l !! Z.to_nat (n + i) with Some a => Ret a | None => Raise IndexError end
  else Raise IndexError.

(** ** Constants of the module *)

Definition MAX_NUM_RESTARTS : Z := 5.
Definition MAX_NUM_STEPS_OUTSIDE : Z := 1000.
Definition MAX_NUM_STEPS_OUTSIDE_KILL : Z := 1000.
Definition MAX_REPLY_TRIES : Z := 5.

Definition EVENT_FLAG_STARTED : string := "+started".
Definition EVENT_FLAG_START_APP : string := "+start_app".
Definition EVENT_FLAG_STOP_APP : string := "+stop_app".
Definition EVENT_FLAG_EXPLORE : string := "+explore".
Definition EVENT_FLAG_NAVIGATE : string := "+navigate".
Definition EVENT_FLAG_TOUCH : string := "+touch".

Inductive policy_name : Type :=
  | POLICY_NAIVE_DFS | POLICY_GREEDY_DFS | POLICY_NAIVE_BFS | POLICY_GREEDY_BFS
  | POLICY_REPLAY | POLICY_MANUAL | POLICY_MONKEY | POLICY_TASK | POLICY_NONE
  | POLICY_MEMORY_GUIDED.

Definition MAX_SCROLL_NUM : nat := 7.

(** ** Views, intents and input events *)

(** Modelled from the spec: the view dictionaries of the device state, of
    which the policies read the keys [view_str], [text], [enabled] and
    [children]. *)
Record View : Type := mkView {
  view_str : string;
  view_text : option string;
  view_enabled : bool;
  view_children : list Z
}.

(** Modelled from the spec: the intents of the app descriptor
    ([get_start_intent], [get_stop_intent]) and [Intent(suffix=component)]. *)
Inductive Intent : Type :=
  | StartIntent
  | StopIntent
  | ComponentIntent (component : string).

(** Modelled from the spec: the tagged variant of input events declared in
    [input_event.py]. *)
Inductive InputEvent : Type :=
  | KeyEvent (name : string)
  | TouchEvent (view : View)
  | SetTextEvent (view : View) (text : string)
  | ScrollEvent (view : View) (direction : string)
  | IntentEvent (intent : Intent)
  | KillAppEvent
  | ManualEvent.

(** What [generate_event] hands to the loop: an event, the string
    [FINISHED], or [None]. *)
Inductive Generated : Type :=
  | GenEvent (e : InputEvent)
  | GenFinished
  | GenNone.

(** ** The policy loop: [InputPolicy.start] *)

Module Loop.

(** What the surroundings answer during one pass of the [while] loop:
    the flag [input_manager.enabled] when the guard is read, the outcome of
    [self.generate_event(input_manager)] and the outcome of
    [input_manager.add_event(event)]. *)
Record Pass : Type := mkPass {
  enabled : bool;
  generate_event : res Generated;
  add_event : res unit
}.

Inductive Status : Type := RUNNING | STOPPED.

Inductive LogEntry : Type :=
  | WarnStopSending (e : exn)        (* "stop sending events: %s" *)
  | WarnExceptionDuringSending (e : exn). (* "exception during sending events: %s" *)

Record Loop : Type := mkLoop {
  status : Status;
  action_count : Z;
  sent : list Generated;      (* events [add_event] accepted, oldest first *)
  log : list LogEntry;
  uncaught : option exn       (* an exception no [except] clause caught *)
}.

Definition break (l : Loop) : Loop :=
  mkLoop STOPPED (action_count l) (sent l) (log l) (uncaught l).

(** The event of this pass: the forced [KillAppEvent] at the very first
    action, otherwise what the policy generates. *)
Definition pass_event (master_is_None : bool) (p : Pass) (l : Loop) : res Generated :=
  if (action_count l =? 0) && master_is_None
  then Ret (GenEvent KillAppEvent)
  else generate_event p.

(** The body of the [try] block: [None] stands for [break]. *)
Definition try_body (master_is_None : bool) (p : Pass) (l : Loop)
  : res (option Generated) :=
  event ← pass_event master_is_None p l;
  match event with
  | GenFinished => Ret None
  | _ => _ ← add_event p; Ret (Some event)
  end.

(** One evaluation of the guard and, when it holds, one pass of the body. *)
Definition start_pass (event_count : Z) (master_is_None : bool)
  (p : Pass) (l : Loop) : Loop :=
  if enabled p && (action_count l <? event_count) then
    match try_body master_is_None p l with
    | Ret None => break l
    | Ret (Some event) =>
        mkLoop RUNNING (action_count l + 1) (sent l ++ [event]) (log l)
               (uncaught l)
    | Raise KeyboardInterrupt => break l
    | Raise (InputInterruptedException m) =>
        mkLoop STOPPED (action_count l) (sent l)
               (log l ++ [WarnStopSending (InputInterruptedException m)])
               (uncaught l)
    | Raise e =>
        if is_Exception e
        then mkLoop RUNNING (action_count l) (sent l)
                    (log l ++ [WarnExceptionDuringSending e]) (uncaught l)
        else mkLoop STOPPED (action_count l) (sent l) (log l) (Some e)
    end
  else break l.

(** The loop over a finite record of what the surroundings answered. *)
Fixpoint passes (event_count : Z) (master_is_None : bool)
  (ps : list Pass) (l : Loop) : Loop :=
  match ps with
  | [] => l
  | p :: ps' =>
    match status l with
    | STOPPED => l
    | RUNNING => passes event_count master_is_None ps'
                   (start_pass event_count master_is_None p l)
    end
  end.

Definition start (event_count : Z) (master_is_None : bool) (ps : list Pass) : Loop :=
  passes event_count master_is_None ps (mkLoop RUNNING 0 [] [] None).

(** Interrupt and cancellation: the exceptions that end the run. *)
Definition is_interrupt (e : exn) : bool :=
  match e with
  | KeyboardInterrupt | SystemExit | InputInterruptedException _ => true
  | _ => false
  end.

(** The exception, if any, that [generate_event] or [add_event] raised in
    this pass. *)
Definition raised (master_is_None : bool) (p : Pass) (l : Loop) : option exn :=
  match try_body master_is_None p l with
  | Raise e => Some e
  | Ret _ => None
  end.

(** *** Words used to state what a run of the loop keeps *)

(** The count is the number of events sent and stays within the budget;
    with no master the first event sent is the forced one; FINISHED is
    never sent. *)
Definition counted (event_count : Z) (master_is_None : bool) (l : Loop) : Prop :=
  action_count l = Z.of_nat (length (sent l))
  /\ action_count l <= Z.max 0 event_count
  /\ (master_is_None = true ->
      forall e, head (sent l) = Some e -> e = GenEvent KillAppEvent)
  /\ GenFinished ∉ sent l.

(** Nothing was sent yet, or only the forced first event. *)
Definition only_kill (l : Loop) : Prop :=
  (sent l = [] /\ action_count l = 0)
  \/ (sent l = [GenEvent KillAppEvent] /\ action_count l = 1).

End Loop.

(** ** Device states and the UTG *)

(** One of the candidate actions [get_described_actions] lists: a single
    event, or (after scroll flattening) the list of events that first scroll
    to the view and then act on it. *)
Inductive Action : Type :=
  | Single (e : InputEvent)
  | Sequence (es : list InputEvent).

(** Modelled from the spec: the device state of [device_state.py], with the
    answers of the methods the policies call on it
    ([get_app_activity_depth], [get_possible_input], [get_scrollable_views],
    [get_described_actions]). *)
Record DeviceState : Type := mkState {
  state_str : string;
  tag : string;
  foreground_activity : string;
  views : list View;
  app_activity_depth : Z;
  possible_input : list InputEvent;
  scrollable_views : list View;
  state_prompt : string;               (* [get_described_actions()[0]] *)
  described_actions : list InputEvent; (* [get_described_actions()[1]] *)
  described_views : list string        (* [get_described_actions()[2]] *)
}.

(** Modelled from the spec: the queries of the UTG of [utg.py] that the
    policies use.  [get_navigation_steps] answers the empty list when there
    is no path. *)
Record UTG : Type := mkUTG {
  is_event_explored : InputEvent -> DeviceState -> bool;
  is_state_explored : DeviceState -> bool;
  is_state_reached : DeviceState -> bool;
  get_reachable_states : DeviceState -> list DeviceState;
  get_navigation_steps : DeviceState -> DeviceState -> list (DeviceState * InputEvent)
}.

(** The pseudo-random choices of the [random] module, as given functions. *)
Record Random : Type := mkRandom {
  shuffle_events : list InputEvent -> list InputEvent;
  shuffle_states : list DeviceState -> list DeviceState;
  shuffle_views : list View -> list View;
  randint : Z -> Z -> Z
}.

(** The answer of the humanoid service: [result["indices"]], [result["text"]]. *)
Record HumanoidReply : Type := mkReply {
  indices : list Z;
  reply_text : string
}.

(** What a policy is constructed with and what its collaborators answer
    during one call. *)
Record Config : Type := mkConfig {
  random_input : bool;
  search_method : policy_name;
  humanoid : option HumanoidReply;      (* [None]: [device.humanoid is None] *)
  rnd : Random;
  is_foreground : bool;                 (* [device.is_foreground(app)] *)
  is_different_from : DeviceState -> DeviceState -> bool
}.

Definition preferred_buttons : list string :=
  ["yes"; "ok"; "activate"; "detail"; "more"; "access";
   "allow"; "check"; "agree"; "try"; "go"; "next"].

Definition BACK : InputEvent := KeyEvent "BACK".

(** [l[i] = x] *)
Definition py_setitem {A : Type} (l : list A) (i : Z) (x : A) : res (list A) :=
  let n := Z.of_nat (length l) in
  if (0 <=? i) && (i <? n) then Ret (<[Z.to_nat i := x]> l)
  else if (- n <=? i) && (i <? 0) then Ret (<[Z.to_nat (n + i) := x]> l)
  else Raise IndexError.

(** [safe_dict_get(view_dict, key, default)] for a dictionary whose values
    are strings or [None] (an absent value of [option] is Python's [None]). *)
Definition safe_dict_get (view_dict : gmap string (option string))
  (key : string) (default : option string) : string :=
  let return_itm :=
    match view_dict !! key with
    | Some value => value
    | None => default
    end in
  match return_itm with
  | None => ""
  | Some s => s
  end.

(** ** The naive graph-search policy: [UtgNaiveSearchPolicy] *)

Module Naive.

Record Policy : Type := mkPolicy {
  explored_views : gset (string * string);
  state_transitions : gset (string * string * string);
  last_event_flag : string;
  last_event_str : option string;
  last_state : option DeviceState
}.

Definition init : Policy := mkPolicy ∅ ∅ "" None None.

Definition save_state_transition (cfg : Config) (event_str : option string)
  (old_state new_state : option DeviceState) (p : Policy) : Policy :=
  match event_str, old_state, new_state with
  | Some ev, Some old, Some new =>
    if is_different_from cfg new old
    then mkPolicy (explored_views p)
                  ({[ (ev, tag old, tag new) ]} ∪ state_transitions p)
                  (last_event_flag p) (last_event_str p) (last_state p)
    else p
  | _, _, _ => p
  end.

Definition save_explored_view (state : DeviceState) (view_str : string)
  (p : Policy) : Policy :=
  mkPolicy ({[ (foreground_activity state, view_str) ]} ∪ explored_views p)
           (state_transitions p) (last_event_flag p) (last_event_str p)
         (last_state p).

Definition set_flag (flag : string) (ev : option string) (p : Policy) : Policy :=
  mkPolicy (explored_views p) (state_transitions p) flag ev (last_state p).

Definition unexplored (p : Policy) (state : DeviceState) (view : View) : bool :=
  negb (bool_decide ((foreground_activity state, view_str view) ∈ explored_views p)).

Definition select_a_view (cfg : Config) (p : Policy) (state : DeviceState)
  : option View :=
  let views0 :=
    filter (fun v => view_enabled v && (length (view_children v) =? 0)%nat)
           (views state) in
  let views1 := if random_input cfg then shuffle_views (rnd cfg) views0 else views0 in
  let back_str := "BACK_" +:+ foreground_activity state in
  let mock_view_back := mkView back_str (Some back_str) true [] in
  let views2 :=
    match search_method cfg with
    | POLICY_NAIVE_DFS => views1 ++ [mock_view_back]
    | POLICY_NAIVE_BFS => mock_view_back :: views1
    | _ => views1
    end in
  let is_preferred (view : View) : bool :=
    let view_text := match view_text view with Some t => t | None => "" end in
    let view_text := PyStr.strip (PyStr.lower view_text) in
    bool_decide (view_text ∈ preferred_buttons) && unexplored p state view in
  match List.find is_preferred views2 with
  | Some view => Some view
  | None =>
    match List.find (unexplored p state) views2 with
    | Some view => Some view
    | None =>
        let views3 :=
          if random_input cfg then shuffle_views (rnd cfg) views2 else views2 in
        List.find
          (fun view => bool_decide
             (Exists (fun t => t.1.1 = view_str view) (elements (state_transitions p))))
          views3
    end
  end.

(** [generate_event_based_on_utg]: the fields after the call and the event
    returned or the exception raised. *)
Definition generate_event_based_on_utg (cfg : Config)
  (current_state : DeviceState) (p : Policy) : Policy * res InputEvent :=
  let p := save_state_transition cfg (last_event_str p) (last_state p)
                               (Some current_state) p in
  let continue_with (p : Policy) : Policy * res InputEvent :=
    match select_a_view cfg p current_state with
    | None =>
        (set_flag (last_event_flag p +:+ EVENT_FLAG_STOP_APP)
                  (Some EVENT_FLAG_STOP_APP) p,
         Ret (IntentEvent StopIntent))
    | Some view_to_touch =>
        let view_to_touch_str := view_str view_to_touch in
        let result :=
          if PyStr.startswith view_to_touch_str "BACK"
          then KeyEvent "BACK" else TouchEvent view_to_touch in
        let p := set_flag (last_event_flag p +:+ EVENT_FLAG_TOUCH)
                          (Some view_to_touch_str) p in
        (save_explored_view current_state view_to_touch_str p, Ret result)
    end in
  if is_foreground cfg then
    continue_with (set_flag EVENT_FLAG_STARTED (last_event_str p) p)
  else
    let number_of_starts :=
      Z.of_nat (PyStr.count (last_event_flag p) EVENT_FLAG_START_APP) in
    if number_of_starts >? MAX_NUM_RESTARTS then
      (p, Raise (InputInterruptedException "The app cannot be started."))
    else if PyStr.endswith (last_event_flag p) EVENT_FLAG_START_APP then
      continue_with p
    else
      (set_flag (last_event_flag p +:+ EVENT_FLAG_START_APP)
                (Some EVENT_FLAG_START_APP) p,
       Ret (IntentEvent StartIntent)).

(** Successive calls, one per polled state; [last_state] is what the
    caller stores between two calls. *)
Fixpoint run (calls : list (Config * DeviceState)) (p : Policy)
  : Policy * list (res InputEvent) :=
  match calls with
  | [] => (p, [])
  | (cfg, st) :: rest =>
    let '(p1, r) := generate_event_based_on_utg cfg st p in
    let p1 := mkPolicy (explored_views p1) (state_transitions p1)
                       (last_event_flag p1) (last_event_str p1) (Some st) in
    let '(p2, rs) := run rest p1 in
    (p2, r :: rs)
  end.

(** *** Words used to state what is selected *)

(** The mock view that stands for the BACK key. *)
Definition mock_view_back (state : DeviceState) : View :=
  mkView ("BACK_" +:+ foreground_activity state)
         (Some ("BACK_" +:+ foreground_activity state)) true [].

(** The views the selection runs over: the enabled views of the state
    that have no children and, under DFS and BFS, the mock BACK view. *)
Definition selectable (cfg : Config) (state : DeviceState) (v : View) : Prop :=
  (v ∈ views state /\ view_enabled v = true /\ view_children v = [])
  \/ ((search_method cfg = POLICY_NAIVE_DFS \/ search_method cfg = POLICY_NAIVE_BFS)
      /\ v = mock_view_back state).

(** The text of the view is one of the preferred buttons. *)
Definition preferred (v : View) : bool :=
  bool_decide (PyStr.strip (PyStr.lower (default "" (view_text v)))
               ∈ preferred_buttons).

(** A state transition by a view with this [view_str] is recorded. *)
Definition has_transition (p : Policy) (v : View) : Prop :=
  exists t, t ∈ state_transitions p /\ t.1.1 = view_str v.

End Naive.

(** ** The greedy graph-search policy: [UtgGreedySearchPolicy] *)

Module Greedy.

Record Policy : Type := mkPolicy {
  nav_target : option DeviceState;
  nav_num_steps : Z;
  num_restarts : Z;
  num_steps_outside : Z;
  event_trace : string;
  missed_states : gset string;
  random_explore : bool
}.

Definition init : Policy := mkPolicy None (-1) 0 0 "" ∅ false.

Definition set_nav_target (t : option DeviceState) (p : Policy) : Policy :=
  mkPolicy t (nav_num_steps p) (num_restarts p) (num_steps_outside p)
         (event_trace p) (missed_states p) (random_explore p).
Definition set_nav_num_steps (n : Z) (p : Policy) : Policy :=
  mkPolicy (nav_target p) n (num_restarts p) (num_steps_outside p)
           (event_trace p) (missed_states p) (random_explore p).
Definition set_num_restarts (n : Z) (p : Policy) : Policy :=
  mkPolicy (nav_target p) (nav_num_steps p) n (num_steps_outside p)
           (event_trace p) (missed_states p) (random_explore p).
Definition set_num_steps_outside (n : Z) (p : Policy) : Policy :=
  mkPolicy (nav_target p) (nav_num_steps p) (num_restarts p) n
           (event_trace p) (missed_states p) (random_explore p).
Definition add_trace (flag : string) (p : Policy) : Policy :=
  mkPolicy (nav_target p) (nav_num_steps p) (num_restarts p) (num_steps_outside p)
           (event_trace p +:+ flag) (missed_states p) (random_explore p).
Definition set_missed_states (m : gset string) (p : Policy) : Policy :=
  mkPolicy (nav_target p) (nav_num_steps p) (num_restarts p) (num_steps_outside p)
           (event_trace p) m (random_explore p).
Definition set_random_explore (b : bool) (p : Policy) : Policy :=
  mkPolicy (nav_target p) (nav_num_steps p) (num_restarts p) (num_steps_outside p)
           (event_trace p) (missed_states p) b.

(** The first part of [generate_event_based_on_utg]: the current state
    leaves the missed set, then the cases on the app activity depth.  The
    second component is the event of an early [return]. *)
Definition on_depth (current_state : DeviceState) (p : Policy)
  : Policy * option InputEvent :=
  let p :=
    if bool_decide (state_str current_state ∈ missed_states p)
    then set_missed_states (missed_states p ∖ {[ state_str current_state ]}) p
    else p in
  if app_activity_depth current_state <? 0 then
    let p :=
      if PyStr.endswith (event_trace p)
                        (EVENT_FLAG_START_APP +:+ EVENT_FLAG_STOP_APP)
         || PyStr.endswith (event_trace p) EVENT_FLAG_START_APP
      then set_num_restarts (num_restarts p + 1) p
      else set_num_restarts 0 p in
    if negb (PyStr.endswith (event_trace p) EVENT_FLAG_START_APP) then
      if num_restarts p >? MAX_NUM_RESTARTS
      then (set_random_explore true p, None)
      else (add_trace EVENT_FLAG_START_APP p, Some (IntentEvent StartIntent))
    else (p, None)
  else if app_activity_depth current_state >? 0 then
    let p := set_num_steps_outside (num_steps_outside p + 1) p in
    if num_steps_outside p >? MAX_NUM_STEPS_OUTSIDE then
      let go_back_event :=
        if num_steps_outside p >? MAX_NUM_STEPS_OUTSIDE_KILL
        then IntentEvent StopIntent
        else KeyEvent "BACK" in
      (add_trace EVENT_FLAG_NAVIGATE p, Some go_back_event)
    else (p, None)
  else (set_num_steps_outside 0 p, None).

Definition set_text_of (text : string) (e : InputEvent) : InputEvent :=
  match e with
  | SetTextEvent v _ => SetTextEvent v text
  | _ => e
  end.

(** [__sort_inputs_by_humanoid], given the reply of the service. *)
Definition sort_inputs_by_humanoid (cfg : Config) (utg : UTG)
  (current_state : DeviceState) (reply : HumanoidReply)
  (possible_events : list InputEvent) : res (list InputEvent) :=
  let new_idx := indices reply in
  new_idx ←
    (if negb (is_state_reached utg current_state) then
       let hi := Z.of_nat (length new_idx) - 1 in
       if hi <? 0 then Raise ValueError   (* [randint(0, -1)] *)
       else
         let new_first := randint (rnd cfg) 0 hi in
         a ← py_index new_idx new_first;
         b ← py_index new_idx 0;
         l ← py_setitem new_idx 0 a;
         py_setitem l new_first b
     else Ret new_idx);
  mapM (fun idx => e ← py_index possible_events idx;
                   Ret (set_text_of (reply_text reply) e)) new_idx.

(** The loop at the end of [__get_nav_target] over the reachable states. *)
Fixpoint scan_targets (utg : UTG) (current_state : DeviceState)
  (states : list DeviceState) (p : Policy) : Policy * option DeviceState :=
  match states with
  | [] => (set_nav_num_steps (-1) (set_nav_target None p), None)
  | state :: rest =>
    if negb (app_activity_depth state =? 0)
    then scan_targets utg current_state rest p
    else if bool_decide (state_str state ∈ missed_states p)
    then scan_targets utg current_state rest p
    else if is_state_explored utg state
    then scan_targets utg current_state rest p
    else
      let p := set_nav_target (Some state) p in
      let navigation_steps := get_navigation_steps utg current_state state in
      if (0 <? Z.of_nat (length navigation_steps))
      then (set_nav_num_steps (Z.of_nat (length navigation_steps)) p, Some state)
      else scan_targets utg current_state rest p
  end.

(** [__get_nav_target] *)
Definition get_nav_target (cfg : Config) (utg : UTG)
  (current_state : DeviceState) (p : Policy) : Policy * option DeviceState :=
  let choose (p : Policy) :=
    let reachable_states := get_reachable_states utg current_state in
    let reachable_states :=
      if random_input cfg then shuffle_states (rnd cfg) reachable_states
      else reachable_states in
    scan_targets utg current_state reachable_states p in
  match nav_target p with
  | Some target =>
    if PyStr.endswith (event_trace p) EVENT_FLAG_NAVIGATE then
      let navigation_steps := get_navigation_steps utg current_state target in
      let n := Z.of_nat (length navigation_steps) in
      if (0 <? n) && (n <=? nav_num_steps p)
      then (set_nav_num_steps n p, Some target)
      else choose (set_missed_states ({[ state_str target ]} ∪ missed_states p) p)
    else choose p
  | None => choose p
  end.

(** The candidate events: the offered ones, shuffled under random input,
    with BACK last (DFS) or first (BFS), re-ranked by the humanoid service
    when there is one. *)
Definition candidate_events (cfg : Config) (utg : UTG)
  (current_state : DeviceState) : res (list InputEvent) :=
  let possible_events := possible_input current_state in
  let possible_events :=
    if random_input cfg then shuffle_events (rnd cfg) possible_events
    else possible_events in
  let possible_events :=
    match search_method cfg with
    | POLICY_GREEDY_DFS => possible_events ++ [KeyEvent "BACK"]
    | POLICY_GREEDY_BFS => KeyEvent "BACK" :: possible_events
    | _ => possible_events
    end in
  match humanoid cfg with
  | Some reply =>
      sort_inputs_by_humanoid cfg utg current_state reply possible_events
  | None => Ret possible_events
  end.

(** The second part of [generate_event_based_on_utg]: the choice of an
    event among the candidates. *)
Definition select_event (cfg : Config) (utg : UTG)
  (current_state : DeviceState) (p : Policy) : Policy * res InputEvent :=
  match candidate_events cfg utg current_state with
  | Raise e => (p, Raise e)
  | Ret possible_events =>
    match List.find (fun input_event =>
                       negb (is_event_explored utg input_event current_state))
                    possible_events with
    | Some input_event => (add_trace EVENT_FLAG_EXPLORE p, Ret input_event)
    | None =>
        let '(p, target_state) := get_nav_target cfg utg current_state p in
        let step :=
          match target_state with
          | Some target =>
              match get_navigation_steps utg current_state target with
              | (_, event) :: _ => Some event
              | [] => None
              end
          | None => None
          end in
        match step with
        | Some event => (add_trace EVENT_FLAG_NAVIGATE p, Ret event)
        | None =>
            if random_explore p then
              (p, match shuffle_events (rnd cfg) possible_events with
                  | event :: _ => Ret event
                  | [] => Raise IndexError
                  end)
            else (add_trace EVENT_FLAG_STOP_APP p, Ret (IntentEvent StopIntent))
        end
    end
  end.

(** [generate_event_based_on_utg] *)
Definition generate_event_based_on_utg (cfg : Config) (utg : UTG)
  (current_state : DeviceState) (p : Policy) : Policy * res InputEvent :=
  match on_depth current_state p with
  | (p, Some event) => (p, Ret event)
  | (p, None) => select_event cfg utg current_state p
  end.

(** Successive calls, one per polled state (with the UTG and the
    collaborators' answers of that call); the results are listed oldest
    first. *)
Fixpoint run (calls : list (Config * UTG * DeviceState)) (p : Policy)
  : Policy * list (res InputEvent) :=
  match calls with
  | [] => (p, [])
  | (cfg, utg, st) :: rest =>
    let '(p1, r) := generate_event_based_on_utg cfg utg st p in
    let '(p2, rs) := run rest p1 in
    (p2, r :: rs)
  end.

(** *** Words used to state what a call does *)

(** The fields that only the depth cases write. *)
Definition same_counters (p q : Policy) : Prop :=
  num_restarts q = num_restarts p
  /\ num_steps_outside q = num_steps_outside p
  /\ random_explore q = random_explore p.

(** The restart counter after a call that saw the app not running. *)
Definition counted_restarts (p : Policy) : Z :=
  if PyStr.endswith (event_trace p) (EVENT_FLAG_START_APP +:+ EVENT_FLAG_STOP_APP)
     || PyStr.endswith (event_trace p) EVENT_FLAG_START_APP
  then num_restarts p + 1 else 0.

(** A state the loop of [__get_nav_target] accepts, given the missed set. *)
Definition eligible (utg : UTG) (current_state : DeviceState)
  (missed : gset string) (s : DeviceState) : Prop :=
  app_activity_depth s = 0
  /\ (state_str s ∉ missed)
  /\ is_state_explored utg s = false
  /\ (0 < length (get_navigation_steps utg current_state s))%nat.

(** What the loop answers, in terms of the list it scans. *)
Definition chosen_among (utg : UTG) (current_state : DeviceState)
  (states : list DeviceState) (p p' : Policy) (r : option DeviceState) : Prop :=
  missed_states p' = missed_states p
  /\ match r with
     | Some s =>
         s ∈ states /\ eligible utg current_state (missed_states p) s
         /\ nav_target p' = Some s
         /\ nav_num_steps p'
            = Z.of_nat (length (get_navigation_steps utg current_state s))
     | None =>
         nav_target p' = None /\ nav_num_steps p' = -1
         /\ forall s, s ∈ states
                      -> ~ eligible utg current_state (missed_states p) s
     end.

End Greedy.

(** ** Regular expressions: the part of Python's [re] the policy uses

    A backtracking matcher in continuation-passing style, with Python's
    order of alternatives: a greedy repetition tries one more round first, a
    lazy one tries to stop first.  All patterns are matched with
    [re.IGNORECASE]. *)

Module Re.

Inductive cls : Type :=
  | CChar (c : ascii)     (* a character *)
  | CDigit                (* \d *)
  | CSpace.               (* \s *)

Inductive re : Type :=
  | Str (w : string)                          (* literal text *)
  | Any                                       (* . *)
  | Class (c : cls)                           (* \d or \s *)
  | Set_ (negated : bool) (items : list cls)  (* [...] or [^...] *)
  | Seq (r1 r2 : re)
  | Star (r : re)                             (* r* *)
  | LazyStar (r : re)                         (* r*? *)
  | Plus (r : re)                             (* r+ *)
  | Opt (r : re)                              (* r? *)
  | Repeat (n : nat) (r : re)                 (* r{n} *)
  | Group (r : re)                            (* (r), the only group of a pattern *)
  | NGroup (r : re)                           (* (?:r) *)
  | WordB.                                    (* \b *)

(** The text of a pattern, as written in the source. *)
Definition show_cls (c : cls) : string :=
  match c with
  | CChar c => String c EmptyString
  | CDigit => "\d"
  | CSpace => "\s"
  end.

Fixpoint show (r : re) : string :=
  match r with
  | Str w => w
  | Any => "."
  | Class c => show_cls c
  | Set_ negated items =>
    "[" +:+ (if negated then "^" else "")
        +:+ foldr (fun c acc => show_cls c +:+ acc) "" items +:+ "]"
  | Seq r1 r2 => show r1 +:+ show r2
  | Star r => show r +:+ "*"
  | LazyStar r => show r +:+ "*?"
  | Plus r => show r +:+ "+"
  | Opt r => show r +:+ "?"
  | Repeat n r => show r +:+ "{" +:+ String (ascii_of_nat (48 + n)) "}"
  | Group r => "(" +:+ show r +:+ ")"
  | NGroup r => "(?:" +:+ show r +:+ ")"
  | WordB => "\b"
  end.

Definition same_char (x c : ascii) : bool :=
  Ascii.eqb (PyStr.lower_char x) (PyStr.lower_char c).

Definition in_cls (x : ascii) (c : cls) : bool :=
  match c with
  | CChar c => same_char x c
  | CDigit => PyStr.is_digit x
  | CSpace => PyStr.is_space x
  end.

(** A position in the subject: the character before it, the text from it
    on, and what group 1 holds. *)
Record pos : Type := mkPos {
  prev : option ascii;
  rest : list ascii;
  group1 : option (list ascii)
}.

Definition advance (p : pos) : pos :=
  match rest p with
  | x :: xs => mkPos (Some x) xs (group1 p)
  | [] => p
  end.

(** Match one character that satisfies [ok]. *)
Definition one (ok : ascii -> bool) (k : pos -> option pos) (p : pos) : option pos :=
  match rest p with
  | x :: _ => if ok x then k (advance p) else None
  | [] => None
  end.

Definition at_boundary (p : pos) : bool :=
  let before := match prev p with Some c => PyStr.is_word c | None => false end in
  let after := match rest p with c :: _ => PyStr.is_word c | [] => false end in
  xorb before after.

Definition or_else (a b : option pos) : option pos :=
  match a with Some x => Some x | None => b end.

Section Repetition.

Variable body : (pos -> option pos) -> pos -> option pos.
Variable k : pos -> option pos.

(** A repetition; a round has to consume text for a further round to
    follow, so the length of the text bounds the number of rounds. *)
Fixpoint greedy_loop (fuel : nat) (p : pos) : option pos :=
  match fuel with
  | O => k p
  | S fuel' =>
      or_else (body (fun p' => if (length (rest p') <? length (rest p))%nat
                               then greedy_loop fuel' p' else None) p)
              (k p)
  end.

Fixpoint lazy_loop (fuel : nat) (p : pos) : option pos :=
  match fuel with
  | O => k p
  | S fuel' =>
      or_else (k p)
              (body (fun p' => if (length (rest p') <? length (rest p))%nat
                               then lazy_loop fuel' p' else None) p)
  end.

End Repetition.

(** Wherever the continuation is entered, it is at a suffix of the text. *)
Definition reaches (body : (pos -> option pos) -> pos -> option pos) : Prop :=
  forall k p q, body k p = Some q ->
    exists p', k p' = Some q /\ rest p' `suffix_of` rest p.

(** [m r k p]: match [r] at [p] and go on with [k]. *)
Fixpoint m (r : re) (k : pos -> option pos) (p : pos) {struct r} : option pos :=
  match r with
  | Str w =>
    (fix lit (w : string) (p : pos) : option pos :=
       match w with
       | EmptyString => k p
       | String c w' => one (fun x => same_char x c) (lit w') p
       end) w p
  | Any => one (fun x => negb (Ascii.eqb x "010")) k p
  | Class c => one (fun x => in_cls x c) k p
  | Set_ negated items =>
    one (fun x => xorb negated (existsb (in_cls x) items)) k p
  | Seq r1 r2 => m r1 (m r2 k) p
  | Star r => greedy_loop (m r) k (length (rest p)) p
  | LazyStar r => lazy_loop (m r) k (length (rest p)) p
  | Plus r => m r (fun p' => greedy_loop (m r) k (length (rest p')) p') p
  | Opt r => or_else (m r k p) (k p)
  | Repeat n r =>
    (fix rep (n : nat) (k : pos -> option pos) : pos -> option pos :=
       match n with
       | O => k
       | S n' => m r (rep n' k)
       end) n k p
  | Group r =>
    m r (fun p' =>
           k (mkPos (prev p') (rest p')
                    (Some (take (length (rest p) - length (rest p')) (rest p))))) p
  | NGroup r => m r k p
  | WordB => if at_boundary p then k p else None
  end.

Definition match_at (r : re) (before : option ascii) (s : list ascii) : option pos :=
  m r Some (mkPos before s None).

Definition group_of (p : pos) : string :=
  String.string_of_list_ascii (match group1 p with Some g => g | None => [] end).

(** The leftmost match in [s], which follows the character [before]. *)
Fixpoint search_from (r : re) (before : option ascii) (s : list ascii) : option pos :=
  match match_at r before s with
  | Some p => Some p
  | None =>
    match s with
    | [] => None
    | x :: s' => search_from r (Some x) s'
    end
  end.

(** [re.search(r, text, re.IGNORECASE)], as [match.group(1)]. *)
Definition search (r : re) (text : string) : option string :=
  group_of <$> search_from r None (String.list_ascii_of_string text).

(** The matches from left to right, without overlap; a match that consumes
    nothing is followed by a step of one character. *)
Fixpoint findall_from (r : re) (fuel : nat) (before : option ascii)
  (s : list ascii) : list string :=
  match fuel with
  | O => []
  | S fuel' =>
    let step :=
      match s with
      | [] => []
      | x :: s' => findall_from r fuel' (Some x) s'
      end in
    match match_at r before s with
    | Some p =>
        group_of p ::
          (if (length (rest p) <? length s)%nat
           then findall_from r fuel' (prev p) (rest p)
           else step)
    | None => step
    end
  end.

(** [re.findall(r, text)] for a pattern with one group. *)
Definition findall (r : re) (text : string) : list string :=
  findall_from r (S (String.length text)) None (String.list_ascii_of_string text).

(** *** Words used to state what a match holds *)

(** [P] holds of every character. *)
Definition all_ascii (P : ascii -> bool) : bool :=
  forallb (fun n => P (ascii_of_nat n)) (seq 0 256).

(** The pattern has no group and every character it can consume
    satisfies [ok]. *)
Fixpoint only (ok : ascii -> bool) (r : re) : bool :=
  match r with
  | Str w =>
      forallb (fun c => all_ascii (fun x => implb (same_char x c) (ok x)))
              (String.list_ascii_of_string w)
  | Any => all_ascii (fun x => implb (negb (Ascii.eqb x "010")) (ok x))
  | Class c => all_ascii (fun x => implb (in_cls x c) (ok x))
  | Set_ negated items =>
      all_ascii (fun x => implb (xorb negated (existsb (in_cls x) items)) (ok x))
  | Seq r1 r2 => only ok r1 && only ok r2
  | Star r | LazyStar r | Plus r | Opt r | Repeat _ r | NGroup r => only ok r
  | Group _ => false
  | WordB => true
  end.

Definition group_free (r : re) : bool := only (fun _ => true) r.

(** Every match of the pattern consumes at least one character. *)
Fixpoint consumes (r : re) : bool :=
  match r with
  | Str w => negb (String.eqb w "")
  | Any | Class _ | Set_ _ _ => true
  | Seq r1 r2 => consumes r1 || consumes r2
  | Plus r | NGroup r | Group r => consumes r
  | Repeat n r => negb (n =? 0)%nat && consumes r
  | Star _ | LazyStar _ | Opt _ | WordB => false
  end.

(** Every match of the pattern goes through its one group, which holds at
    least one character and only characters that satisfy [ok]. *)
Fixpoint has_group (ok : ascii -> bool) (r : re) : bool :=
  match r with
  | Group r' => only ok r' && consumes r'
  | Seq r1 r2 =>
      (has_group ok r1 && group_free r2) || (group_free r1 && has_group ok r2)
  | NGroup r' => has_group ok r'
  | _ => false
  end.

(** A step of the matcher that goes on at a later position, having consumed
    only characters that satisfy [ok] (at least one of them when [strict])
    and left the group alone. *)
Definition eats (ok : ascii -> bool) (strict : bool)
  (body : (pos -> option pos) -> pos -> option pos) : Prop :=
  forall k p q, body k p = Some q ->
    exists p' pre,
      k p' = Some q
      /\ rest p = pre ++ rest p'
      /\ Forall (fun x => ok x = true) pre
      /\ group1 p' = group1 p
      /\ (strict = true -> pre <> []).

End Re.

(** ** Credentials in the app notes *)

Module Credentials.
Import Re.

Definition sep : re := Plus (Set_ false [CChar ":"; CSpace; CChar "="]).
Definition spaces : re := Plus (Class CSpace).
Definition digits : re := Group (Plus (Class CDigit)).
Definition four_digits : re := Group (Repeat 4 (Class CDigit)).
Definition value : re := Group (Plus (Set_ true [CSpace; CChar "."; CChar ","])).
Definition address : re :=
  Group (Seq (Plus (Set_ true [CSpace; CChar "."; CChar ","; CChar "@"]))
             (Seq (Str "@") (Plus (Set_ true [CSpace; CChar "."; CChar ","])))).
Definition use_the (kind : string) : re :=
  Seq (Str "use") (Seq spaces (Seq (Opt (NGroup (Seq (Str "the") spaces)))
                                  (Seq (Str kind) spaces))).

Definition pin_patterns : list re :=
  [ Seq (Str "pin") (Seq sep digits);
    Seq (use_the "pin") digits;
    Seq (Str "use") (Seq spaces four_digits);
    Seq (Str "pin") (Seq (LazyStar Any) four_digits);
    Seq four_digits (Seq (LazyStar Any) (Str "pin"));
    Seq (Str "enter") (Seq spaces (Seq (LazyStar Any) four_digits));
    Seq (Str "code") (Seq sep digits);
    Seq (Str "digit") (Seq (Star (Set_ true [CDigit])) four_digits);
    Seq (Str "passcode") (Seq sep digits) ].

Definition password_patterns : list re :=
  [ Seq (Str "password") (Seq sep value);
    Seq (use_the "password") value;
    Seq (Str "pass") (Seq sep value) ].

Definition username_patterns : list re :=
  [ Seq (Str "username") (Seq sep value);
    Seq (use_the "username") value;
    Seq (Str "user") (Seq sep value) ].

Definition email_patterns : list re :=
  [ Seq (Str "email") (Seq sep address);
    Seq (use_the "email") address ].

(** [credential_patterns], in the order of the dictionary literal. *)
Definition credential_patterns : list (string * list re) :=
  [ ("pin", pin_patterns); ("password", password_patterns);
    ("username", username_patterns); ("email", email_patterns) ].

(** \b(\d{4})\b *)
Definition standalone_four_digits : re := Seq WordB (Seq four_digits WordB).

(** A Python dictionary with string keys, in insertion order. *)
Definition dict : Type := list (string * string).

Fixpoint dict_get (d : dict) (key : string) : option string :=
  match d with
  | [] => None
  | (k, v) :: d' => if String.eqb k key then Some v else dict_get d' key
  end.

(** [d[key] = v]: a present key keeps its place. *)
Fixpoint dict_set (d : dict) (key v : string) : dict :=
  match d with
  | [] => [(key, v)]
  | (k, v') :: d' =>
    if String.eqb k key then (k, v) :: d' else (k, v') :: dict_set d' key v
  end.

Definition dict_has (d : dict) (key : string) : bool :=
  match dict_get d key with Some _ => true | None => false end.

(** The first pattern of the list that matches, as group 1 of the match. *)
Fixpoint first_match (patterns : list re) (text : string) : option string :=
  match patterns with
  | [] => None
  | pattern :: rest =>
    match search pattern text with
    | Some g => Some g
    | None => first_match rest text
    end
  end.

(** The loop over [credential_patterns.items()] on one text. *)
Definition scan_text (text : string) (credentials : dict) : dict :=
  foldl (fun credentials '(cred_type, patterns) =>
           match first_match patterns text with
           | Some g => dict_set credentials cred_type g
           | None => credentials
           end)
        credentials credential_patterns.

(** An entry of [config["app_notes"]]: a dictionary that may hold the key
    "notes". *)
Record note_obj : Type := mkNote { notes : option string }.

(** The notes that count: present and different from "N/A". *)
Definition usable (n : note_obj) : option string :=
  match notes n with
  | Some t => if String.eqb t "N/A" then None else Some t
  | None => None
  end.

Definition set_default (d : dict) (pin : option string) : dict :=
  match pin with
  | Some first => dict_set d "pin" first
  | None => d
  end.

(** The branch [if notes_text:] *)
Definition from_text (notes_text : string) : dict :=
  let credentials := scan_text notes_text [] in
  if negb (dict_has credentials "pin")
  then set_default credentials (head (findall standalone_four_digits notes_text))
  else credentials.

(** The notes of the configuration that count, and [all_notes]. *)
Definition note_texts (app_notes : option (list note_obj)) : list string :=
  match app_notes with
  | Some l => omap usable l
  | None => []
  end.

Definition all_notes (app_notes : option (list note_obj)) : string :=
  foldl (fun acc t => acc +:+ " " +:+ t) "" (note_texts app_notes).

(** What follows it: the notes of the configuration, then any standalone
    four digits in them, then the default PIN. *)
Definition from_config (app_notes : option (list note_obj)) : dict :=
  let credentials :=
    foldl (fun credentials note_text => scan_text note_text credentials)
          [] (note_texts app_notes) in
  let credentials :=
    if negb (dict_has credentials "pin") then
      if PyStr.truthy (all_notes app_notes)
      then set_default credentials
             (head (findall standalone_four_digits (all_notes app_notes)))
      else credentials
    else credentials in
  match credentials with
  | [] => dict_set credentials "pin" "1234"
  | _ => credentials
  end.

(** [_extract_credentials_from_notes(notes_text)]; [app_notes] is
    [config["app_notes"]], or [None] when the configuration is empty or has
    no such key. *)
Definition extract_credentials_from_notes
  (app_notes : option (list note_obj)) (notes_text : option string) : dict :=
  match notes_text with
  | Some text => if PyStr.truthy text then from_text text else from_config app_notes
  | None => from_config app_notes
  end.

(** *** Words used to state what a text holds *)

(** The literal words the credential patterns start with (or, for one PIN
    pattern, end with). *)
Definition credential_keywords : list string :=
  ["pin"; "use"; "enter"; "code"; "digit"; "passcode"; "password"; "pass";
   "username"; "user"; "email"].

(** No credential keyword occurs in the text, in either case. *)
Definition no_keyword (text : string) : bool :=
  forallb (fun kw => negb (PyStr.contains kw (PyStr.lower text))) credential_keywords.

Definition is_word_opt (c : option ascii) : bool :=
  match c with Some c => PyStr.is_word c | None => false end.

(** A standalone four-digit token starts here: four digits with no word
    character right before them or right after them. *)
Definition token_here (before : option ascii) (s : list ascii) : bool :=
  match s with
  | d1 :: d2 :: d3 :: d4 :: tail =>
      negb (is_word_opt before)
      && PyStr.is_digit d1 && PyStr.is_digit d2
      && PyStr.is_digit d3 && PyStr.is_digit d4
      && negb (is_word_opt (head tail))
  | _ => false
  end.

Fixpoint token_from (before : option ascii) (s : list ascii) : bool :=
  token_here before s
  || match s with
     | [] => false
     | x :: s' => token_from (Some x) s'
     end.

(** The text holds a standalone four-digit token. *)
Definition has_four_digit_token (text : string) : bool :=
  token_from None (String.list_ascii_of_string text).

(** The word [w] starts the text [s], in either case. *)
Fixpoint starts_with_word (w : string) (s : list ascii) : bool :=
  match w with
  | EmptyString => true
  | String c w' =>
    match s with
    | x :: s' => same_char x c && starts_with_word w' s'
    | [] => false
    end
  end.

(** The pattern cannot match without matching the word [kw]. *)
Fixpoint mentions (kw : string) (r : re) : bool :=
  match r with
  | Str w => String.eqb w kw
  | Seq r1 r2 => mentions kw r1 || mentions kw r2
  | _ => false
  end.

(** Neither white space nor a dot nor a comma. *)
Definition plain (x : ascii) : bool :=
  negb (PyStr.is_space x || Ascii.eqb x "." || Ascii.eqb x ",").

(** What the characters of a credential of the given type satisfy. *)
Definition value_char (cred_type : string) : ascii -> bool :=
  if String.eqb cred_type "pin" then PyStr.is_digit else plain.

(** An entry a credentials dictionary may hold: one of the four types, with
    a value that is not empty and made of the characters of its type. *)
Definition credential_ok (entry : string * string) : Prop :=
  entry.1 ∈ ["pin"; "password"; "username"; "email"]
  /\ entry.2 <> ""
  /\ Forall (fun x => value_char entry.1 x = true)
            (String.list_ascii_of_string entry.2).

End Credentials.

(** ** The task policy: [TaskPolicy] *)

Module Task.

(** The private fields the policy reads or writes ([__nav_target] and
    [__nav_num_steps] are set by the constructor and never used). *)
Record Policy : Type := mkPolicy {
  num_restarts : Z;
  num_steps_outside : Z;
  event_trace : string;
  missed_states : gset string;
  random_explore : bool;
  action_history : list string;
  thought_history : list string
}.

(** [TaskPolicy(device, app, random_input, task, ...)] *)
Definition init (random_input : bool) : Policy :=
  mkPolicy 0 0 "" ∅ random_input [] [].

Definition set_num_restarts (n : Z) (p : Policy) : Policy :=
  mkPolicy n (num_steps_outside p) (event_trace p) (missed_states p)
           (random_explore p) (action_history p) (thought_history p).
Definition set_num_steps_outside (n : Z) (p : Policy) : Policy :=
  mkPolicy (num_restarts p) n (event_trace p) (missed_states p)
           (random_explore p) (action_history p) (thought_history p).
Definition add_trace (flag : string) (p : Policy) : Policy :=
  mkPolicy (num_restarts p) (num_steps_outside p) (event_trace p +:+ flag)
           (missed_states p) (random_explore p) (action_history p)
           (thought_history p).
Definition set_missed_states (m : gset string) (p : Policy) : Policy :=
  mkPolicy (num_restarts p) (num_steps_outside p) (event_trace p) m
           (random_explore p) (action_history p) (thought_history p).
Definition set_random_explore (b : bool) (p : Policy) : Policy :=
  mkPolicy (num_restarts p) (num_steps_outside p) (event_trace p)
           (missed_states p) b (action_history p) (thought_history p).
Definition set_history (actions thoughts : list string) (p : Policy) : Policy :=
  mkPolicy (num_restarts p) (num_steps_outside p) (event_trace p)
           (missed_states p) (random_explore p) actions thoughts.
Definition add_history (action thought : string) (p : Policy) : Policy :=
  set_history (action_history p ++ [action]) (thought_history p ++ [thought]) p.

(** [f"{task}"]: [None] prints as the word None. *)
Definition fmt_task (task : option string) : string :=
  match task with Some t => t | None => "None" end.

(** The first part of [generate_event_based_on_utg]: the cases on the app
    activity depth, with the event of an early [return]. *)
Definition on_depth (app_name : string) (task : option string)
  (current_state : DeviceState) (p : Policy) : Policy * option InputEvent :=
  let p :=
    if bool_decide (state_str current_state ∈ missed_states p)
    then set_missed_states (missed_states p ∖ {[ state_str current_state ]}) p
    else p in
  if app_activity_depth current_state <? 0 then
    let p :=
      if PyStr.endswith (event_trace p)
                        (EVENT_FLAG_START_APP +:+ EVENT_FLAG_STOP_APP)
         || PyStr.endswith (event_trace p) EVENT_FLAG_START_APP
      then set_num_restarts (num_restarts p + 1) p
      else set_num_restarts 0 p in
    if negb (PyStr.endswith (event_trace p) EVENT_FLAG_START_APP) then
      if num_restarts p >? MAX_NUM_RESTARTS
      then (set_random_explore true p, None)
      else
        let p := add_trace EVENT_FLAG_START_APP p in
        let p := set_history
                   ["- launchApp " +:+ app_name]
                   ["launch the app " +:+ app_name +:+ " to finish the task "
                    +:+ fmt_task task] p in
        (p, Some (IntentEvent StartIntent))
    else (p, None)
  else if app_activity_depth current_state >? 0 then
    let p := set_num_steps_outside (num_steps_outside p + 1) p in
    if num_steps_outside p >? MAX_NUM_STEPS_OUTSIDE then
      let go_back_event :=
        if num_steps_outside p >? MAX_NUM_STEPS_OUTSIDE_KILL
        then IntentEvent StopIntent
        else KeyEvent "BACK" in
      let p := add_trace EVENT_FLAG_NAVIGATE p in
      let p :=
        add_history "- go back"
          "the app has not been in foreground for too long, try to go back" p in
      (p, Some go_back_event)
    else (p, None)
  else (set_num_steps_outside 0 p, None).

(** *** Authentication screens *)

Definition auth_keywords : list string :=
  ["login"; "sign in"; "sign up"; "register"; "pin"; "password"; "username";
   "email"; "phone number"; "verification"; "code"; "digit pass"; "authenticate";
   "security"; "access"; "identity"; "authorized"; "unlock"; "protect"].

(** [_is_authentication_screen] *)
Definition is_authentication_screen (state_prompt : string) : bool :=
  let state_prompt_lower := PyStr.lower state_prompt in
  existsb (fun keyword => PyStr.contains keyword state_prompt_lower) auth_keywords
  || (PyStr.contains "<input" state_prompt_lower
      && existsb (fun term => PyStr.contains term state_prompt_lower)
                 ["secure"; "protect"; "privacy"; "sensitive"]).

(** [_is_input_matching_credential_type] *)
Definition is_input_matching_credential_type (input_line cred_type : string) : bool :=
  let patterns : list (string * list string) :=
    [ ("pin", ["digit"; "code"; "security"; "verify"; "unlock"]);
      ("password", ["pass"; "secret"; "secure"]);
      ("username", ["user"; "name"; "account"; "id"]);
      ("email", ["mail"; "@"; "address"]) ] in
  match List.find (fun kv => String.eqb (fst kv) cred_type) patterns with
  | Some (_, words) =>
      existsb (fun pattern => PyStr.contains pattern input_line) words
  | None => false
  end.

(** Modelled from the spec: the helpers of the module [tools] and the
    method [get_action_descv2] of the device state, which only produce
    text. *)
Record Tools : Type := mkTools {
  insert_id_into_view : string -> nat -> string;
  get_item_properties_from_id : string -> Z -> string;
  get_action_descv2 : DeviceState -> InputEvent -> option string -> string
}.

(** The four values [_get_action_from_views_actions] returns, and the
    record it appends to the journal of the task, if any. *)
Inductive Chosen : Type :=
  | ChosenFinished
  | ChosenAction (a : Action).

Record Decision : Type := mkDecision {
  chosen : Chosen;
  candidates : option (list Action);
  view_description : option string;
  thought : option string;
  journal : option (string * Z * string)   (* state prompt, choice, input *)
}.

(** The credentials the shortcut works with: those of the configuration
    (the call passes no notes text), replaced by the default PIN when they
    hold no PIN and the screen has a PIN field. *)
Definition auth_credentials (app_notes : option (list Credentials.note_obj))
  (state_prompt : string) : Credentials.dict :=
  let has_pin_field :=
    PyStr.contains "<input" (PyStr.lower state_prompt)
    && PyStr.contains "pin" (PyStr.lower state_prompt) in
  let credentials := Credentials.extract_credentials_from_notes app_notes None in
  if (match credentials with [] => true | _ => false end
      || negb (Credentials.dict_has credentials "pin")) && has_pin_field
  then [("pin", "1234")]
  else credentials.

(** The first line, with its index, for which [f] answers. *)
Fixpoint first_line {A : Type} (f : string -> option A) (lines : list string)
  (idx : nat) : option (nat * A) :=
  match lines with
  | [] => None
  | line :: rest =>
    match f line with
    | Some a => Some (idx, a)
    | None => first_line f rest (S idx)
    end
  end.

(** [input_indices[0]], if the list is not empty. *)
Definition first_input_index (credentials : Credentials.dict)
  (state_prompt : string) : option (nat * string) :=
  let has_pin_field :=
    PyStr.contains "<input" (PyStr.lower state_prompt)
    && PyStr.contains "pin" (PyStr.lower state_prompt) in
  let state_lines := PyStr.split_char "010" state_prompt in
  let pin_shortcut :=
    if Credentials.dict_has credentials "pin" && has_pin_field then
      first_line (fun line =>
                    let line_lower := PyStr.lower line in
                    if PyStr.contains "<input" line_lower
                       && (PyStr.contains "pin" line_lower
                           || PyStr.contains "digit" line_lower)
                    then Some "pin" else None)
                 state_lines 0
    else None in
  match pin_shortcut with
  | Some found => Some found
  | None =>
    first_line (fun line =>
                  let line_lower := PyStr.lower line in
                  if negb (PyStr.contains "<input" line_lower) then None
                  else List.find
                         (fun cred_type =>
                            PyStr.contains cred_type line_lower
                            || is_input_matching_credential_type
                                 line_lower cred_type)
                         (map fst credentials))
               state_lines 0
  end.

(** [_try_direct_auth_action] *)
Definition try_direct_auth_action (tools : Tools)
  (app_notes : option (list Credentials.note_obj))
  (state_prompt : string) (candidate_actions : list Action) : option Decision :=
  if negb (is_authentication_screen state_prompt) then None
  else
    let credentials := auth_credentials app_notes state_prompt in
    match credentials with
    | [] => None
    | _ =>
        match first_input_index credentials state_prompt with
        | Some (idx, cred_type) =>
            match candidate_actions !! idx with
            | Some (Single (SetTextEvent view _)) =>
                match Credentials.dict_get credentials cred_type with
                | Some cred_text =>
                    let action := Single (SetTextEvent view cred_text) in
                    Some (mkDecision
                            (ChosenAction action)
                            (Some (<[idx := action]> candidate_actions))
                            (Some (get_item_properties_from_id
                                     tools state_prompt (Z.of_nat idx)))
                            (Some ("Using " +:+ cred_type +:+ " '" +:+ cred_text
                                   +:+ "' from app notes for authentication"))
                            None)
                | None => None
                end
            | _ => None
            end
        | None => None
        end
    end.

(** *** The answer of the decision oracle *)

(** What [tools.extract_action(tools.query_gpt(prompt))] gives: the value of
    [int(idx)] (or the exception it raises), the action kind and the input
    text. *)
Record OracleReply : Type := mkOracleReply {
  reply_idx : res Z;
  reply_action_type : string;
  reply_input_text : option string
}.

Definition double_quote : ascii := ascii_of_nat 34.

(** The text typed into a text field. *)
Definition sanitize (input_text : option string) : string :=
  match input_text with
  | Some t =>
    if String.eqb t "N/A" then ""
    else
      let text :=
        PyStr.replace_char " " "-" (PyStr.replace_char double_quote "" t) in
      if (30 <? String.length text)%nat then "" else text
  | None => ""
  end.

(** The end of [_get_action_from_views_actions], from [idx = int(idx)] on. *)
Definition handle_reply (tools : Tools) (state_prompt : string)
  (candidate_actions : list Action) (state_strs_given : bool)
  (reply : OracleReply) : res Decision :=
  idx ← reply_idx reply;
  if idx =? -1 then Ret (mkDecision ChosenFinished None None None None)
  else
    let idx := if idx >=? Z.of_nat (length candidate_actions) then 0 else idx in
    selected_action ← py_index candidate_actions idx;
    let selected_view_description :=
      get_item_properties_from_id tools state_prompt idx in
    match selected_action with
    | Single (SetTextEvent view _) =>
        let text := sanitize (reply_input_text reply) in
        let action := Single (SetTextEvent view text) in
        candidate_actions ← py_setitem candidate_actions idx action;
        Ret (mkDecision (ChosenAction action) (Some candidate_actions)
                        (Some selected_view_description) (Some "")
                        (if state_strs_given
                         then Some (state_prompt, idx, text) else None))
    | _ =>
        Ret (mkDecision (ChosenAction selected_action) (Some candidate_actions)
                        (Some selected_view_description) (Some "")
                        (if state_strs_given
                         then Some (state_prompt, idx, "null") else None))
    end.

(** [_get_action_from_views_actions], once the state prompt and the
    candidate actions are there.  The prompt built from them goes to the
    oracle only, whose reply is given. *)
Definition get_action (tools : Tools)
  (app_notes : option (list Credentials.note_obj))
  (state_prompt : string) (candidate_actions : list Action)
  (state_strs_given : bool) (reply : OracleReply) : res Decision :=
  match (if is_authentication_screen state_prompt
         then try_direct_auth_action tools app_notes state_prompt
                candidate_actions
         else None) with
  | Some auth_result => Ret auth_result
  | None =>
      handle_reply tools state_prompt candidate_actions state_strs_given reply
  end.

(** The call with [current_state]. *)
Definition get_action_of_state (tools : Tools)
  (app_notes : option (list Credentials.note_obj))
  (current_state : DeviceState) (reply : OracleReply) : res Decision :=
  get_action tools app_notes (state_prompt current_state)
             (map Single (described_actions current_state))
             (PyStr.truthy (state_str current_state)) reply.

(** The call with the flattened [views] and [candidate_actions]. *)
Definition get_action_of_views (tools : Tools)
  (app_notes : option (list Credentials.note_obj))
  (views : list string) (candidate_actions : list Action)
  (state_strs : list string) (reply : OracleReply) : res Decision :=
  let views_with_id :=
    imap (fun id view => insert_id_into_view tools view id) views in
  let state_prompt :=
    match views_with_id with
    | [] => ""
    | v :: vs => foldl (fun acc x => acc +:+ String "010" x) v vs
    end in
  get_action tools app_notes state_prompt candidate_actions
             (match state_strs with [] => false | _ => true end) reply.

(** *** Scrollable regions *)

(** The device as the task policy drives it: a state that [send_event]
    changes and [get_current_state] reads ([None] when it cannot be read). *)
Record Device (D : Type) : Type := mkDevice {
  send_event : InputEvent -> D -> D;
  get_current_state : D -> option DeviceState
}.
Arguments mkDevice {D}.
Arguments send_event {D}.
Arguments get_current_state {D}.

(** The device together with what the policy did to it and to the UTG:
    the events sent and the transitions added, oldest first. *)
Record World (D : Type) : Type := mkWorld {
  dev : D;
  sent : list InputEvent;
  transitions : list (InputEvent * option DeviceState * option DeviceState)
}.
Arguments mkWorld {D}.
Arguments dev {D}.
Arguments sent {D}.
Arguments transitions {D}.

Definition UP (scroller : View) : InputEvent := ScrollEvent scroller "UP".
Definition DOWN (scroller : View) : InputEvent := ScrollEvent scroller "DOWN".

(** A scroll in the given direction. *)
Definition is_scroll (direction : string) (e : InputEvent) : bool :=
  match e with
  | ScrollEvent _ d => String.eqb d direction
  | _ => false
  end.

Section Flatten.
Context {D : Type} (device : Device D).

Definition send (e : InputEvent) (w : World D) : World D :=
  mkWorld (send_event device e (dev w)) (sent w ++ [e]) (transitions w).

Definition poll (w : World D) : option DeviceState :=
  get_current_state device (dev w).

Definition add_transition (e : InputEvent) (old new : option DeviceState)
  (w : World D) : World D :=
  mkWorld (dev w) (sent w) (transitions w ++ [(e, old, new)]).

(** The views of [scrolled_views] that are not in [seen] yet, in order, and
    [seen] with them appended. *)
Fixpoint new_views (scrolled_views seen : list string) : list string * list string :=
  match scrolled_views with
  | [] => ([], seen)
  | scrolled_view :: rest =>
      if bool_decide (scrolled_view ∈ seen) then new_views rest seen
      else
        let '(new, seen') := new_views rest (seen ++ [scrolled_view]) in
        (scrolled_view :: new, seen')
  end.

(** The [for] loop of [_scroll_to_top], with [n] rounds left. *)
Fixpoint scroll_to_top_loop (n : nat) (scroller : View)
  (old_state : option DeviceState) (all_views_for_mark : list string)
  (prefix_scroll_event : list InputEvent) (w : World D)
  : World D * res (list string * list InputEvent) :=
  match n with
  | O => (w, Ret (all_views_for_mark, prefix_scroll_event))
  | S n' =>
      let w := send (UP scroller) w in
      let scrolled_state := poll w in
      let w := add_transition (UP scroller) old_state scrolled_state w in
      match scrolled_state with
      | None => (w, Raise AttributeError)
      | Some scrolled =>
          let '(scrolled_new_views, all_views_for_mark) :=
            new_views (described_views scrolled) all_views_for_mark in
          match scrolled_new_views with
          | [] => (w, Ret (all_views_for_mark, prefix_scroll_event))
          | _ =>
              scroll_to_top_loop n' scroller scrolled_state all_views_for_mark
                (prefix_scroll_event ++ [UP scroller]) w
          end
      end
  end.

(** [_scroll_to_top(scroller, all_views_for_mark, old_state)]: the marked
    views after the call and the list it returns. *)
Definition scroll_to_top (scroller : View) (all_views_for_mark : list string)
  (old_state : DeviceState) (w : World D)
  : World D * res (list string * list InputEvent) :=
  scroll_to_top_loop MAX_SCROLL_NUM scroller (Some old_state) all_views_for_mark [] w.

(** What the downward loop keeps between two rounds. *)
Record Down : Type := mkDown {
  top_state : DeviceState;
  all_views_without_id : list string;
  all_actions : list Action;
  prefix_scroll_event : list InputEvent;
  too_few_item_time : Z;
  whole_state_strs : list string
}.

(** The inner loop over the views of the scrolled state: a view not seen
    yet is added, with the action that scrolls to it and acts on it. *)
Fixpoint add_scrolled (scroller : View) (prefix : list InputEvent)
  (scrolled_views : list string) (scrolled_candidate_actions : list InputEvent)
  (scrolled_view_id : nat) (found : list string)
  (views : list string) (actions : list Action)
  : res (list string * list string * list Action) :=
  match scrolled_views with
  | [] => Ret (found, views, actions)
  | scrolled_view :: rest =>
      if bool_decide (scrolled_view ∈ views)
      then add_scrolled scroller prefix rest scrolled_candidate_actions
             (S scrolled_view_id) found views actions
      else
        match scrolled_candidate_actions !! scrolled_view_id with
        | None => Raise IndexError
        | Some action =>
            add_scrolled scroller prefix rest scrolled_candidate_actions
              (S scrolled_view_id) (found ++ [scrolled_view])
              (views ++ [scrolled_view])
              (actions ++ [Sequence (prefix ++ [DOWN scroller; action])])
        end
  end.

(** The [for] loop that scrolls down, with [n] rounds left. *)
Fixpoint scroll_down_loop (n : nat) (scroller : View) (d : Down) (w : World D)
  : World D * res Down :=
  match n with
  | O => (w, Ret d)
  | S n' =>
      let strs := whole_state_strs d ++ [state_str (top_state d)] in
      let w := send (DOWN scroller) w in
      match poll w with
      | None => (w, Raise AttributeError)
      | Some scrolled_state =>
          match add_scrolled scroller (prefix_scroll_event d)
                  (described_views scrolled_state)
                  (described_actions scrolled_state)
                  0 [] (all_views_without_id d) (all_actions d) with
          | Raise e => (w, Raise e)
          | Ret (scrolled_new_views, views, actions) =>
              if (length scrolled_new_views =? 0)%nat
              then (w, Ret (mkDown (top_state d) views actions
                                   (prefix_scroll_event d)
                                   (too_few_item_time d) strs))
              else
                let prefix := prefix_scroll_event d ++ [DOWN scroller] in
                let too_few :=
                  if (length scrolled_new_views <? 2)%nat
                  then too_few_item_time d + 1 else too_few_item_time d in
                if too_few >=? 2
                then (w, Ret (mkDown (top_state d) views actions prefix
                                     too_few strs))
                else
                  let w := add_transition (DOWN scroller) (Some (top_state d))
                                          (Some scrolled_state) w in
                  scroll_down_loop n' scroller
                    (mkDown scrolled_state views actions prefix too_few strs) w
          end
      end
  end.

(** The views gathered for one scroller that the whole state does not hold
    yet, with their actions. *)
Fixpoint merge_views (views : list string) (actions : list Action) (id : nat)
  (whole_views : list string) (whole_actions : list Action)
  : res (list string * list Action) :=
  match views with
  | [] => Ret (whole_views, whole_actions)
  | view :: rest =>
      if bool_decide (view ∈ whole_views)
      then merge_views rest actions (S id) whole_views whole_actions
      else
        match actions !! id with
        | None => Raise IndexError
        | Some action =>
            merge_views rest actions (S id) (whole_views ++ [view])
                        (whole_actions ++ [action])
        end
  end.

(** What the loop over the scrollers keeps between two scrollers. *)
Record Whole : Type := mkWhole {
  whole_state_views : list string;
  whole_state_actions : list Action;
  whole_strs : list string;
  views_for_mark : list string
}.

(** The body of the loop over the scrollers, for one scroller. *)
Definition flatten_scroller (current_state : DeviceState) (scroller : View)
  (acc : Whole) (w : World D) : World D * res Whole :=
  match scroll_to_top scroller (views_for_mark acc) current_state w with
  | (w, Raise e) => (w, Raise e)
  | (w, Ret (_, prefix)) =>
      match poll w with
      | None => (w, Raise AttributeError)
      | Some top =>
          match scroll_down_loop MAX_SCROLL_NUM scroller
                  (mkDown top (described_views top)
                          (map Single (described_actions top)) prefix 0
                          (whole_strs acc)) w with
          | (w, Raise e) => (w, Raise e)
          | (w, Ret d) =>
              match merge_views (all_views_without_id d) (all_actions d) 0
                      (whole_state_views acc) (whole_state_actions acc) with
              | Raise e => (w, Raise e)
              | Ret (views, actions) =>
                  match scroll_to_top scroller [] (top_state d) w with
                  | (w, Raise e) => (w, Raise e)
                  | (w, Ret (mark, _)) =>
                      (w, Ret (mkWhole views actions (whole_state_strs d) mark))
                  end
              end
          end
      end
  end.

(** The loop over [scrollable_views]. *)
Fixpoint flatten_scrollers (current_state : DeviceState) (scrollers : list View)
  (acc : Whole) (w : World D) : World D * res Whole :=
  match scrollers with
  | [] => (w, Ret acc)
  | scroller :: rest =>
      match flatten_scroller current_state scroller acc w with
      | (w, Raise e) => (w, Raise e)
      | (w, Ret acc) => flatten_scrollers current_state rest acc w
      end
  end.

(** Sending the events of a chosen list but the last: the state read
    after the last one sent, and the last event. *)
Fixpoint send_but_last (events : list InputEvent) (last_state : option DeviceState)
  (w : World D) : World D * option DeviceState * res InputEvent :=
  match events with
  | [] => (w, last_state, Raise IndexError)
  | [event] => (w, last_state, Ret event)
  | event :: rest =>
      let w := send event w in
      send_but_last rest (poll w) w
  end.

(** [generate_event_based_on_utg]: the world and the fields after the
    call, and the pair it returns.  [_get_action_from_views_actions] never
    returns [None] as its action, so the random choice and the stop intent at
    the end of the source are never reached. *)
Definition generate_event_based_on_utg (tools : Tools) (app_name : string)
  (task : option string) (app_notes : option (list Credentials.note_obj))
  (reply : OracleReply) (current_state : DeviceState) (p : Policy) (w : World D)
  : World D * Policy * res (option DeviceState * Generated) :=
  match on_depth app_name task current_state p with
  | (p, Some event) => (w, p, Ret (None, GenEvent event))
  | (p, None) =>
      let finish (w : World D) (p : Policy) (decision : res Decision) :=
        match decision with
        | Raise e => (w, p, Raise e)
        | Ret decision =>
            match chosen decision with
            | ChosenFinished => (w, p, Ret (None, GenFinished))
            | ChosenAction (Sequence events) =>
                match send_but_last events None w with
                | (w, _, Raise e) => (w, p, Raise e)
                | (w, last_state, Ret event) =>
                    (w,
                     add_history
                       (get_action_descv2 tools current_state event
                                          (view_description decision))
                       (default "" (thought decision)) p,
                     Ret (last_state, GenEvent event))
                end
            | ChosenAction (Single event) =>
                (w,
                 add_history
                   (get_action_descv2 tools current_state event
                                      (view_description decision))
                   (default "" (thought decision)) p,
                 Ret (None, GenEvent event))
            end
        end in
      match scrollable_views current_state with
      | [] =>
          finish w p (get_action_of_state tools app_notes current_state reply)
      | scrollers =>
          match flatten_scrollers current_state scrollers
                  (mkWhole [] [] [] (described_views current_state)) w with
          | (w, Raise e) => (w, p, Raise e)
          | (w, Ret whole) =>
              finish w p (get_action_of_views tools app_notes
                            (whole_state_views whole)
                            (whole_state_actions whole)
                            (whole_strs whole) reply)
          end
      end
  end.

End Flatten.


(** *** Texts taken from the oracle's answer and from views *)

(** [_extract_input_text(string, start, end)] *)
Definition extract_input_text (text start end_ : string) : string :=
  let start_index := PyStr.find text start + Z.of_nat (String.length start) in
  let start_index := if start_index =? -1 then 0 else start_index in
  let end_index := PyStr.find text end_ in
  if negb (end_index =? -1)
  then PyStr.slice text (Some start_index) (Some end_index)
  else PyStr.slice text (Some start_index) None.

(** [_extract_input_textv2(string)] *)
Definition extract_input_textv2 (text : string) : string :=
  if String.eqb (PyStr.slice text None (Some 11)) "InputText: "
  then PyStr.slice text (Some 11) None
  else text.

(** [_get_text_view_description(view)]; the view is a dictionary whose
    values under "content_description" and "text" are strings or [None]. *)
Definition get_text_view_description (view : gmap string (option string)) : string :=
  let content_description := safe_dict_get view "content_description" (Some "") in
  let view_text := safe_dict_get view "text" (Some "") in
  let view_desc := "<input class='&'>#</input>" in
  let view_desc :=
    if PyStr.truthy view_text
    then PyStr.replace view_desc "#" view_text
    else PyStr.replace view_desc "#" "" in
  if PyStr.truthy content_description
  then PyStr.replace view_desc "&" content_description
  else PyStr.replace view_desc " class='&'" "".

(** *** Navigation hints in the app notes *)

Definition nav_patterns : list string :=
  ["long press"; "swipe"; "hold"; "hidden"; "secret"; "trick";
   "gesture"; "double tap"; "slide"; "pinch"; "zoom"; "shake"].

(** The list [navigation_hints]: for every note that counts, in order, the
    patterns that occur in it. *)
Definition navigation_hints (note_objs : list Credentials.note_obj) : list string :=
  flat_map (fun note =>
              List.filter (fun pattern => PyStr.contains pattern (PyStr.lower note))
                          nav_patterns)
           (omap Credentials.usable note_objs).

(** [_has_navigation_hints(state_prompt)]; [app_notes] is
    [config["app_notes"]], or [None] when the configuration is empty or has
    no such key. *)
Definition has_navigation_hints (app_notes : option (list Credentials.note_obj))
  (state_prompt : string) : bool :=
  match app_notes with
  | None => false
  | Some note_objs =>
      let state_prompt_lower := PyStr.lower state_prompt in
      existsb (fun hint =>
                 existsb (fun term =>
                            (3 <? String.length term)%nat
                            && PyStr.contains term state_prompt_lower)
                         (PyStr.split_ws hint))
              (navigation_hints note_objs)
  end.

(** The words of the navigation patterns that are longer than three
    letters, each with the pattern it belongs to. *)
Definition nav_words : list (string * string) :=
  [("long press", "long"); ("long press", "press"); ("swipe", "swipe");
   ("hold", "hold"); ("hidden", "hidden"); ("secret", "secret");
   ("trick", "trick"); ("gesture", "gesture"); ("double tap", "double");
   ("slide", "slide"); ("pinch", "pinch"); ("zoom", "zoom");
   ("shake", "shake")].

(** *** Words used to state what the answer of the oracle selects *)

(** The position that [candidate_actions[idx]] reads after the check of
    the index, in a list of [n] actions. *)
Definition selected_position (n : nat) (idx : Z) : nat :=
  if idx >=? Z.of_nat n then 0%nat
  else if idx <? 0 then Z.to_nat (idx + Z.of_nat n)
  else Z.to_nat idx.

(** The action handed back for the selected one: a text field gets the
    text of the answer. *)
Definition with_input (input_text : option string) (a : Action) : Action :=
  match a with
  | Single (SetTextEvent view _) => Single (SetTextEvent view (sanitize input_text))
  | _ => a
  end.

(** A line of the state prompt that the PIN shortcut takes for the PIN
    field. *)
Definition pin_field_line (line : string) : bool :=
  PyStr.contains "<input" (PyStr.lower line)
  && (PyStr.contains "pin" (PyStr.lower line)
      || PyStr.contains "digit" (PyStr.lower line)).

(** The screen has an input field and mentions a PIN. *)
Definition has_pin_field (state_prompt : string) : bool :=
  PyStr.contains "<input" (PyStr.lower state_prompt)
  && PyStr.contains "pin" (PyStr.lower state_prompt).

End Task.

(** ** The replay policy: [UtgReplayPolicy] *)

Module Replay.

(** The content of a recorded event file: [event_dict["start_state"]] and
    the event built by [InputEvent.from_dict(event_dict["event"])]. *)
Record EventDict : Type := mkEventDict {
  start_state : string;
  event : InputEvent
}.

(** [event_paths] holds one entry per event file, in sorted order; [None]
    is a file that [json.load] fails on.  The UTG of this policy is written
    by [__update_utg] and never read, so it is left out. *)
Record Policy : Type := mkPolicy {
  event_paths : list (option EventDict);
  event_idx : nat;
  num_replay_tries : Z;
  last_event : option InputEvent;
  last_state : option DeviceState
}.

(** The constructor skips the first two records. *)
Definition init (paths : list (option EventDict)) : Policy :=
  mkPolicy paths 2 0 None None.

(** What the device answers at one poll. *)
Record Poll : Type := mkPoll {
  current_state : option DeviceState;     (* [device.get_current_state()] *)
  foreground : bool                       (* [device.is_foreground(app)] *)
}.

Record App : Type := mkApp {
  package_name : string;
  main_activity : option string
}.

Definition component (app : App) : string :=
  match main_activity app with
  | Some a => if PyStr.truthy a then package_name app +:+ "/" +:+ a
              else package_name app
  | None => package_name app
  end.

(** The inner [while]: the first loadable entry at or after index [idx]
    recorded in state [state_str], with the index after it. *)
Fixpoint first_match (state_str : string) (entries : list (option EventDict))
  (idx : nat) : option (nat * EventDict) :=
  match entries with
  | [] => None
  | entry :: rest =>
    match entry with
    | Some event_dict =>
        if String.eqb (start_state event_dict) state_str
        then Some (S idx, event_dict)
        else first_match state_str rest (S idx)
    | None => first_match state_str rest (S idx)
    end
  end.

Definition set_tries (n : Z) (p : Policy) : Policy :=
  mkPolicy (event_paths p) (event_idx p) n (last_event p) (last_state p).

(** The outer [while]; [device k] is the answer to the [k]-th poll of the
    run and [fuel] bounds the number of passes.  The result carries the
    number of the next poll; the event is [None] when the loop ends without
    a [return]. *)
Fixpoint tries (fuel : nat) (device : nat -> Poll) (app : App)
  (p : Policy) (k : nat) : Policy * nat * option InputEvent :=
  match fuel with
  | O => (p, k, None)
  | S fuel' =>
    if (event_idx p <? length (event_paths p))%nat
       && (num_replay_tries p <? MAX_REPLY_TRIES)
    then
      let p := set_tries (num_replay_tries p + 1) p in
      match current_state (device k) with
      | None => (set_tries 0 p, S k, Some (KeyEvent "BACK"))
      | Some current =>
          match first_match (state_str current)
                            (drop (event_idx p) (event_paths p))
                            (event_idx p) with
          | Some (curr_event_idx, event_dict) =>
              if negb (foreground (device k))
              then (p, S k, Some (IntentEvent (ComponentIntent (component app))))
              else (mkPolicy (event_paths p) curr_event_idx 0
                             (Some (event event_dict)) None,
                    S k, Some (event event_dict))
          | None => tries fuel' device app p (S k)
          end
      end
    else (p, k, None)
  end.

(** [generate_event]: every pass adds one to [num_replay_tries], so
    MAX_REPLY_TRIES - num_replay_tries passes are all the loop can make. *)
Definition generate_event (device : nat -> Poll) (app : App)
  (p : Policy) (k : nat) : Policy * nat * option InputEvent :=
  tries (Z.to_nat (MAX_REPLY_TRIES - num_replay_tries p)) device app p k.

(** [n] successive calls; the events are listed oldest first. *)
Fixpoint run (n : nat) (device : nat -> Poll) (app : App)
  (p : Policy) (k : nat) : Policy * nat * list (option InputEvent) :=
  match n with
  | O => (p, k, [])
  | S n' =>
    let '(p1, k1, e) := generate_event device app p k in
    let '(p2, k2, es) := run n' device app p1 k1 in
    (p2, k2, e :: es)
  end.

(** *** Words used to state what a call does *)

(** The guard of the outer loop. *)
Definition can_try (p : Policy) : bool :=
  (event_idx p <? length (event_paths p))%nat
  && (num_replay_tries p <? MAX_REPLY_TRIES).

(** What a call that returns the event [e] has done. *)
Definition replayed (app : App) (p p' : Policy) (e : InputEvent) : Prop :=
  (e = BACK /\ event_idx p' = event_idx p /\ num_replay_tries p' = 0)
  \/ (e = IntentEvent (ComponentIntent (component app))
      /\ event_idx p' = event_idx p)
  \/ exists j ed,
       (event_idx p <= j)%nat
       /\ event_paths p !! j = Some (Some ed)
       /\ e = event ed
       /\ event_idx p' = S j
       /\ num_replay_tries p' = 0.

End Replay.

(** ** Calls and the parameters a method declares *)

(** A call [self.m(a1, ..., an)] of a method that declares [params]
    parameters besides [self], none of them with a default value: when the
    numbers differ Python raises [TypeError] and the body does not run. *)
Definition call {A : Type} (params args : nat) (body : res A) : res A :=
  if (params =? args)%nat then body else Raise TypeError.

(** ** The loop and the classes that define [generate_event] *)

Module Start.

Inductive policy_class : Type :=
  | NoneInputPolicy
  | UtgBasedInputPolicy
  | UtgReplayPolicy.

(** The parameters besides [self] of [generate_event] as the class
    declares it. *)
Definition generate_event_params (c : policy_class) : nat :=
  match c with
  | NoneInputPolicy => 0
  | UtgBasedInputPolicy => 1
  | UtgReplayPolicy => 0
  end.

(** [self.generate_event(input_manager)] in [start]; [body] is what the
    body of the method does when it runs. *)
Definition generate_event (c : policy_class) (body : res Generated) : res Generated :=
  call (generate_event_params c) 1 body.

(** A pass of the loop with a policy of class [c]. *)
Definition pass_of (c : policy_class) (x : bool * res Generated * res unit)
  : Loop.Pass :=
  let '(enabled, body, add_event) := x in
  Loop.mkPass enabled (generate_event c body) add_event.

End Start.

(** ** State-based policies: [UtgBasedInputPolicy] *)

Module Based.

(** What [generate_event] raises: an exception of [exn], or the
    [UnboundLocalError] of a local variable read before it is assigned. *)
Inductive raised : Type :=
  | Exn (e : exn)
  | UnboundLocalError (name : string).

Inductive outcome (A : Type) : Type :=
  | Returned (a : A)
  | Raised (r : raised).
Arguments Returned {A} a.
Arguments Raised {A} r.

Section Wrapper.

(** Modelled from the spec: the events of a script operation and the view
    tree of a device state, of which the method only moves values around. *)
Context {ScriptEvent ViewTree : Type}.

(** The fields of the policy; [utg] lists the transitions handed to
    [utg.add_transition], oldest first.  An event is a [Generated], with
    [GenNone] for [None]. *)
Record Policy : Type := mkPolicy {
  script : option (DeviceState -> option (list ScriptEvent));
  script_events : list ScriptEvent;
  script_event_idx : nat;
  last_event : Generated;
  last_state : option DeviceState;
  current_state : option DeviceState;
  humanoid_view_trees : list ViewTree;
  humanoid_events : list Generated;
  utg : list (Generated * option DeviceState * option DeviceState)
}.

(** The constructor. *)
Definition init : Policy := mkPolicy None [] 0 GenNone None None [] [] [].

Variable view_tree : DeviceState -> ViewTree.
Variable get_transformed_event : ScriptEvent -> Policy -> Generated.

Definition set_current_state (s : option DeviceState) (p : Policy) : Policy :=
  mkPolicy (script p) (script_events p) (script_event_idx p) (last_event p)
           (last_state p) s (humanoid_view_trees p) (humanoid_events p) (utg p).

(** [__update_utg] *)
Definition update_utg (p : Policy) : Policy :=
  mkPolicy (script p) (script_events p) (script_event_idx p) (last_event p)
           (last_state p) (current_state p) (humanoid_view_trees p)
           (humanoid_events p)
           (utg p ++ [(last_event p, last_state p, current_state p)]).

Definition set_script_events (events : list ScriptEvent) (p : Policy) : Policy :=
  mkPolicy (script p) events (script_event_idx p) (last_event p)
           (last_state p) (current_state p) (humanoid_view_trees p)
           (humanoid_events p) (utg p).

Definition set_script_event_idx (idx : nat) (p : Policy) : Policy :=
  mkPolicy (script p) (script_events p) idx (last_event p)
           (last_state p) (current_state p) (humanoid_view_trees p)
           (humanoid_events p) (utg p).

Definition set_humanoid_view_trees (trees : list ViewTree) (p : Policy) : Policy :=
  mkPolicy (script p) (script_events p) (script_event_idx p) (last_event p)
           (last_state p) (current_state p) trees (humanoid_events p) (utg p).

Definition set_humanoid_events (events : list Generated) (p : Policy) : Policy :=
  mkPolicy (script p) (script_events p) (script_event_idx p) (last_event p)
           (last_state p) (current_state p) (humanoid_view_trees p) events
           (utg p).

Definition set_last (state : option DeviceState) (event : Generated) (p : Policy)
  : Policy :=
  mkPolicy (script p) (script_events p) (script_event_idx p) event
           state (current_state p) (humanoid_view_trees p) (humanoid_events p)
           (utg p).

(** [l + [x]] cut to its last [n] elements by [l[1:]] when it is longer. *)
Definition push_bounded {A : Type} (n : nat) (l : list A) (x : A) : list A :=
  let l := l ++ [x] in
  if (n <? length l)%nat then drop 1 l else l.

Definition is_None (event : Generated) : bool :=
  match event with GenNone => true | _ => false end.

(** The end of [generate_event], from the update of the humanoid events on;
    [old_state] is [None] when the local variable was never assigned. *)
Definition finish (humanoid : bool) (old_state : option (option DeviceState))
  (event : Generated) (p : Policy) : Policy * outcome Generated :=
  let p :=
    if humanoid
    then set_humanoid_events (push_bounded 3 (humanoid_events p) event) p
    else p in
  match old_state with
  | None => (p, Raised (UnboundLocalError "old_state"))
  | Some old_state =>
      let state :=
        match old_state with
        | None => current_state p
        | Some old => Some old
        end in
      (set_last state event p, Returned event)
  end.

(** The call of [generate_event_based_on_utg] when no scripted event was
    found; [based_on_utg] is what
    [old_state, event = self.generate_event_based_on_utg(input_manager)]
    gives, the failure of the call or of the unpacking included. *)
Definition from_utg (humanoid : bool)
  (based_on_utg : res (option DeviceState * Generated)) (p : Policy)
  : Policy * outcome Generated :=
  match based_on_utg with
  | Raise e => (p, Raised (Exn e))
  | Ret (old_state, event) => finish humanoid (Some old_state) event p
  end.

(** [generate_event(input_manager)]; [device_state] is what
    [device.get_current_state()] answers and [humanoid] tells whether
    [device.humanoid] is set. *)
Definition generate_event (device_state : option DeviceState) (humanoid : bool)
  (based_on_utg : res (option DeviceState * Generated)) (p : Policy)
  : Policy * outcome Generated :=
  let p := set_current_state device_state p in
  match device_state with
  | None => (p, Returned (GenEvent (KeyEvent "BACK")))
  | Some current =>
      let p := update_utg p in
      let p :=
        if humanoid
        then set_humanoid_view_trees
               (push_bounded 4 (humanoid_view_trees p) (view_tree current)) p
        else p in
      let '(p, event) :=
        match script_events p !! script_event_idx p with
        | Some script_event =>
            (set_script_event_idx (S (script_event_idx p)) p,
             get_transformed_event script_event p)
        | None => (p, GenNone)
        end in
      if is_None event then
        match script p with
        | Some get_operation_based_on_state =>
            match get_operation_based_on_state current with
            | Some events =>
                let p := set_script_events events p in
                match events with
                | [] => (p, Raised (Exn IndexError))
                | first :: _ =>
                    let event := get_transformed_event first p in
                    let p := set_script_event_idx 1 p in
                    if is_None event then from_utg humanoid based_on_utg p
                    else finish humanoid None event p
                end
            | None => from_utg humanoid based_on_utg p
            end
        | None => from_utg humanoid based_on_utg p
        end
      else finish humanoid None event p
  end.

(** Successive calls, one per poll. *)
Fixpoint run
  (calls : list (option DeviceState * bool * res (option DeviceState * Generated)))
  (p : Policy) : Policy * list (outcome Generated) :=
  match calls with
  | [] => (p, [])
  | (device_state, humanoid, based_on_utg) :: rest =>
      let '(p1, r) := generate_event device_state humanoid based_on_utg p in
      let '(p2, rs) := run rest p1 in
      (p2, r :: rs)
  end.

End Wrapper.

(** The subclasses and the parameters besides [self] of
    [generate_event_based_on_utg] as each of them declares it. *)
Inductive subclass : Type :=
  | UtgNaiveSearchPolicy
  | UtgGreedySearchPolicy
  | ManualPolicy
  | TaskPolicy.

Definition based_on_utg_params (c : subclass) : nat :=
  match c with
  | UtgNaiveSearchPolicy => 0
  | UtgGreedySearchPolicy => 1
  | ManualPolicy => 0
  | TaskPolicy => 1
  end.

(** [self.generate_event_based_on_utg(input_manager)] in [generate_event];
    [body] is what the body of the method gives when it runs. *)
Definition generate_event_based_on_utg (c : subclass)
  (body : res (option DeviceState * Generated))
  : res (option DeviceState * Generated) :=
  call (based_on_utg_params c) 1 body.

End Based.

(** ** The manual policy: [ManualPolicy] *)

Module Manual.

(** [generate_event_based_on_utg]: the field [__first_event] after the
    call and the event returned. *)
Definition generate_event_based_on_utg (first_event : bool) : bool * InputEvent :=
  if first_event then (false, IntentEvent StartIntent) else (first_event, ManualEvent).

End Manual.

(** ** The record of choices: [TaskPolicy._save2yaml]

    The files are the YAML documents the method itself writes: a file holds
    what [yaml.dump] was given, and [yaml.safe_load] gives it back. *)

Module Save.

Section Records.

(** What [state_str] is at the call: a state string or a list of them. *)
Context {StateStrs : Type}.

(** An element of [records]. *)
Record Entry : Type := mkEntry {
  State : string;
  Choice : Z;
  Input : string;
  entry_state_str : StateStrs
}.

Record Doc : Type := mkDoc {
  task_name : option string;
  step_num : nat;
  records : list Entry
}.

(** [_save2yaml(file_name, state_prompt, idx, state_str, inputs)] for a
    policy with the task [task], on the files by name (an absent name is a
    file that does not exist).  [new_records] is the list
    [old_yaml_data['records']] itself, so the length taken after the
    [append] counts the new record. *)
Definition save2yaml (task : option string) (file_name state_prompt : string)
  (idx : Z) (state_str : StateStrs) (inputs : string)
  (files : gmap string Doc) : gmap string Doc :=
  let files :=
    match files !! file_name with
    | None => <[file_name := mkDoc task 0 []]> files
    | Some _ => files
    end in
  match files !! file_name with
  | Some old_yaml_data =>
      let new_records :=
        records old_yaml_data ++ [mkEntry state_prompt idx inputs state_str] in
      <[file_name := mkDoc task (length new_records) new_records]> files
  | None => files
  end.

(** Successive calls on one file, each with the task of the policy at that
    time and the four values saved. *)
Fixpoint saves (file_name : string) (calls : list (option string * Entry))
  (files : gmap string Doc) : gmap string Doc :=
  match calls with
  | [] => files
  | (task, e) :: rest =>
      saves file_name rest
        (save2yaml task file_name (State e) (Choice e) (entry_state_str e)
                   (Input e) files)
  end.

(** The records a file holds; none when it does not exist. *)
Definition records_of (files : gmap string Doc) (file_name : string)
  : list Entry :=
  match files !! file_name with
  | Some doc => records doc
  | None => []
  end.

End Records.

Arguments Entry : clear implicits.
Arguments Doc : clear implicits.

End Save.

(** ** Concrete collaborators used in the examples *)

Module Scenario.

(** A [random] module that leaves every list as it is and draws the lower
    bound. *)
Definition identity_random : Random :=
  mkRandom (fun l => l) (fun l => l) (fun l => l) (fun lo _ => lo).

Definition differs (a b : DeviceState) : bool :=
  negb (String.eqb (state_str a) (state_str b)).

(** A screen of another app while the app under test is not running. *)
Definition stopped_app : DeviceState :=
  mkState "launcher" "t0" "com.android.launcher" [] (-1) [] [] "" [] [].

(** A screen of another app while the app under test is in the background. *)
Definition backgrounded_app : DeviceState :=
  mkState "dialer" "t1" "com.android.dialer" [] 1 [] [] "" [] [].

(** A UTG in which every event has been tried and nothing is reachable. *)
Definition exhausted_utg : UTG :=
  mkUTG (fun _ _ => true) (fun _ => true) (fun _ => true)
        (fun _ => []) (fun _ _ => []).

Definition naive_cfg : Config :=
  mkConfig false POLICY_NAIVE_DFS None identity_random false differs.

Definition greedy_cfg : Config :=
  mkConfig false POLICY_GREEDY_DFS None identity_random true differs.

(** A foreground screen of the app that offers one tap. *)
Definition ok_button : View := mkView "view_ok" (Some "OK") true [].

Definition home_screen : DeviceState :=
  mkState "home" "t2" "MainActivity" [ok_button] 0 [TouchEvent ok_button]
          [] "<button id=0>OK</button>" [TouchEvent ok_button]
          ["<button>OK</button>"].

Definition settings_screen : DeviceState :=
  mkState "settings" "t3" "SettingsActivity" [] 0 [] [] "" [] [].

(** A UTG in which only BACK has been tried. *)
Definition fresh_utg : UTG :=
  mkUTG (fun e _ => match e with KeyEvent _ => true | _ => false end)
        (fun _ => false) (fun _ => true) (fun _ => []) (fun _ _ => []).

(** A UTG in which every event has been tried and the settings screen is
    one tap away from everywhere. *)
Definition routed_utg : UTG :=
  mkUTG (fun _ _ => true) (fun _ => false) (fun _ => true)
        (fun _ => [settings_screen])
        (fun from _ => [(from, TouchEvent ok_button)]).

(** Three recorded events after the two records the replay policy skips. *)
Definition recorded : list (option Replay.EventDict) :=
  [ Some (Replay.mkEventDict "first" KillAppEvent);
    Some (Replay.mkEventDict "second" (IntentEvent StartIntent));
    Some (Replay.mkEventDict "home" (TouchEvent ok_button));
    Some (Replay.mkEventDict "settings" BACK);
    Some (Replay.mkEventDict "home" (KeyEvent "MENU")) ].

(** A recording of exactly three events. *)
Definition three_recorded : list (option Replay.EventDict) :=
  [ Some (Replay.mkEventDict "home" (TouchEvent ok_button));
    Some (Replay.mkEventDict "settings" BACK);
    Some (Replay.mkEventDict "about" (KeyEvent "MENU")) ].

Definition about_screen : DeviceState :=
  mkState "about" "t4" "AboutActivity" [] 0 [] [] "" [] [].

(** A device that shows home, then settings, then the about screen, always
    with the app in the foreground. *)
Definition replaying_device (k : nat) : Replay.Poll :=
  match k with
  | 0%nat => Replay.mkPoll (Some home_screen) true
  | 1%nat => Replay.mkPoll (Some settings_screen) true
  | _ => Replay.mkPoll (Some about_screen) true
  end.

Definition some_app : Replay.App := Replay.mkApp "com.example" (Some ".Main").

(** Helpers that render nothing. *)
Definition plain_tools : Task.Tools :=
  Task.mkTools (fun view _ => view) (fun _ _ => "") (fun _ _ _ => "").

Definition three_actions : list Action :=
  [Single (KeyEvent "A"); Single (KeyEvent "B"); Single (KeyEvent "C")].

Definition oracle_says (idx : Z) : Task.OracleReply :=
  Task.mkOracleReply (Ret idx) "tap" None.

(** A list of thirty rows of which the screen shows one: the device state
    is the number of the row shown; scrolling up or down moves by one row and
    stops at the ends. *)
Definition row (n : nat) : string :=
  String.concat "" (replicate n "x") +:+ "row".

Definition list_view : View := mkView "list" None true [0].

Definition list_at (n : nat) : DeviceState :=
  mkState (row n) "list" "ListActivity" [] 0 [] [list_view] (row n) [BACK]
          [row n].

Definition long_list : Task.Device nat :=
  Task.mkDevice
    (fun e n =>
       match e with
       | ScrollEvent _ direction =>
           if String.eqb direction "UP" then Nat.pred n
           else if String.eqb direction "DOWN" then Nat.min (S n) 29
           else n
       | _ => n
       end)
    (fun n => Some (list_at n)).

(** A pass of the loop in which the event is generated and sending it
    raises IndexError, after three actions. *)
Definition failing_send : Loop.Pass :=
  Loop.mkPass true (Ret (GenEvent (KeyEvent "BACK"))) (Raise IndexError).

Definition third_pass : Loop.Loop := Loop.mkLoop Loop.RUNNING 3 [] [] None.

(** A text field whose text holds an ampersand. *)
Definition labelled_field : gmap string (option string) :=
  {[ "content_description" := Some "Name"; "text" := Some "R&D" ]}.

(** A note that describes a gesture. *)
Definition gesture_note : list Credentials.note_obj :=
  [Credentials.mkNote (Some "Long press the logo to open the menu")].

(** A state-based policy with one scripted event pending; script events
    carry nothing and a view tree is the name of the state. *)
Definition scripted : @Based.Policy unit string :=
  Based.mkPolicy None [tt] 0 GenNone None None [] [] [].

Definition unscripted : @Based.Policy unit string := Based.init.

(** The transformed event of a script event is a BACK key; without a
    script nothing is transformed. *)
Definition transformed_back (_ : unit) (_ : @Based.Policy unit string)
  : Generated := GenEvent BACK.

Definition transformed_none (_ : unit) (_ : @Based.Policy unit string)
  : Generated := GenNone.

(** Six polls of the home screen with a humanoid service, each answered
    by a tap on OK. *)
Definition six_taps
  : list (option DeviceState * bool * res (option DeviceState * Generated)) :=
  replicate 6 (Some home_screen, true,
               Ret (None, GenEvent (TouchEvent ok_button))).

(** A device that always shows the about screen, for which the recording
    holds no record. *)
Definition lost_device (_ : nat) : Replay.Poll :=
  Replay.mkPoll (Some about_screen) true.

(** A screen that asks for a PIN: a title, the PIN field and a button. *)
Definition pin_prompt : string :=
  "<p id=0>Welcome</p>" +:+ String "010"
    ("<input id=1>Enter PIN</input>" +:+ String "010" "<button id=2>OK</button>").

Definition pin_view : View := mkView "view_pin" (Some "Enter PIN") true [].

Definition pin_actions : list Action :=
  [Single (TouchEvent ok_button); Single (SetTextEvent pin_view "");
   Single (TouchEvent ok_button)].

(** The greedy policy under breadth-first search. *)
Definition greedy_bfs_cfg : Config :=
  mkConfig false POLICY_GREEDY_BFS None identity_random true differs.

(** A UTG in which nothing has been tried yet. *)
Definition blank_utg : UTG :=
  mkUTG (fun _ _ => false) (fun _ => false) (fun _ => true)
        (fun _ => []) (fun _ _ => []).

(** The greedy policy with a humanoid service that ranks the candidate at
    index 1 first and names no other. *)
Definition ranked_cfg : Config :=
  mkConfig false POLICY_GREEDY_DFS (Some (mkReply [1] "")) identity_random true
           differs.

(** A UTG in which only the keys have been tried and the settings screen,
    not explored yet, is one press of MENU away. *)
Definition menu_utg : UTG :=
  mkUTG (fun e _ => match e with KeyEvent _ => true | _ => false end)
        (fun _ => false) (fun _ => true)
        (fun _ => [settings_screen])
        (fun from _ => [(from, KeyEvent "MENU")]).

(** A device that shows the home screen with the app in the background. *)
Definition background_device (k : nat) : Replay.Poll :=
  Replay.mkPoll (Some home_screen) false.

End Scenario.

(** * Properties *)

(** ** The policy loop *)

Section LoopFacts.
Import Loop.
Variables (event_count : Z) (master_is_None : bool).

Lemma start_pass_guard_false p l :
  enabled p && (action_count l <? event_count) = false ->
  start_pass event_count master_is_None p l = break l.
Proof. unfold start_pass. now intros ->. Qed.

Lemma try_body_finished p l :
  try_body master_is_None p l = Ret None <->
  pass_event master_is_None p l = Ret GenFinished.
Proof.
  unfold try_body. destruct (pass_event master_is_None p l) as [[e| |]|e]; simpl.
  - destruct (add_event p); simpl; split; discriminate.
  - tauto.
  - destruct (add_event p); simpl; split; discriminate.
  - split; discriminate.
Qed.

(** C3: a pass of the loop ends in STOPPED exactly when the manager was
    disabled, the action budget is used up, the policy returned FINISHED,
    or an interrupt or cancellation was raised while generating or sending;
    any other exception is logged and the loop goes on with the action
    count unchanged. *)
Theorem policy_loop_stop_conditions (p : Pass) (l : Loop) :
  (status (start_pass event_count master_is_None p l) = STOPPED <->
   enabled p = false
   \/ event_count <= action_count l
   \/ pass_event master_is_None p l = Ret GenFinished
   \/ exists e, raised master_is_None p l = Some e /\ is_interrupt e = true)
  /\ (forall e,
      enabled p = true -> action_count l < event_count ->
      raised master_is_None p l = Some e -> is_interrupt e = false ->
      let l' := start_pass event_count master_is_None p l in
      status l' = RUNNING
      /\ action_count l' = action_count l
      /\ sent l' = sent l
      /\ log l' = log l ++ [WarnExceptionDuringSending e]).
Proof.
  split.
  - unfold start_pass, raised.
    destruct (enabled p) eqn:En; simpl; [|split; auto].
    destruct (action_count l <? event_count) eqn:Lt.
    2:{ apply Z.ltb_ge in Lt. split; auto. }
    apply Z.ltb_lt in Lt.
    pose proof (try_body_finished p l) as Fin.
    destruct (try_body master_is_None p l) as [[g|]|e] eqn:Body.
    + simpl. split; [discriminate|].
      intros [H|[H|[H|(e & H & _)]]]; try discriminate; try lia.
      apply Fin in H. discriminate.
    + simpl. split; auto. intros _. right; right; left. now apply Fin.
    + split.
      * intros St. right; right; right. exists e. split; [reflexivity|].
        destruct e; simpl in *; try reflexivity; discriminate.
      * intros [H|[H|[H|(e' & H & Hi)]]]; try discriminate; try lia.
        -- apply Fin in H. discriminate.
        -- injection H as <-. destruct e; simpl in *; try reflexivity; discriminate.
  - intros e En Lt Hr Hi l'. subst l'. unfold start_pass, raised in *.
    rewrite En. apply Z.ltb_lt in Lt. rewrite Lt. simpl.
    destruct (try_body master_is_None p l) as [g|e0]; [discriminate|].
    injection Hr as ->. destruct e; simpl in *; try discriminate; auto.
Qed.

End LoopFacts.

(** A pass in which sending raises [IndexError]: the loop keeps running and
    the action count stays at 3. *)
Lemma policy_loop_stop_conditions_witness :
  Loop.status (Loop.start_pass 10 true Scenario.failing_send Scenario.third_pass)
  = Loop.RUNNING
  /\ Loop.action_count
       (Loop.start_pass 10 true Scenario.failing_send Scenario.third_pass) = 3
  /\ Loop.sent (Loop.start_pass 10 true Scenario.failing_send Scenario.third_pass) = []
  /\ Loop.log (Loop.start_pass 10 true Scenario.failing_send Scenario.third_pass)
     = [] ++ [Loop.WarnExceptionDuringSending IndexError].
Proof.
  apply (proj2 (policy_loop_stop_conditions 10 true Scenario.failing_send
    Scenario.third_pass) IndexError);
    [reflexivity | reflexivity | reflexivity | reflexivity].
Defined.

(** ** Python strings *)

Section PyStrFacts.
Import PyStr.

Lemma endswith_refl s : endswith s s = true.
Proof. destruct s; [reflexivity|]. cbn [endswith]. now rewrite String.eqb_refl. Qed.

Lemma endswith_app s f : endswith (s +:+ f) f = true.
Proof.
  induction s as [|c s IH].
  - apply endswith_refl.
  - change (String c s +:+ f) with (String c (s +:+ f)).
  cbn [endswith]. rewrite IH. now destruct (String.eqb _ _).
Qed.

End PyStrFacts.

(** ** The greedy policy: bookkeeping that the choice of an event keeps *)

Section GreedyFacts.
Import Greedy.
Variables (cfg : Config) (utg : UTG) (current_state : DeviceState).

Lemma same_counters_refl p : same_counters p p.
Proof. now repeat split. Qed.

Lemma same_counters_trans p q r :
  same_counters p q -> same_counters q r -> same_counters p r.
Proof. unfold same_counters. intuition congruence. Qed.

Lemma scan_targets_counters states p :
  same_counters p (fst (scan_targets utg current_state states p)).
Proof.
  revert p. induction states as [|state rest IH]; intros p; simpl.
  - now repeat split.
  - repeat case_match; simpl; auto; try (now repeat split).
  eapply same_counters_trans; [|apply IH]. now repeat split.
Qed.

Lemma get_nav_target_counters p :
  same_counters p (fst (get_nav_target cfg utg current_state p)).
Proof.
  unfold get_nav_target.
  repeat case_match; simpl; try apply scan_targets_counters;
    try (now repeat split);
    (eapply same_counters_trans; [|apply scan_targets_counters]; now repeat split).
Qed.

Lemma select_event_counters p :
  same_counters p (fst (select_event cfg utg current_state p)).
Proof.
  unfold select_event.
  destruct (candidate_events cfg utg current_state) as [evs|e]; simpl;
    [|apply same_counters_refl].
  destruct (List.find _ evs); simpl; [now repeat split|].
  pose proof (get_nav_target_counters p) as H.
  destruct (get_nav_target cfg utg current_state p) as [q t]; simpl in H.
  repeat case_match; simpl; auto;
    (eapply same_counters_trans; [apply H|]; now repeat split).
Qed.

Lemma py_index_raise {A} (l : list A) i e :
  py_index l i = Raise e -> list_error e.
Proof.
  unfold py_index. repeat case_match; intros Hr; inversion Hr; now left.
Qed.

Lemma py_setitem_raise {A} (l : list A) i x e :
  py_setitem l i x = Raise e -> list_error e.
Proof.
  unfold py_setitem. repeat case_match; intros Hr; inversion Hr; now left.
Qed.

Lemma mapM_res_raise {A B} (f : A -> res B) (l : list A) e :
  mapM f l = Raise e -> exists x, x ∈ l /\ f x = Raise e.
Proof.
  induction l as [|a l IH]; simpl; [discriminate|].
  destruct (f a) as [b|e'] eqn:Fa; simpl.
  - destruct (mapM f l) as [bs|e'']; simpl; [discriminate|].
    intros H. injection H as ->. destruct IH as (x & Hin & Hx); [reflexivity|].
    exists x. split; [now right|assumption].
  - intros H. injection H as ->. exists a. split; [now left|assumption].
Qed.

Lemma bind_res_raise {A B} (m : res A) (f : A -> res B) e :
  m ≫= f = Raise e -> m = Raise e \/ exists a, m = Ret a /\ f a = Raise e.
Proof.
  destruct m as [a|e']; intros H.
  - right. exists a. split; [reflexivity|exact H].
  - left. cbv in H. now injection H as ->.
Qed.

Lemma sort_inputs_by_humanoid_raise reply evs e :
  sort_inputs_by_humanoid cfg utg current_state reply evs = Raise e ->
  list_error e.
Proof.
  unfold sort_inputs_by_humanoid. intros H.
  apply bind_res_raise in H as [H|(idx & _ & H)].
  - destruct (negb _); [|discriminate].
    destruct (_ <? 0); [injection H as <-; now right|].
    apply bind_res_raise in H as [H|(a & _ & H)]; [eapply py_index_raise; eauto|].
    apply bind_res_raise in H as [H|(b & _ & H)]; [eapply py_index_raise; eauto|].
    apply bind_res_raise in H as [H|(l & _ & H)]; eapply py_setitem_raise; eauto.
  - apply mapM_res_raise in H as (x & _ & Hx).
    apply bind_res_raise in Hx as [Hx|(a & _ & Hx)]; [|discriminate].
    eapply py_index_raise; eauto.
Qed.

Lemma candidate_events_raise e :
  candidate_events cfg utg current_state = Raise e -> list_error e.
Proof.
  unfold candidate_events. destruct (humanoid cfg) as [reply|]; [|discriminate].
  apply sort_inputs_by_humanoid_raise.
Qed.

Lemma select_event_raise p e :
  snd (select_event cfg utg current_state p) = Raise e -> list_error e.
Proof.
  unfold select_event.
  destruct (candidate_events cfg utg current_state) as [evs|e'] eqn:Ca; simpl.
  - destruct (List.find _ evs); simpl; [discriminate|].
    destruct (get_nav_target _ _ _ _) as [q t].
    repeat case_match; simpl; try discriminate;
      intros Hr; injection Hr as <-; now left.
  - intros Hr. injection Hr as ->. now apply candidate_events_raise.
Qed.

Lemma generate_event_raise p e :
  snd (generate_event_based_on_utg cfg utg current_state p) = Raise e ->
  list_error e.
Proof.
  unfold generate_event_based_on_utg.
  destruct (on_depth current_state p) as [q [ev|]]; simpl; [discriminate|].
  apply select_event_raise.
Qed.

Lemma on_depth_random_explore p :
  random_explore p = true -> random_explore (fst (on_depth current_state p)) = true.
Proof. unfold on_depth. intros H. repeat case_match; simpl; auto. Qed.

Lemma generate_event_random_explore p :
  random_explore p = true ->
  random_explore (fst (generate_event_based_on_utg cfg utg current_state p)) = true.
Proof.
  intros H. unfold generate_event_based_on_utg.
  pose proof (on_depth_random_explore p H) as Hd.
  destruct (on_depth current_state p) as [q [ev|]]; simpl in *; [assumption|].
  destruct (select_event_counters q) as (_ & _ & ->). assumption.
Qed.

End GreedyFacts.

Lemma list_error_not_interrupt e : list_error e -> Loop.is_interrupt e = false.
Proof. intros [->| ->]; reflexivity. Qed.

Lemma greedy_run_random_explore calls p :
  Greedy.random_explore p = true ->
  Greedy.random_explore (fst (Greedy.run calls p)) = true.
Proof.
  revert p. induction calls as [|[[cfg utg] st] rest IH]; intros p H; simpl; [assumption|].
  pose proof (generate_event_random_explore cfg utg st p H) as H1.
  destruct (Greedy.generate_event_based_on_utg cfg utg st p) as [p1 r]; simpl in H1.
  specialize (IH p1 H1).
  destruct (Greedy.run rest p1) as [p2 rs]; simpl in *. assumption.
Qed.

Lemma greedy_run_no_interrupt calls p e :
  Raise e ∈ snd (Greedy.run calls p) -> Loop.is_interrupt e = false.
Proof.
  revert p. induction calls as [|[[cfg utg] st] rest IH]; intros p; simpl.
  - intros H. inversion H.
  - pose proof (generate_event_raise cfg utg st p e) as H1.
    destruct (Greedy.generate_event_based_on_utg cfg utg st p) as [p1 r]; simpl in H1.
    specialize (IH p1).
    destruct (Greedy.run rest p1) as [p2 rs]; simpl in *.
    intros H. apply elem_of_cons in H as [<-|H]; [|auto].
    apply list_error_not_interrupt, H1. reflexivity.
Qed.


(** ** Restarting the app (C1) *)

Section Restart.
Import Greedy PyStr.

Lemma on_depth_not_running st p :
  app_activity_depth st < 0 ->
  let q := fst (on_depth st p) in
  num_restarts q = counted_restarts p
  /\ (endswith (event_trace p) EVENT_FLAG_START_APP = false ->
    counted_restarts p <= MAX_NUM_RESTARTS ->
    snd (on_depth st p) = Some (IntentEvent StartIntent)
    /\ event_trace q = event_trace p +:+ EVENT_FLAG_START_APP)
  /\ (endswith (event_trace p) EVENT_FLAG_START_APP = false ->
    MAX_NUM_RESTARTS < counted_restarts p ->
    snd (on_depth st p) = None /\ random_explore q = true).
Proof.
  intros Hd. unfold on_depth, counted_restarts.
  apply Z.ltb_lt in Hd. rewrite Hd.
  set (p0 := if bool_decide _ then _ else p).
  assert (Ht : event_trace p0 = event_trace p)
    by (subst p0; destruct (bool_decide _); reflexivity).
  assert (Hn : num_restarts p0 = num_restarts p)
    by (subst p0; destruct (bool_decide _); reflexivity).
  clearbody p0. rewrite Ht, Hn.
  destruct (endswith (event_trace p) (_ +:+ _) || endswith (event_trace p) _);
    cbn [event_trace set_num_restarts num_restarts]; rewrite Ht;
    destruct (endswith (event_trace p) EVENT_FLAG_START_APP); cbn [negb].
  - repeat split; discriminate.
  - split; [destruct (_ >? _); reflexivity|].
    split; intros _ Hc.
    + assert ((num_restarts p + 1 >? MAX_NUM_RESTARTS) = false) as -> by lia.
      cbn. now rewrite Ht.
    + assert ((num_restarts p + 1 >? MAX_NUM_RESTARTS) = true) as -> by lia.
      split; reflexivity.
  - repeat split; discriminate.
  - split; [reflexivity|].
    split; intros _ Hc.
    + cbn. now rewrite Ht.
    + unfold MAX_NUM_RESTARTS in Hc. lia.
Qed.

(** What the greedy policy does with a state in which the app is not
    running. *)
Lemma greedy_restart
  (cfg : Config) (utg : UTG) (st : DeviceState) (p : Policy) :
  app_activity_depth st < 0 ->
  let p' := fst (generate_event_based_on_utg cfg utg st p) in
  let r := snd (generate_event_based_on_utg cfg utg st p) in
  num_restarts p' = counted_restarts p
  /\ (endswith (event_trace p) EVENT_FLAG_START_APP = false ->
    counted_restarts p <= MAX_NUM_RESTARTS ->
    r = Ret (IntentEvent StartIntent)
    /\ event_trace p' = event_trace p +:+ EVENT_FLAG_START_APP)
  /\ (endswith (event_trace p) EVENT_FLAG_START_APP = false ->
    MAX_NUM_RESTARTS < counted_restarts p ->
    random_explore p' = true)
  /\ (forall e, r = Raise e -> Loop.is_interrupt e = false)
  /\ (forall calls,
      random_explore p' = true ->
      random_explore (fst (run calls p')) = true
      /\ forall e, Raise e ∈ snd (run calls p') -> Loop.is_interrupt e = false).
Proof.
  intros Hd p' r.
  destruct (on_depth_not_running st p Hd) as (Hn & Hstart & Hrand).
  subst p' r. unfold generate_event_based_on_utg.
  destruct (on_depth st p) as [q [ev|]] eqn:Od; cbn [fst snd] in *.
  - refine (conj Hn (conj _ (conj _ (conj _ _)))).
    + intros Hs Hc. destruct (Hstart Hs Hc) as [Hev Htr].
      injection Hev as ->. now split.
    + intros Hs Hc. now destruct (Hrand Hs Hc).
    + discriminate.
    + intros calls Hre. split; [now apply greedy_run_random_explore|].
      intros e. apply greedy_run_no_interrupt.
  - destruct (select_event_counters cfg utg st q) as (Hr & _ & Hx).
    refine (conj _ (conj _ (conj _ (conj _ _)))).
    + congruence.
    + intros Hs Hc. now destruct (Hstart Hs Hc).
    + intros Hs Hc. rewrite Hx. now destruct (Hrand Hs Hc).
    + intros e He. eapply list_error_not_interrupt, select_event_raise; eauto.
    + intros calls Hre. split; [now apply greedy_run_random_explore|].
      intros e. apply greedy_run_no_interrupt.
Qed.

End Restart.

(** The body of the naive policy's [generate_event_based_on_utg] with the
    app not in the foreground: it gives up once the flag holds more than
    MAX_NUM_RESTARTS start flags, and otherwise sends the start intent unless
    the flag ends with the start flag. *)
Lemma naive_restart (cfg : Config) (st : DeviceState) (p : Naive.Policy) :
  is_foreground cfg = false ->
  let starts :=
    Z.of_nat (PyStr.count (Naive.last_event_flag p) EVENT_FLAG_START_APP) in
  let r := Naive.generate_event_based_on_utg cfg st p in
  (MAX_NUM_RESTARTS < starts ->
   snd r = Raise (InputInterruptedException "The app cannot be started."))
  /\ (starts <= MAX_NUM_RESTARTS ->
      PyStr.endswith (Naive.last_event_flag p) EVENT_FLAG_START_APP = false ->
      snd r = Ret (IntentEvent StartIntent)
      /\ Naive.last_event_flag (fst r)
         = Naive.last_event_flag p +:+ EVENT_FLAG_START_APP).
Proof.
  intros Hf starts r. subst starts r. unfold Naive.generate_event_based_on_utg.
  rewrite Hf.
  set (p0 := Naive.save_state_transition _ _ _ _ p).
  assert (Naive.last_event_flag p0 = Naive.last_event_flag p) as ->.
  { subst p0. unfold Naive.save_state_transition.
    destruct (Naive.last_event_str p), (Naive.last_state p); try reflexivity.
    now destruct (is_different_from cfg _ _). }
  split.
  - intros H. now assert ((_ >? MAX_NUM_RESTARTS) = true) as -> by lia.
  - intros H E. assert ((_ >? MAX_NUM_RESTARTS) = false) as -> by lia.
    rewrite E. now split.
Qed.

(** The call in [generate_event] gives the naive policy's method an
    argument it does not declare: on a readable state, with no script, the
    call of [generate_event] ends in TypeError, whatever the body would do. *)
Lemma naive_call_is_TypeError {ScriptEvent ViewTree : Type}
  (view_tree : DeviceState -> ViewTree)
  (get_transformed_event : ScriptEvent -> Based.Policy -> Generated)
  (current : DeviceState) (humanoid : bool)
  (body : res (option DeviceState * Generated)) (p : Based.Policy) :
  Based.script p = None ->
  Based.script_events p = [] ->
  snd (Based.generate_event view_tree get_transformed_event (Some current)
         humanoid
         (Based.generate_event_based_on_utg Based.UtgNaiveSearchPolicy body) p)
  = Based.Raised (Based.Exn TypeError).
Proof.
  intros Hs He. unfold Based.generate_event.
  set (q := if humanoid then _ else _).
  assert (Based.script q = None /\ Based.script_events q = []) as [Q1 Q2]
    by (subst q; now destruct humanoid).
  clearbody q. rewrite Q2, lookup_nil. cbn. now rewrite Q1.
Qed.

(** C1, as amended: when the greedy policy sees the app not running it
    counts the restart; unless the start intent was the last event, it sends
    the start intent while the counter is at most MAX_NUM_RESTARTS and turns
    random exploration on once the counter exceeds it; the call never raises
    an interrupt, and random exploration then stays on in every later call
    of the run, none of which raises an interrupt either.  The naive policy
    has no random mode: the body of its method, with the app not in the
    foreground, raises InputInterruptedException once the flag holds more
    than MAX_NUM_RESTARTS start flags and otherwise sends the start intent
    unless the flag ends with the start flag; and as [generate_event] calls
    it, the call ends in TypeError before that body runs. *)
Theorem restart_limit_by_policy :
  (forall (cfg : Config) (utg : UTG) (st : DeviceState) (p : Greedy.Policy),
      app_activity_depth st < 0 ->
      let p' := fst (Greedy.generate_event_based_on_utg cfg utg st p) in
      let r := snd (Greedy.generate_event_based_on_utg cfg utg st p) in
      Greedy.num_restarts p' = Greedy.counted_restarts p
      /\ (PyStr.endswith (Greedy.event_trace p) EVENT_FLAG_START_APP = false ->
          Greedy.counted_restarts p <= MAX_NUM_RESTARTS ->
          r = Ret (IntentEvent StartIntent)
          /\ Greedy.event_trace p'
             = Greedy.event_trace p +:+ EVENT_FLAG_START_APP)
      /\ (PyStr.endswith (Greedy.event_trace p) EVENT_FLAG_START_APP = false ->
          MAX_NUM_RESTARTS < Greedy.counted_restarts p ->
          Greedy.random_explore p' = true)
      /\ (forall e, r = Raise e -> Loop.is_interrupt e = false)
      /\ (forall calls,
            Greedy.random_explore p' = true ->
            Greedy.random_explore (fst (Greedy.run calls p')) = true
            /\ forall e, Raise e ∈ snd (Greedy.run calls p') ->
                         Loop.is_interrupt e = false))
  /\ (forall (cfg : Config) (st : DeviceState) (p : Naive.Policy),
        is_foreground cfg = false ->
        let starts :=
          Z.of_nat (PyStr.count (Naive.last_event_flag p) EVENT_FLAG_START_APP) in
        let r := Naive.generate_event_based_on_utg cfg st p in
        (MAX_NUM_RESTARTS < starts ->
         snd r = Raise (InputInterruptedException "The app cannot be started."))
        /\ (starts <= MAX_NUM_RESTARTS ->
            PyStr.endswith (Naive.last_event_flag p) EVENT_FLAG_START_APP = false ->
            snd r = Ret (IntentEvent StartIntent)
            /\ Naive.last_event_flag (fst r)
               = Naive.last_event_flag p +:+ EVENT_FLAG_START_APP))
  /\ (forall (ScriptEvent ViewTree : Type)
        (view_tree : DeviceState -> ViewTree)
        (get_transformed_event : ScriptEvent -> Based.Policy -> Generated)
        (current : DeviceState) (humanoid : bool)
        (body : res (option DeviceState * Generated)) (p : Based.Policy),
        Based.script p = None ->
        Based.script_events p = [] ->
        snd (Based.generate_event view_tree get_transformed_event (Some current)
               humanoid
               (Based.generate_event_based_on_utg Based.UtgNaiveSearchPolicy body)
               p)
        = Based.Raised (Based.Exn TypeError)).
Proof.
  split; [|split].
  - exact greedy_restart.
  - exact naive_restart.
  - intros ScriptEvent ViewTree. exact naive_call_is_TypeError.
Qed.

(** The greedy policy after six polls that all saw the app not running, with
    nothing left to explore: the start intent was sent three times. *)
Lemma greedy_six_polls :
  let p6 := fst (Greedy.run (replicate 6 (Scenario.greedy_cfg, Scenario.exhausted_utg,
                                          Scenario.stopped_app)) Greedy.init) in
  Greedy.num_restarts p6 = 5
  /\ Greedy.random_explore p6 = false
  /\ Greedy.event_trace p6
     = "+start_app+stop_app+start_app+stop_app+start_app+stop_app".
Proof. vm_compute. repeat split. Qed.

(** The seventh such poll turns random exploration on. *)
Lemma restart_limit_by_policy_witness :
  Greedy.random_explore
    (fst (Greedy.generate_event_based_on_utg
            Scenario.greedy_cfg Scenario.exhausted_utg Scenario.stopped_app
            (Greedy.mkPolicy None (-1) 5 0
               "+start_app+stop_app+start_app+stop_app+start_app+stop_app"
               ∅ false))) = true.
Proof.
  apply (proj1 restart_limit_by_policy
           Scenario.greedy_cfg Scenario.exhausted_utg Scenario.stopped_app);
    [reflexivity | reflexivity | reflexivity].
Defined.

(** C1 as stated fails for the naive policy.  Its method, called twelve
    times with the app never in the foreground, raises
    InputInterruptedException at the twelfth call: there is no random mode
    to switch to.  And in a run the method is not even entered: the call
    that [generate_event] makes on the state in which the app is not running
    ends in TypeError, so no start intent is sent. *)
Lemma naive_has_no_random_fallback :
  snd (Naive.run (replicate 12 (Scenario.naive_cfg, Scenario.stopped_app)) Naive.init)
    !! 11%nat
  = Some (Raise (InputInterruptedException "The app cannot be started."))
  /\ (forall body,
        snd (Based.generate_event state_str Scenario.transformed_none
               (Some Scenario.stopped_app) false
               (Based.generate_event_based_on_utg Based.UtgNaiveSearchPolicy body)
               Scenario.unscripted)
        = Based.Raised (Based.Exn TypeError)).
Proof. split; [vm_compute; reflexivity | intros body; reflexivity]. Qed.


(** ** Steps outside the app (C2) *)

Section Outside.
Import PyStr.

Lemma thresholds_equal : MAX_NUM_STEPS_OUTSIDE_KILL = MAX_NUM_STEPS_OUTSIDE.
Proof. reflexivity. Qed.

Lemma greedy_on_depth_outside st p :
  app_activity_depth st > 0 ->
  Greedy.num_steps_outside (fst (Greedy.on_depth st p)) = Greedy.num_steps_outside p + 1
  /\ snd (Greedy.on_depth st p) =
   if Greedy.num_steps_outside p + 1 >? MAX_NUM_STEPS_OUTSIDE
   then Some (IntentEvent StopIntent) else None.
Proof.
  intros Hd. unfold Greedy.on_depth.
  assert ((app_activity_depth st <? 0) = false) as -> by lia.
  assert ((app_activity_depth st >? 0) = true) as -> by lia.
  destruct (bool_decide _); cbn [Greedy.num_steps_outside Greedy.set_num_steps_outside
                               Greedy.set_missed_states];
  unfold MAX_NUM_STEPS_OUTSIDE_KILL, MAX_NUM_STEPS_OUTSIDE;
  destruct (Greedy.num_steps_outside p + 1 >? 1000); split; reflexivity.
Qed.

Lemma task_on_depth_outside app_name task st p :
  app_activity_depth st > 0 ->
  Task.num_steps_outside (fst (Task.on_depth app_name task st p))
  = Task.num_steps_outside p + 1
  /\ snd (Task.on_depth app_name task st p) =
   if Task.num_steps_outside p + 1 >? MAX_NUM_STEPS_OUTSIDE
   then Some (IntentEvent StopIntent) else None.
Proof.
  intros Hd. unfold Task.on_depth.
  assert ((app_activity_depth st <? 0) = false) as -> by lia.
  assert ((app_activity_depth st >? 0) = true) as -> by lia.
  destruct (bool_decide _); cbn [Task.num_steps_outside Task.set_num_steps_outside
    Task.set_missed_states];
    unfold MAX_NUM_STEPS_OUTSIDE_KILL, MAX_NUM_STEPS_OUTSIDE;
    destruct (Task.num_steps_outside p + 1 >? 1000); split; reflexivity.
Qed.

(** C2: with the app in the background both policies add one to the
    outside counter, and as soon as the counter exceeds MAX_NUM_STEPS_OUTSIDE
    the event returned is the stop intent: the two thresholds are equal, so
    no counter value makes the branch return BACK. *)
Theorem outside_branch_never_returns_back
  (app_name : string) (task : option string) (st : DeviceState)
  (g : Greedy.Policy) (t : Task.Policy) :
  app_activity_depth st > 0 ->
  Greedy.num_steps_outside (fst (Greedy.on_depth st g)) = Greedy.num_steps_outside g + 1
  /\ Task.num_steps_outside (fst (Task.on_depth app_name task st t))
   = Task.num_steps_outside t + 1
  /\ snd (Greedy.on_depth st g) <> Some BACK
  /\ snd (Task.on_depth app_name task st t) <> Some BACK
  /\ (Greedy.num_steps_outside g + 1 > MAX_NUM_STEPS_OUTSIDE ->
    snd (Greedy.on_depth st g) = Some (IntentEvent StopIntent))
  /\ (Task.num_steps_outside t + 1 > MAX_NUM_STEPS_OUTSIDE ->
    snd (Task.on_depth app_name task st t) = Some (IntentEvent StopIntent)).
Proof.
  intros Hd.
  destruct (greedy_on_depth_outside st g Hd) as [Hg1 Hg2].
  destruct (task_on_depth_outside app_name task st t Hd) as [Ht1 Ht2].
  rewrite Hg2, Ht2.
  refine (conj Hg1 (conj Ht1 (conj _ (conj _ (conj _ _))))).
  - destruct (Greedy.num_steps_outside g + 1 >? MAX_NUM_STEPS_OUTSIDE); discriminate.
  - destruct (Task.num_steps_outside t + 1 >? MAX_NUM_STEPS_OUTSIDE); discriminate.
  - intros H.
    now assert ((Greedy.num_steps_outside g + 1 >? MAX_NUM_STEPS_OUTSIDE) = true)
      as -> by lia.
  - intros H.
    now assert ((Task.num_steps_outside t + 1 >? MAX_NUM_STEPS_OUTSIDE) = true)
      as -> by lia.
Qed.

End Outside.

(** The first step past the threshold: the counter goes from 1000 to 1001 and
    the greedy policy force-stops the app. *)
Lemma outside_branch_never_returns_back_witness :
  snd (Greedy.on_depth Scenario.backgrounded_app
         (Greedy.mkPolicy None (-1) 0 1000 "" ∅ false))
  = Some (IntentEvent StopIntent).
Proof.
  apply (outside_branch_never_returns_back "app" None Scenario.backgrounded_app
    (Greedy.mkPolicy None (-1) 0 1000 "" ∅ false) (Task.init false));
    reflexivity.
Defined.


(** ** Unexplored events first (C4) *)

Section ExploreFirst.
Import Greedy.

Lemma find_first {A} (f : A -> bool) (l : list A) (x : A) :
  List.find f l = Some x ->
  exists pre post, l = pre ++ x :: post /\ f x = true
                 /\ forall y, y ∈ pre -> f y = false.
Proof.
  induction l as [|a l IH]; simpl; [discriminate|].
  destruct (f a) eqn:Fa.
  - intros H. injection H as ->. exists [], l. repeat split; auto.
    intros y Hy. inversion Hy.
  - intros H. destruct (IH H) as (pre & post & -> & Fx & Hpre).
    exists (a :: pre), post. repeat split; auto.
    intros y Hy. apply elem_of_cons in Hy as [->|Hy]; auto.
Qed.

Lemma find_exists {A} (f : A -> bool) (l : list A) (x : A) :
  x ∈ l -> f x = true -> exists y, List.find f l = Some y.
Proof.
  induction l as [|a l IH]; intros Hin Fx; [inversion Hin|].
  simpl. destruct (f a) eqn:Fa; [eauto|].
  apply elem_of_cons in Hin as [->|Hin]; [congruence|auto].
Qed.

Lemma find_pointwise {A} (f g : A -> bool) (l : list A) :
  (forall x, f x = g x) -> List.find f l = List.find g l.
Proof.
  intros E. induction l as [|a l IH]; simpl; [reflexivity|].
  rewrite E, IH. reflexivity.
Qed.

Lemma on_depth_foreground st p :
  app_activity_depth st = 0 ->
  snd (on_depth st p) = None
  /\ nav_target (fst (on_depth st p)) = nav_target p
  /\ nav_num_steps (fst (on_depth st p)) = nav_num_steps p
  /\ event_trace (fst (on_depth st p)) = event_trace p
  /\ num_steps_outside (fst (on_depth st p)) = 0.
Proof.
  intros Hd. unfold on_depth. rewrite Hd. cbn.
  destruct (bool_decide _); repeat split.
Qed.

Lemma candidate_events_utg cfg utg utg' st :
  is_state_reached utg' st = is_state_reached utg st ->
  candidate_events cfg utg' st = candidate_events cfg utg st.
Proof.
  intros E. unfold candidate_events, sort_inputs_by_humanoid. now rewrite E.
Qed.

(** Without a humanoid service the candidates hold every offered event, as
    long as shuffling only permutes. *)
Lemma candidates_keep_offered_events cfg utg st :
  humanoid cfg = None ->
  (forall l, shuffle_events (rnd cfg) l ≡ₚ l) ->
  exists cands,
    candidate_events cfg utg st = Ret cands
    /\ forall e, e ∈ possible_input st -> e ∈ cands.
Proof.
  intros Hh Hperm. unfold candidate_events. rewrite Hh.
  eexists. split; [reflexivity|]. intros e He.
  assert (e ∈ (if random_input cfg then shuffle_events (rnd cfg) (possible_input st)
    else possible_input st)) as He'
    by (destruct (random_input cfg); [now rewrite Hperm|exact He]).
  destruct (search_method cfg); try exact He'.
  - apply elem_of_app. now left.
  - now right.
Qed.

Lemma find_app {A} (f : A -> bool) (l1 l2 : list A) :
  List.find f (l1 ++ l2)
  = match List.find f l1 with Some x => Some x | None => List.find f l2 end.
Proof.
  induction l1 as [|a l1 IH]; [reflexivity|]. cbn. now destruct (f a).
Qed.

Lemma find_in {A} (f : A -> bool) (l : list A) (x : A) :
  List.find f l = Some x -> x ∈ l /\ f x = true.
Proof.
  intros H. apply find_some in H as [Hin Hf]. split; [|exact Hf].
  now apply list_elem_of_In.
Qed.

(** The call on a foreground state whose candidates hold an unexplored
    event. *)
Lemma select_unexplored cfg utg st p cands e :
  app_activity_depth st = 0 ->
  candidate_events cfg utg st = Ret cands ->
  List.find (fun x => negb (is_event_explored utg x st)) cands = Some e ->
  generate_event_based_on_utg cfg utg st p
  = (add_trace EVENT_FLAG_EXPLORE (fst (on_depth st p)), Ret e).
Proof.
  intros Hd Hc He.
  destruct (on_depth_foreground st p Hd) as (Hnone & _).
  unfold generate_event_based_on_utg.
  destruct (on_depth st p) as [q o]; cbn [fst snd] in *. subst o.
  unfold select_event. now rewrite Hc, He.
Qed.

(** C4, as amended: with the app in the foreground, when one of the
    candidate events is unexplored, the greedy policy returns the first
    unexplored candidate, records the explore flag, leaves its navigation
    target alone and gives the same answer whatever the UTG says about
    reachability and paths.  Without a humanoid service the candidates are
    the offered events with BACK last under DFS and first under BFS; so,
    when shuffling only reorders, an unexplored offered event makes the
    policy return an unexplored event that is BACK under BFS when BACK is
    unexplored, and an offered event in every other case. *)
Theorem greedy_returns_first_unexplored_candidate
  (cfg : Config) (utg : UTG) (st : DeviceState) (p : Policy)
  (cands : list InputEvent) :
  app_activity_depth st = 0 ->
  candidate_events cfg utg st = Ret cands ->
  (forall e0,
      e0 ∈ cands -> is_event_explored utg e0 st = false ->
      exists e pre post,
        generate_event_based_on_utg cfg utg st p
        = (add_trace EVENT_FLAG_EXPLORE (fst (on_depth st p)), Ret e)
        /\ cands = pre ++ e :: post
        /\ is_event_explored utg e st = false
        /\ (forall x, x ∈ pre -> is_event_explored utg x st = true)
        /\ nav_target (fst (generate_event_based_on_utg cfg utg st p))
           = nav_target p
        /\ nav_num_steps (fst (generate_event_based_on_utg cfg utg st p))
           = nav_num_steps p
        /\ (forall utg',
              (forall x, is_event_explored utg' x st = is_event_explored utg x st) ->
              is_state_reached utg' st = is_state_reached utg st ->
              generate_event_based_on_utg cfg utg' st p
              = generate_event_based_on_utg cfg utg st p))
  /\ (humanoid cfg = None ->
      let offered := if random_input cfg
                     then shuffle_events (rnd cfg) (possible_input st)
                     else possible_input st in
      (search_method cfg = POLICY_GREEDY_DFS -> cands = offered ++ [BACK])
      /\ (search_method cfg = POLICY_GREEDY_BFS -> cands = BACK :: offered))
  /\ (humanoid cfg = None ->
      (forall l, shuffle_events (rnd cfg) l ≡ₚ l) ->
      forall e0,
        e0 ∈ possible_input st -> is_event_explored utg e0 st = false ->
        exists e,
          snd (generate_event_based_on_utg cfg utg st p) = Ret e
          /\ is_event_explored utg e st = false
          /\ (search_method cfg = POLICY_GREEDY_BFS ->
              is_event_explored utg BACK st = false -> e = BACK)
          /\ (search_method cfg <> POLICY_GREEDY_BFS
              \/ is_event_explored utg BACK st = true ->
              e ∈ possible_input st)).
Proof.
  intros Hd Hc.
  destruct (on_depth_foreground st p Hd) as (Hnone & Hnt & Hns & _ & _).
  split; [|split].
  - intros e0 Hin Hun.
    destruct (find_exists (fun x => negb (is_event_explored utg x st)) cands e0)
      as [e He]; [auto|now rewrite Hun|].
    destruct (find_first _ _ _ He) as (pre & post & Hsplit & Hfe & Hpre).
    pose proof (select_unexplored cfg utg st p cands e Hd Hc He) as Hgen.
    exists e, pre, post.
    refine (conj Hgen (conj Hsplit (conj _ (conj _ (conj _ (conj _ _)))))).
    + now apply negb_true_iff in Hfe.
    + intros x Hx. specialize (Hpre x Hx). now apply negb_false_iff in Hpre.
    + rewrite Hgen. exact Hnt.
    + rewrite Hgen. exact Hns.
    + intros utg' Hex Hre. rewrite Hgen.
      apply (select_unexplored cfg utg' st p cands e); [exact Hd| |].
      * now rewrite (candidate_events_utg cfg utg utg' st Hre).
      * rewrite (find_pointwise _ (fun x => negb (is_event_explored utg x st)));
          [exact He|].
        intros x. now rewrite Hex.
  - intros Hh offered. unfold candidate_events in Hc. rewrite Hh in Hc.
    fold offered in Hc. split; intros Hm; rewrite Hm in Hc; now injection Hc as <-.
  - intros Hh Hperm e0 Hin Hun.
    unfold candidate_events in Hc. rewrite Hh in Hc.
    set (offered := if random_input cfg
                    then shuffle_events (rnd cfg) (possible_input st)
                    else possible_input st) in Hc.
    assert (forall x, x ∈ offered <-> x ∈ possible_input st) as Hoff.
    { intros x. subst offered. destruct (random_input cfg); [|reflexivity].
      now rewrite Hperm. }
    set (f := fun x => negb (is_event_explored utg x st)).
    destruct (find_exists f offered e0) as [e1 He1];
      [now apply Hoff | subst f; cbn; now rewrite Hun |].
    destruct (find_in f offered e1 He1) as [Hin1 Hf1].
    apply Hoff in Hin1. apply negb_true_iff in Hf1.
    assert (forall e, List.find f cands = Some e ->
              snd (generate_event_based_on_utg cfg utg st p) = Ret e) as Hret.
    { intros e He.
      rewrite (select_unexplored cfg utg st p cands e Hd); [reflexivity| |exact He].
      unfold candidate_events. rewrite Hh. exact Hc. }
    destruct (search_method cfg) eqn:Hm; injection Hc as <-;
      try (exists e1; split; [now apply Hret|]; split; [exact Hf1|];
           split; [discriminate | now intros _]).
    + exists e1. split; [apply Hret; now rewrite find_app, He1|].
      split; [exact Hf1|]. split; [discriminate | now intros _].
    + assert (List.find f (KeyEvent "BACK" :: offered)
              = if is_event_explored utg BACK st then Some e1 else Some BACK)
        as Hfind.
      { cbn [List.find]. unfold f at 1. unfold BACK.
        now destruct (is_event_explored utg (KeyEvent "BACK") st). }
      destruct (is_event_explored utg BACK st) eqn:Hb.
      * exists e1. split; [now apply Hret|].
        split; [exact Hf1|]. split; [discriminate | now intros _].
      * exists BACK. split; [now apply Hret|].
        split; [exact Hb|]. split; [reflexivity|].
        intros [N|N]; [now contradiction N | discriminate].
Qed.

End ExploreFirst.

(** On the home screen the tap on OK is unexplored: it is chosen before BACK. *)
Lemma greedy_returns_first_unexplored_candidate_witness :
  exists e pre post,
    Greedy.generate_event_based_on_utg Scenario.greedy_cfg Scenario.fresh_utg
      Scenario.home_screen Greedy.init
    = (Greedy.add_trace EVENT_FLAG_EXPLORE
         (fst (Greedy.on_depth Scenario.home_screen Greedy.init)), Ret e)
    /\ [TouchEvent Scenario.ok_button; BACK] = pre ++ e :: post
    /\ is_event_explored Scenario.fresh_utg e Scenario.home_screen = false.
Proof.
  destruct (proj1 (greedy_returns_first_unexplored_candidate Scenario.greedy_cfg
                     Scenario.fresh_utg Scenario.home_screen Greedy.init
                     [TouchEvent Scenario.ok_button; BACK] eq_refl eq_refl)
                  (TouchEvent Scenario.ok_button))
    as (e & pre & post & H1 & H2 & H3 & _).
  - left.
  - reflexivity.
  - exists e, pre, post. auto.
Defined.

(** C4 as stated fails in two ways, both on the home screen, whose one
    offered event, the tap on OK, is unexplored.  Under BFS with nothing
    explored the policy returns BACK, which is not an offered event.  With
    a humanoid service that names index 1 only, the candidates are BACK
    alone, which is explored, and the policy navigates with MENU. *)
Lemma unexplored_offered_event_passed_over :
  possible_input Scenario.home_screen = [TouchEvent Scenario.ok_button]
  /\ app_activity_depth Scenario.home_screen = 0
  /\ is_event_explored Scenario.blank_utg (TouchEvent Scenario.ok_button)
       Scenario.home_screen = false
  /\ snd (Greedy.generate_event_based_on_utg Scenario.greedy_bfs_cfg
            Scenario.blank_utg Scenario.home_screen Greedy.init) = Ret BACK
  /\ is_event_explored Scenario.menu_utg (TouchEvent Scenario.ok_button)
       Scenario.home_screen = false
  /\ Greedy.candidate_events Scenario.ranked_cfg Scenario.menu_utg
       Scenario.home_screen = Ret [BACK]
  /\ snd (Greedy.generate_event_based_on_utg Scenario.ranked_cfg
            Scenario.menu_utg Scenario.home_screen Greedy.init)
     = Ret (KeyEvent "MENU")
  /\ Greedy.event_trace
       (fst (Greedy.generate_event_based_on_utg Scenario.ranked_cfg
               Scenario.menu_utg Scenario.home_screen Greedy.init))
     = EVENT_FLAG_NAVIGATE.
Proof. repeat split. Qed.


(** ** The navigation target (C5) *)

Section NavTarget.
Import Greedy.
Variables (cfg : Config) (utg : UTG) (current_state : DeviceState).

Lemma scan_targets_chosen states p :
  chosen_among utg current_state states p (fst (scan_targets utg current_state states p))
             (snd (scan_targets utg current_state states p)).
Proof.
  revert p. induction states as [|s rest IH]; intros p.
  - cbn. repeat split. intros s Hs. inversion Hs.
  - assert (Hskip : ~ eligible utg current_state (missed_states p) s ->
      forall q, missed_states q = missed_states p ->
      chosen_among utg current_state (s :: rest) p
      (fst (scan_targets utg current_state rest q))
      (snd (scan_targets utg current_state rest q))).
    { intros Hne q Hq. specialize (IH q). unfold chosen_among in *.
      rewrite Hq in IH. destruct IH as [Hm Hr]. split; [assumption|].
      destruct (snd (scan_targets utg current_state rest q)) as [t|].
      - destruct Hr as (Hin & He & Hr).
        split; [now right|]. split; [exact He|exact Hr].
      - destruct Hr as (Hn1 & Hn2 & Hnone).
        split; [exact Hn1|]. split; [exact Hn2|].
        intros t Ht. apply elem_of_cons in Ht as [->|Ht]; auto. }
    cbn [scan_targets].
    destruct (app_activity_depth s =? 0) eqn:Ed; cbn [negb];
      [apply Z.eqb_eq in Ed|apply Z.eqb_neq in Ed;
      apply Hskip; [unfold eligible; tauto|reflexivity]].
    destruct (bool_decide (state_str s ∈ missed_states p)) eqn:Em;
      [apply bool_decide_eq_true in Em; apply Hskip;
      [unfold eligible; tauto|reflexivity]|apply bool_decide_eq_false in Em].
    destruct (is_state_explored utg s) eqn:Ex;
      [apply Hskip; [unfold eligible; intros (_ & _ & H & _); congruence
      |reflexivity]|].
    destruct (0 <? Z.of_nat (length (get_navigation_steps utg current_state s)))
      eqn:El.
    + apply Z.ltb_lt in El. cbn.
      split; [reflexivity|]. split; [left|].
      split; [|split; reflexivity].
      unfold eligible. repeat split; auto. lia.
    + apply Z.ltb_ge in El. apply Hskip; [|reflexivity].
      unfold eligible. intros (_ & _ & _ & H). lia.
Qed.

(** C5: after a navigation step, the target is kept when the path to it is
    not empty and not longer than recorded, and the recorded length is
    updated; otherwise its identity joins the missed set and the new target
    is a reachable, foreground, not missed, not fully explored state with a
    path to it (or none, when no reachable state qualifies). *)
Theorem nav_target_kept_or_missed (p : Policy) (target : DeviceState) :
  nav_target p = Some target ->
  PyStr.endswith (event_trace p) EVENT_FLAG_NAVIGATE = true ->
  (forall l, shuffle_states (rnd cfg) l ≡ₚ l) ->
  let n := Z.of_nat (length (get_navigation_steps utg current_state target)) in
  let p' := fst (get_nav_target cfg utg current_state p) in
  let r := snd (get_nav_target cfg utg current_state p) in
  (0 < n <= nav_num_steps p ->
   r = Some target /\ p' = set_nav_num_steps n p)
  /\ (~ (0 < n <= nav_num_steps p) ->
    missed_states p' = {[ state_str target ]} ∪ missed_states p
    /\ match r with
       | Some s =>
           s ∈ get_reachable_states utg current_state
           /\ eligible utg current_state (missed_states p') s
           /\ nav_target p' = Some s
           /\ nav_num_steps p'
              = Z.of_nat (length (get_navigation_steps utg current_state s))
       | None =>
           nav_target p' = None /\ nav_num_steps p' = -1
           /\ forall s, s ∈ get_reachable_states utg current_state ->
                        ~ eligible utg current_state (missed_states p') s
       end).
Proof.
  intros Ht He Hperm n p' r. subst p' r. unfold get_nav_target.
  rewrite Ht, He. fold n. split.
  - intros [H1 H2].
    assert (((0 <? n) && (n <=? nav_num_steps p)) = true) as ->
      by (apply andb_true_iff; split; lia).
    split; reflexivity.
  - intros Hno.
    assert (((0 <? n) && (n <=? nav_num_steps p)) = false) as ->.
    { apply andb_false_iff. destruct (Z.ltb_spec 0 n); [right|left; reflexivity].
      apply Z.leb_gt. lia. }
    set (q := set_missed_states _ p).
    set (states := if random_input cfg then _ else _).
    assert (Hst : forall s, s ∈ states <-> s ∈ get_reachable_states utg current_state).
    { intros s. subst states. destruct (random_input cfg); [|tauto].
      now rewrite Hperm. }
    pose proof (scan_targets_chosen states q) as [Hm Hr].
    rewrite Hm. split; [reflexivity|].
    destruct (snd (scan_targets utg current_state states q)) as [s|].
    + destruct Hr as (Hin & Hel & Hr). split; [now apply Hst|tauto].
    + destruct Hr as (H1 & H2 & Hnone).
      split; [exact H1|]. split; [exact H2|].
      intros s Hs. apply Hnone. now apply Hst.
Qed.

End NavTarget.

(** The settings screen was two steps away and is now one step away: it stays
    the target and the recorded distance drops to 1. *)
Lemma nav_target_kept_or_missed_witness :
  snd (Greedy.get_nav_target Scenario.greedy_cfg Scenario.routed_utg
         Scenario.home_screen
         (Greedy.mkPolicy (Some Scenario.settings_screen) 2 0 0 "+navigate" ∅ false))
  = Some Scenario.settings_screen
  /\ fst (Greedy.get_nav_target Scenario.greedy_cfg Scenario.routed_utg
            Scenario.home_screen
            (Greedy.mkPolicy (Some Scenario.settings_screen) 2 0 0 "+navigate" ∅ false))
     = Greedy.mkPolicy (Some Scenario.settings_screen) 1 0 0 "+navigate" ∅ false.
Proof.
  apply (nav_target_kept_or_missed Scenario.greedy_cfg Scenario.routed_utg
    Scenario.home_screen
    (Greedy.mkPolicy (Some Scenario.settings_screen) 2 0 0 "+navigate" ∅ false)
    Scenario.settings_screen).
  - reflexivity.
  - reflexivity.
  - intros l. reflexivity.
  - cbn. lia.
Defined.


(** ** Replay (C9) *)

Section ReplayFacts.
Import Replay.
Variables (device : nat -> Poll) (app : App).

Lemma tries_fuel (f1 f2 : nat) (p : Policy) (k : nat) :
  (Z.to_nat (MAX_REPLY_TRIES - num_replay_tries p) <= f1)%nat ->
  (Z.to_nat (MAX_REPLY_TRIES - num_replay_tries p) <= f2)%nat ->
  tries f1 device app p k = tries f2 device app p k.
Proof.
  revert f2 p k. induction f1 as [|f1 IH]; intros f2 p k H1 H2.
  - destruct f2 as [|f2]; [reflexivity|]. cbn [tries].
    assert ((num_replay_tries p <? MAX_REPLY_TRIES) = false) as -> by lia.
    now rewrite andb_false_r.
  - destruct f2 as [|f2]; cbn [tries].
    + assert ((num_replay_tries p <? MAX_REPLY_TRIES) = false) as -> by lia.
      now rewrite andb_false_r.
    + destruct ((event_idx p <? length (event_paths p))%nat) ; [|reflexivity].
      destruct (num_replay_tries p <? MAX_REPLY_TRIES) eqn:Lt; [|reflexivity].
      cbn [andb]. apply Z.ltb_lt in Lt.
      destruct (current_state (device k)); [|reflexivity].
      destruct (first_match _ _ _) as [[j ed]|]; [reflexivity|].
      apply IH; cbn [num_replay_tries set_tries]; lia.
Qed.

(** More fuel does not change [generate_event]: the loop is total. *)
Lemma generate_event_fuel (fuel : nat) (p : Policy) (k : nat) :
  (Z.to_nat (MAX_REPLY_TRIES - num_replay_tries p) <= fuel)%nat ->
  tries fuel device app p k = generate_event device app p k.
Proof. intros H. unfold generate_event. now apply tries_fuel. Qed.

(** What [first_match] finds: the entry just before the returned index is
    loadable and recorded in the given state, and no entry between the
    cursor and it is. *)
Lemma first_match_spec state entries idx j ed :
  first_match state entries idx = Some (j, ed) ->
  exists n,
  j = S (idx + n)
  /\ entries !! n = Some (Some ed)
  /\ start_state ed = state
  /\ forall i ed', (i < n)%nat -> entries !! i = Some (Some ed') ->
                   start_state ed' <> state.
Proof.
  revert idx. induction entries as [|entry rest IH]; intros idx; cbn [first_match];
  [discriminate|].
  assert (Hrec : first_match state rest (S idx) = Some (j, ed) ->
               (forall ed', entry = Some ed' -> start_state ed' <> state) ->
               exists n, j = S (idx + n) /\ (entry :: rest) !! n = Some (Some ed)
                 /\ start_state ed = state
                 /\ forall i ed', (i < n)%nat ->
                      (entry :: rest) !! i = Some (Some ed') ->
                      start_state ed' <> state).
  { intros H Hentry. destruct (IH _ H) as (n & -> & Hl & Hs & Hbefore).
  exists (S n). split; [lia|]. split; [exact Hl|]. split; [exact Hs|].
  intros [|i] ed' Hi Hl'.
  - cbn in Hl'. injection Hl' as Hl'. now apply Hentry.
  - cbn in Hl'. apply (Hbefore i); [lia|assumption]. }
  destruct entry as [event_dict|].
  - destruct (String.eqb (start_state event_dict) state) eqn:E.
  + intros H. injection H as <- <-. apply String.eqb_eq in E.
    exists 0%nat. split; [lia|]. split; [reflexivity|]. split; [exact E|].
    intros i ed' Hi. lia.
  + intros H. apply Hrec; [exact H|].
    intros ed' Hed'. injection Hed' as <-. now apply String.eqb_neq in E.
  - intros H. apply Hrec; [exact H|]. discriminate.
Qed.

(** And the other way round: the first loadable entry recorded in the
    given state is what [first_match] finds. *)
Lemma first_match_first state entries idx n ed :
  entries !! n = Some (Some ed) ->
  start_state ed = state ->
  (forall i ed', (i < n)%nat -> entries !! i = Some (Some ed') ->
                 start_state ed' <> state) ->
  first_match state entries idx = Some (S (idx + n), ed).
Proof.
  revert idx n. induction entries as [|entry rest IH]; intros idx n Hl Hs Hb;
    [discriminate|].
  destruct n as [|n].
  - cbn in Hl. injection Hl as ->. cbn [first_match].
    apply String.eqb_eq in Hs. rewrite Hs. now rewrite Nat.add_0_r.
  - cbn in Hl. cbn [first_match].
    assert (Hnext : first_match state rest (S idx) = Some (S (idx + S n), ed)).
    { replace (idx + S n)%nat with (S idx + n)%nat by lia.
      apply IH; [exact Hl|exact Hs|].
      intros i ed' Hi Hl'. apply (Hb (S i) ed'); [lia|exact Hl']. }
    destruct entry as [event_dict|]; [|exact Hnext].
    destruct (String.eqb (start_state event_dict) state) eqn:E; [|exact Hnext].
    apply String.eqb_eq in E. exfalso. apply (Hb 0%nat event_dict); [lia|reflexivity|exact E].
Qed.

Lemma generate_event_match (p : Policy) (k : nat) (cs : DeviceState)
  (j : nat) (ed : EventDict) :
  (event_idx p < length (event_paths p))%nat ->
  num_replay_tries p < MAX_REPLY_TRIES ->
  current_state (device k) = Some cs ->
  first_match (state_str cs) (drop (event_idx p) (event_paths p)) (event_idx p)
  = Some (j, ed) ->
  generate_event device app p k
  = if foreground (device k)
  then (mkPolicy (event_paths p) j 0 (Some (event ed)) None, S k, Some (event ed))
  else (set_tries (num_replay_tries p + 1) p, S k,
        Some (IntentEvent (ComponentIntent (component app)))).
Proof.
  intros Hi Ht Hc Hm. unfold generate_event.
  destruct (Z.to_nat (MAX_REPLY_TRIES - num_replay_tries p)) as [|fuel] eqn:F; [lia|].
  cbn [tries].
  assert ((event_idx p <? length (event_paths p))%nat = true) as ->
    by now apply Nat.ltb_lt.
  assert ((num_replay_tries p <? MAX_REPLY_TRIES) = true) as -> by lia.
  cbn [andb event_idx event_paths set_tries]. rewrite Hc, Hm.
  now destruct (foreground (device k)).
Qed.

Lemma generate_event_exhausted (p : Policy) (k : nat) :
  (length (event_paths p) <= event_idx p)%nat ->
  generate_event device app p k = (p, k, None).
Proof.
  intros H. unfold generate_event.
  destruct (Z.to_nat _); [reflexivity|]. cbn [tries].
  assert ((event_idx p <? length (event_paths p))%nat = false) as ->
    by now apply Nat.ltb_ge.
  reflexivity.
Qed.

End ReplayFacts.

(** C9, as amended: a call that finds the device in a state for which a
    loadable record exists at or after the cursor replays the first such
    record and moves the cursor past it, or, with the app not in the
    foreground, returns the intent that brings it to the foreground and
    leaves the cursor alone.  The cursor starts at index 2: of a recording
    whose records from index 2 on are three events, with a device that shows
    their three start states in order, exactly these three events are
    replayed, and every later call returns no event without polling. *)
Theorem replay_from_cursor_two :
  (forall device app p k cs n ed,
      Replay.num_replay_tries p < MAX_REPLY_TRIES ->
      Replay.current_state (device k) = Some cs ->
      Replay.event_paths p !! (Replay.event_idx p + n)%nat = Some (Some ed) ->
      Replay.start_state ed = state_str cs ->
      (forall i ed', (i < n)%nat ->
         Replay.event_paths p !! (Replay.event_idx p + i)%nat = Some (Some ed') ->
         Replay.start_state ed' <> state_str cs) ->
      Replay.generate_event device app p k
      = (if Replay.foreground (device k)
         then (Replay.mkPolicy (Replay.event_paths p) (S (Replay.event_idx p + n)) 0
                               (Some (Replay.event ed)) None,
               S k, Some (Replay.event ed))
         else (Replay.set_tries (Replay.num_replay_tries p + 1) p, S k,
               Some (IntentEvent (ComponentIntent (Replay.component app))))))
  /\ (forall device app k x0 x1 r1 r2 r3 c1 c2 c3,
        Replay.current_state (device k) = Some c1 ->
        Replay.current_state (device (S k)) = Some c2 ->
        Replay.current_state (device (S (S k))) = Some c3 ->
        Replay.foreground (device k) = true ->
        Replay.foreground (device (S k)) = true ->
        Replay.foreground (device (S (S k))) = true ->
        state_str c1 = Replay.start_state r1 ->
        state_str c2 = Replay.start_state r2 ->
        state_str c3 = Replay.start_state r3 ->
        let paths := [x0; x1; Some r1; Some r2; Some r3] in
        Replay.run 3 device app (Replay.init paths) k
        = (Replay.mkPolicy paths 5 0 (Some (Replay.event r3)) None,
           S (S (S k)),
           [Some (Replay.event r1); Some (Replay.event r2); Some (Replay.event r3)])
        /\ forall k',
             Replay.generate_event device app
               (Replay.mkPolicy paths 5 0 (Some (Replay.event r3)) None) k'
             = (Replay.mkPolicy paths 5 0 (Some (Replay.event r3)) None, k', None)).
Proof.
  split.
  - intros device app p k cs n ed Ht Hc Hl Hs Hb.
    apply (generate_event_match device app p k cs); [|exact Ht|exact Hc|].
    + apply lookup_lt_Some in Hl. lia.
    + apply first_match_first; [now rewrite lookup_drop|exact Hs|].
      intros i ed' Hi Hl'. rewrite lookup_drop in Hl'. now apply (Hb i).
  - intros device app k x0 x1 r1 r2 r3 c1 c2 c3 H1 H2 H3 F1 F2 F3 S1 S2 S3 paths.
    split.
    + cbn [Replay.run].
      rewrite (generate_event_match device app (Replay.init paths) k c1 3 r1);
        [|cbn; lia|reflexivity|exact H1|cbn; rewrite S1, String.eqb_refl; reflexivity].
      rewrite F1.
      rewrite (generate_event_match device app _ (S k) c2 4 r2);
        [|cbn; lia|reflexivity|exact H2|cbn; rewrite S2, String.eqb_refl; reflexivity].
      rewrite F2.
      rewrite (generate_event_match device app _ (S (S k)) c3 5 r3);
        [|cbn; lia|reflexivity|exact H3|cbn; rewrite S3, String.eqb_refl; reflexivity].
      rewrite F3. reflexivity.
    + intros k'. apply generate_event_exhausted. cbn. lia.
Qed.

(** The recording of the scenario: the first call replays the tap recorded
    at index 2 and moves the cursor to 3. *)
Lemma replay_from_cursor_two_witness :
  Replay.generate_event Scenario.replaying_device Scenario.some_app
    (Replay.init Scenario.recorded) 0
  = (Replay.mkPolicy Scenario.recorded 3 0 (Some (TouchEvent Scenario.ok_button)) None,
     1%nat, Some (TouchEvent Scenario.ok_button)).
Proof.
  apply (proj1 replay_from_cursor_two Scenario.replaying_device
    Scenario.some_app (Replay.init Scenario.recorded) 0%nat
    Scenario.home_screen 0%nat
    (Replay.mkEventDict "home" (TouchEvent Scenario.ok_button)));
    [reflexivity | reflexivity | reflexivity | reflexivity | intros i ed' Hi; lia].
Defined.

(** C9 as stated fails: of a recording of exactly three events, with a device
    that shows their three start states in order, only the third event is
    replayed (at the third poll of the first call); the calls after it
    return no event. *)
Lemma replay_three_records_replays_one :
  snd (Replay.run 3 Scenario.replaying_device Scenario.some_app
         (Replay.init Scenario.three_recorded) 0)
  = [Some (KeyEvent "MENU"); None; None]
  /\ snd (Replay.run 3 Scenario.replaying_device Scenario.some_app
            (Replay.init Scenario.three_recorded) 0)
     <> [Some (TouchEvent Scenario.ok_button); Some BACK; Some (KeyEvent "MENU")].
Proof. split; [vm_compute; reflexivity|vm_compute; discriminate]. Qed.


(** ** Regular expressions: what a match implies *)

Section ReFacts.
Import Re.

Lemma or_else_some a b q :
  or_else a b = Some q -> a = Some q \/ b = Some q.
Proof. destruct a; simpl; intros H; auto. Qed.

Lemma one_some ok k p q :
  one ok k p = Some q ->
  exists x xs, rest p = x :: xs /\ ok x = true
             /\ k (mkPos (Some x) xs (group1 p)) = Some q.
Proof.
  unfold one, advance. destruct (rest p) as [|x xs] eqn:R; [discriminate|].
  destruct (ok x) eqn:O; [|discriminate].
  intros H. exists x, xs. auto.
Qed.

Lemma one_reaches ok : reaches (one ok).
Proof.
  intros k p q H. apply one_some in H as (x & xs & R & _ & H).
  eexists. split; [exact H|]. cbn. rewrite R. apply suffix_cons_r. reflexivity.
Qed.

Lemma greedy_loop_reaches body k fuel p q :
  reaches body ->
  greedy_loop body k fuel p = Some q ->
  exists p', k p' = Some q /\ rest p' `suffix_of` rest p.
Proof.
  intros Hb. revert p. induction fuel as [|fuel IH]; intros p; cbn [greedy_loop].
  - intros H. exists p. split; [exact H|reflexivity].
  - intros H. apply or_else_some in H as [H|H].
    + apply Hb in H as (p1 & H & S1).
      destruct (_ <? _)%nat; [|discriminate].
      apply IH in H as (p2 & H & S2). exists p2. split; [exact H|].
      etransitivity; eassumption.
    + exists p. split; [exact H|reflexivity].
Qed.

Lemma lazy_loop_reaches body k fuel p q :
  reaches body ->
  lazy_loop body k fuel p = Some q ->
  exists p', k p' = Some q /\ rest p' `suffix_of` rest p.
Proof.
  intros Hb. revert p. induction fuel as [|fuel IH]; intros p; cbn [lazy_loop].
  - intros H. exists p. split; [exact H|reflexivity].
  - intros H. apply or_else_some in H as [H|H].
    + exists p. split; [exact H|reflexivity].
    + apply Hb in H as (p1 & H & S1).
      destruct (_ <? _)%nat; [|discriminate].
      apply IH in H as (p2 & H & S2). exists p2. split; [exact H|].
      etransitivity; eassumption.
Qed.

Lemma m_reaches r : reaches (m r).
Proof.
  induction r as [w| |c|negated items|r1 IH1 r2 IH2|r IH|r IH|r IH|r IH|n r IH
    |r IH|r IH|]; intros k p q; cbn [m].
  - revert p. induction w as [|c w IHw]; intros p H.
    + exists p. split; [exact H|reflexivity].
    + apply one_reaches in H as (p1 & H & S1).
      apply IHw in H as (p2 & H & S2). exists p2. split; [exact H|].
      etransitivity; eassumption.
  - apply one_reaches.
  - apply one_reaches.
  - apply one_reaches.
  - intros H. apply IH1 in H as (p1 & H & S1). apply IH2 in H as (p2 & H & S2).
    exists p2. split; [exact H|]. etransitivity; eassumption.
  - now apply greedy_loop_reaches.
  - now apply lazy_loop_reaches.
  - intros H. apply IH in H as (p1 & H & S1).
    apply greedy_loop_reaches in H as (p2 & H & S2); [|exact IH].
    exists p2. split; [exact H|]. etransitivity; eassumption.
  - intros H. apply or_else_some in H as [H|H]; [now apply IH|].
    exists p. split; [exact H|reflexivity].
  - revert k p. induction n as [|n IHn]; intros k p H.
    + exists p. split; [exact H|reflexivity].
    + apply IH in H as (p1 & H & S1). apply IHn in H as (p2 & H & S2).
      exists p2. split; [exact H|]. etransitivity; eassumption.
  - intros H. apply IH in H as (p1 & H & S1).
    eexists. split; [exact H|]. exact S1.
  - apply IH.
  - destruct (at_boundary p); [|discriminate]. intros H.
    exists p. split; [exact H|reflexivity].
Qed.

Lemma m_Str w k p q :
  m (Str w) k p = Some q -> Credentials.starts_with_word w (rest p) = true.
Proof.
  cbn [m]. revert p. induction w as [|c w IH]; intros p H; [reflexivity|].
  apply one_some in H as (x & xs & R & O & H). rewrite R. cbn.
  rewrite O. apply IH in H. exact H.
Qed.

(** A pattern that mentions a word matches only where the word occurs
    further on. *)
Lemma mentions_occurs kw r k p q :
  Credentials.mentions kw r = true ->
  m r k p = Some q ->
  exists s, s `suffix_of` rest p /\ Credentials.starts_with_word kw s = true.
Proof.
  revert k p. induction r as [w| |c|negated items|r1 IH1 r2 IH2|r IH|r IH|r IH|r IH|n r IH
    |r IH|r IH|]; intros k p; cbn [Credentials.mentions]; try discriminate.
  - intros E H. apply String.eqb_eq in E as ->.
    exists (rest p). split; [reflexivity|]. eapply m_Str; eauto.
  - intros E H. cbn [m] in H. apply orb_true_iff in E as [E|E].
    + eapply IH1; eauto.
    + apply m_reaches in H as (p1 & H & S1).
      destruct (IH2 _ _ E H) as (s0 & S2 & W). exists s0. split; [|exact W].
      etransitivity; eassumption.
Qed.

Lemma search_from_some r before s q :
  search_from r before s = Some q ->
  exists before' s', s' `suffix_of` s /\ match_at r before' s' = Some q.
Proof.
  revert before. induction s as [|x s IH]; intros before; cbn [search_from].
  - destruct (match_at r before []) eqn:M; [|discriminate].
    intros H. injection H as <-. exists before, []. split; [reflexivity|exact M].
  - destruct (match_at r before (x :: s)) eqn:M.
    + intros H. injection H as <-. exists before, (x :: s). split; [reflexivity|exact M].
    + intros H. apply IH in H as (b & s' & S1 & H). exists b, s'.
      split; [now apply suffix_cons_r|exact H].
Qed.

(** Words in lower case occur in the lowered text wherever they start a
    suffix of the text in either case. *)
Lemma starts_with_word_prefix kw (s : string) :
  PyStr.lower kw = kw ->
  Credentials.starts_with_word kw (String.list_ascii_of_string s) = true ->
  String.prefix kw (PyStr.lower s) = true.
Proof.
  revert s. induction kw as [|c kw IH]; intros s L; [now destruct s|].
  cbn in L. injection L as Lc Lk.
  destruct s as [|x s]; cbn; [discriminate|].
  intros H. apply andb_true_iff in H as [H1 H2].
  unfold same_char in H1. rewrite Lc in H1. apply Ascii.eqb_eq in H1.
  destruct (ascii_dec c (PyStr.lower_char x)) as [_|N]; [|congruence].
  now apply IH.
Qed.

Lemma suffix_contains kw (text : string) (s : list ascii) :
  PyStr.lower kw = kw ->
  s `suffix_of` String.list_ascii_of_string text ->
  Credentials.starts_with_word kw s = true ->
  PyStr.contains kw (PyStr.lower text) = true.
Proof.
  intros L. induction text as [|x text IH]; intros S W.
  - apply suffix_nil_inv in S as ->. cbn. apply orb_true_iff. left.
    now apply (starts_with_word_prefix kw EmptyString).
  - cbn [PyStr.lower PyStr.contains]. apply orb_true_iff.
    destruct s as [|y s].
    + destruct kw; [|discriminate]. left. reflexivity.
    + cbn [String.list_ascii_of_string] in S. apply suffix_cons_inv in S as [E|S].
      * left. apply (starts_with_word_prefix kw (String x text)); [exact L|].
        cbn [String.list_ascii_of_string]. now rewrite <- E.
      * right. now apply IH.
Qed.

Lemma search_none_without_keyword kw r text :
  PyStr.lower kw = kw ->
  Credentials.mentions kw r = true ->
  PyStr.contains kw (PyStr.lower text) = false ->
  search r text = None.
Proof.
  intros L E C. unfold search.
  destruct (search_from r None (String.list_ascii_of_string text)) as [q|] eqn:H;
    [|reflexivity].
  apply search_from_some in H as (b & s & S1 & H). unfold match_at in H.
  destruct (mentions_occurs kw r _ _ _ E H) as (s0 & S2 & W). cbn in S2.
  rewrite (suffix_contains kw text s0) in C; [discriminate|exact L| |exact W].
  etransitivity; eassumption.
Qed.

(** Where the pattern \b(\d{4})\b matches, a standalone token starts. *)
Lemma standalone_match_token before s q :
  match_at Credentials.standalone_four_digits before s = Some q ->
  Credentials.token_here before s = true.
Proof.
  unfold match_at, Credentials.standalone_four_digits, Credentials.four_digits.
  cbn [m]. unfold at_boundary at 1. cbn [prev rest].
  destruct (xorb _ _) eqn:B1; [|discriminate].
  intros H.
  apply one_some in H as (d1 & s1 & R1 & O1 & H). cbn [rest group1] in *.
  apply one_some in H as (d2 & s2 & R2 & O2 & H). cbn [rest group1] in *.
  apply one_some in H as (d3 & s3 & R3 & O3 & H). cbn [rest group1] in *.
  apply one_some in H as (d4 & s4 & R4 & O4 & H). cbn [rest group1] in *.
  subst s s1 s2 s3. cbn [prev rest] in H.
  unfold at_boundary in H. cbn [prev rest] in H.
  destruct (xorb _ _) eqn:B2 in H; [|discriminate].
  cbn [in_cls] in *. unfold Credentials.token_here, Credentials.is_word_opt.
  rewrite O1, O2, O3, O4.
  assert (W1 : PyStr.is_word d1 = true) by (unfold PyStr.is_word; now rewrite O1).
  assert (W4 : PyStr.is_word d4 = true) by (unfold PyStr.is_word; now rewrite O4).
  rewrite W1 in B1. rewrite W4 in B2.
  destruct before as [b|]; cbn in B1 |- *.
  - destruct (PyStr.is_word b); [discriminate|].
    destruct s4 as [|y s4]; cbn in B2 |- *; [reflexivity|].
    now destruct (PyStr.is_word y).
  - destruct s4 as [|y s4]; cbn in B2 |- *; [reflexivity|].
    now destruct (PyStr.is_word y).
Qed.

Lemma findall_from_no_token fuel before s :
  Credentials.token_from before s = false ->
  findall_from Credentials.standalone_four_digits fuel before s = [].
Proof.
  revert before s. induction fuel as [|fuel IH]; intros before s T; [reflexivity|].
  cbn [findall_from].
  assert (Hhere : Credentials.token_here before s = false).
  { destruct s; cbn [Credentials.token_from] in T; now apply orb_false_iff in T. }
  destruct (match_at Credentials.standalone_four_digits before s) as [q|] eqn:M.
  - apply standalone_match_token in M. congruence.
  - destruct s as [|x s]; [reflexivity|].
    apply IH. cbn [Credentials.token_from] in T. now apply orb_false_iff in T.
Qed.

Lemma findall_no_token text :
  Credentials.has_four_digit_token text = false ->
  findall Credentials.standalone_four_digits text = [].
Proof. intros H. now apply findall_from_no_token. Qed.

End ReFacts.


(** ** Credentials (C10) *)

Section CredentialFacts.
Import Credentials.

(** The patterns, as the source writes them. *)
Lemma patterns_as_written :
  map Re.show pin_patterns
  = ["pin[:\s=]+(\d+)"; "use\s+(?:the\s+)?pin\s+(\d+)"; "use\s+(\d{4})";
     "pin.*?(\d{4})"; "(\d{4}).*?pin"; "enter\s+.*?(\d{4})";
     "code[:\s=]+(\d+)"; "digit[^\d]*(\d{4})"; "passcode[:\s=]+(\d+)"]
  /\ map Re.show password_patterns
     = ["password[:\s=]+([^\s.,]+)"; "use\s+(?:the\s+)?password\s+([^\s.,]+)";
        "pass[:\s=]+([^\s.,]+)"]
  /\ map Re.show username_patterns
     = ["username[:\s=]+([^\s.,]+)"; "use\s+(?:the\s+)?username\s+([^\s.,]+)";
        "user[:\s=]+([^\s.,]+)"]
  /\ map Re.show email_patterns
     = ["email[:\s=]+([^\s.,@]+@[^\s.,]+)";
        "use\s+(?:the\s+)?email\s+([^\s.,@]+@[^\s.,]+)"]
  /\ Re.show standalone_four_digits = "\b(\d{4})\b".
Proof. repeat split. Qed.

Lemma first_match_no_keyword patterns text :
  forallb (fun r => existsb (fun kw => mentions kw r) credential_keywords) patterns = true ->
  no_keyword text = true ->
  first_match patterns text = None.
Proof.
  intros Hp Hk. induction patterns as [|r rest IH]; [reflexivity|].
  cbn [forallb] in Hp. apply andb_true_iff in Hp as [Hr Hrest].
  cbn [first_match].
  apply existsb_exists in Hr as (kw & Hin & Hm).
  assert (Hlow : PyStr.lower kw = kw).
  { assert (forallb (fun kw => String.eqb (PyStr.lower kw) kw) credential_keywords = true)
      as Hall by reflexivity.
    rewrite forallb_forall in Hall. apply String.eqb_eq. now apply Hall. }
  unfold no_keyword in Hk. rewrite forallb_forall in Hk.
  specialize (Hk kw Hin). apply negb_true_iff in Hk.
  rewrite (search_none_without_keyword kw r text Hlow Hm Hk). now apply IH.
Qed.

Lemma scan_text_no_keyword text credentials :
  no_keyword text = true -> scan_text text credentials = credentials.
Proof.
  intros Hk. unfold scan_text, credential_patterns. cbn [foldl].
  rewrite !first_match_no_keyword; auto.
Qed.

Lemma scan_notes_no_keyword texts credentials :
  Forall (fun t => no_keyword t = true) texts ->
  foldl (fun credentials note_text => scan_text note_text credentials) credentials texts
  = credentials.
Proof.
  intros H. revert credentials. induction H as [|t texts Ht _ IH]; intros c; [reflexivity|].
  cbn [foldl]. rewrite scan_text_no_keyword by exact Ht. apply IH.
Qed.

Lemma from_text_no_credentials text :
  no_keyword text = true -> has_four_digit_token text = false ->
  from_text text = [].
Proof.
  intros Hk Ht. unfold from_text. rewrite scan_text_no_keyword by exact Hk.
  rewrite findall_no_token by exact Ht. reflexivity.
Qed.

Lemma from_config_default app_notes :
  foldl (fun credentials note_text => scan_text note_text credentials)
        [] (note_texts app_notes) = [] ->
  Re.findall standalone_four_digits (all_notes app_notes) = [] ->
  from_config app_notes = [("pin", "1234")].
Proof.
  intros Hs Hf. unfold from_config. rewrite Hs, Hf. cbn.
  now destruct (PyStr.truthy _).
Qed.

Lemma from_config_not_empty app_notes : from_config app_notes <> [].
Proof.
  unfold from_config.
  set (c1 := foldl _ _ _).
  set (c2 := if negb (dict_has c1 "pin") then _ else c1).
  destruct c2 as [|kv c2]; [|discriminate]. cbn. discriminate.
Qed.

(** C10: without notes text the extraction never returns an empty
    dictionary; when neither the patterns nor the search for four standalone
    digits find a credential in the configured notes, it returns the PIN 1234
    alone.  The function is not given the screen. *)
Theorem config_extraction_defaults_to_1234 :
  (forall app_notes, extract_credentials_from_notes app_notes None <> [])
  /\ (forall app_notes,
        foldl (fun credentials note_text => scan_text note_text credentials)
              [] (note_texts app_notes) = [] ->
        Re.findall standalone_four_digits (all_notes app_notes) = [] ->
        extract_credentials_from_notes app_notes None = [("pin", "1234")]
        /\ dict_get (extract_credentials_from_notes app_notes None) "pin" = Some "1234").
Proof.
  split.
  - intros app_notes. apply from_config_not_empty.
  - intros app_notes Hs Hf. unfold extract_credentials_from_notes.
    rewrite from_config_default by assumption. split; reflexivity.
Qed.

End CredentialFacts.

Lemma config_extraction_defaults_to_1234_witness :
  Credentials.extract_credentials_from_notes
    (Some [Credentials.mkNote (Some "tap the blue button"); Credentials.mkNote None])
    None = [("pin", "1234")].
Proof.
  apply (proj2 config_extraction_defaults_to_1234
    (Some [Credentials.mkNote (Some "tap the blue button");
    Credentials.mkNote None]));
    reflexivity.
Defined.


(** ** The answer of the oracle (C6) *)

Section OracleFacts.
Import Task.
Variables (tools : Tools) (state_prompt : string).

Lemma handle_reply_finished candidate_actions given action_type input_text :
  handle_reply tools state_prompt candidate_actions given
               (mkOracleReply (Ret (-1)) action_type input_text)
  = Ret (mkDecision ChosenFinished None None None None).
Proof. reflexivity. Qed.

(** An index at or past the end of a non-empty list is replaced by 0. *)
Lemma handle_reply_clamps_high first others given idx action_type input_text :
  Z.of_nat (length (first :: others)) <= idx ->
  exists d,
    handle_reply tools state_prompt (first :: others) given
                 (mkOracleReply (Ret idx) action_type input_text) = Ret d
    /\ chosen d = ChosenAction
         (match first with
          | Single (SetTextEvent view _) =>
              Single (SetTextEvent view (sanitize input_text))
          | _ => first
          end).
Proof.
  intros Hi. unfold handle_reply. cbn [reply_idx mbind res_bind].
  assert ((idx =? -1) = false) as -> by lia.
  assert ((idx >=? Z.of_nat (length (first :: others))) = true) as -> by lia.
  cbn. destruct first as [[]|]; cbn; eexists; split; reflexivity.
Qed.

End OracleFacts.

(** C6: an index below -1 is not replaced by 0.  With three candidate
    actions the answer -5 raises IndexError and the answer -2 selects the
    second action; with no candidate action every answer but -1 raises
    IndexError. *)
Theorem oracle_index_below_minus_one_is_not_clamped :
  Task.handle_reply Scenario.plain_tools "screen" Scenario.three_actions false
                    (Scenario.oracle_says (-5)) = Raise IndexError
  /\ Task.chosen <$> Task.handle_reply Scenario.plain_tools "screen"
                       Scenario.three_actions false (Scenario.oracle_says (-2))
     = Ret (Task.ChosenAction (Single (KeyEvent "B")))
  /\ Task.handle_reply Scenario.plain_tools "screen" [] false
                       (Scenario.oracle_says 7) = Raise IndexError.
Proof. repeat split. Qed.

(** ** Scrolling (C8) *)

Section ScrollFacts.
Import Task.
Context {D : Type} (device : Device D).

Lemma sent_send e (w : World D) : sent (send device e w) = sent w ++ [e].
Proof. reflexivity. Qed.

Lemma replicate_snoc {A} (x : A) (k : nat) :
  [x] ++ replicate k x = replicate (S k) x.
Proof. reflexivity. Qed.

(** One call of the scroll-to-top loop: at most [n] scrolls, all upwards. *)
Lemma scroll_to_top_loop_sent n scroller old mark prefix (w : World D) :
  exists k, (k <= n)%nat
    /\ sent (fst (scroll_to_top_loop device n scroller old mark prefix w))
       = sent w ++ replicate k (UP scroller).
Proof.
  revert old mark prefix w. induction n as [|n IH]; intros old mark prefix w.
  - exists 0%nat. split; [lia|]. cbn. now rewrite app_nil_r.
  - cbn [scroll_to_top_loop].
    destruct (poll device (send device (UP scroller) w)) as [scrolled|] eqn:P.
    + destruct (new_views (described_views scrolled) mark) as [new mark'].
      destruct new as [|v new].
      * exists 1%nat. split; [lia|]. reflexivity.
      * destruct (IH (Some scrolled) mark' (prefix ++ [UP scroller])
                    (add_transition (UP scroller) old (Some scrolled)
                       (send device (UP scroller) w))) as (k & Hk & Hs).
        exists (S k). split; [lia|]. rewrite Hs. cbn [sent add_transition send].
        now rewrite <- app_assoc.
    + exists 1%nat. split; [lia|]. reflexivity.
Qed.

(** The downward loop: at most [n] scrolls, all downwards. *)
Lemma scroll_down_loop_sent n scroller d (w : World D) :
  exists k, (k <= n)%nat
    /\ sent (fst (scroll_down_loop device n scroller d w))
       = sent w ++ replicate k (DOWN scroller).
Proof.
  revert d w. induction n as [|n IH]; intros d w.
  - exists 0%nat. split; [lia|]. cbn. now rewrite app_nil_r.
  - cbn [scroll_down_loop].
    destruct (poll device (send device (DOWN scroller) w)) as [scrolled|] eqn:P;
      [|exists 1%nat; split; [lia|reflexivity]].
    destruct (add_scrolled _ _ _ _ _ _ _ _) as [[[new views] actions]|e];
      [|exists 1%nat; split; [lia|reflexivity]].
    destruct (length new =? 0)%nat; [exists 1%nat; split; [lia|reflexivity]|].
    destruct (_ >=? 2); [exists 1%nat; split; [lia|reflexivity]|].
    match goal with
      | |- context [scroll_down_loop device n scroller ?d' ?w'] =>
      destruct (IH d' w') as (k & Hk & Hs)
      end.
    exists (S k). split; [lia|]. rewrite Hs. cbn [sent add_transition send].
    now rewrite <- app_assoc.
Qed.

(** A scroll that reveals no new view is the last one. *)
Lemma scroll_down_stops_on_nothing_new n scroller d (w : World D)
    scrolled views actions :
  poll device (send device (DOWN scroller) w) = Some scrolled ->
  add_scrolled scroller (prefix_scroll_event d) (described_views scrolled)
               (described_actions scrolled) 0 [] (all_views_without_id d)
               (all_actions d) = Ret ([], views, actions) ->
  sent (fst (scroll_down_loop device (S n) scroller d w))
  = sent w ++ [DOWN scroller].
Proof. intros P A. cbn [scroll_down_loop]. rewrite P, A. reflexivity. Qed.

(** Two scrolls in a row that each reveal fewer than two new views: no
    third scroll follows. *)
Lemma scroll_down_stops_on_two_small n scroller d (w : World D)
    s1 new1 views1 actions1 s2 new2 views2 actions2 :
  0 <= too_few_item_time d ->
  poll device (send device (DOWN scroller) w) = Some s1 ->
  add_scrolled scroller (prefix_scroll_event d) (described_views s1)
               (described_actions s1) 0 [] (all_views_without_id d)
               (all_actions d) = Ret (new1, views1, actions1) ->
  (length new1 < 2)%nat ->
  poll device
       (send device (DOWN scroller)
             (add_transition (DOWN scroller) (Some (top_state d)) (Some s1)
                             (send device (DOWN scroller) w))) = Some s2 ->
  add_scrolled scroller (prefix_scroll_event d ++ [DOWN scroller])
               (described_views s2) (described_actions s2) 0 [] views1 actions1
  = Ret (new2, views2, actions2) ->
  (length new2 < 2)%nat ->
  exists k, (k <= 2)%nat
    /\ sent (fst (scroll_down_loop device (S (S n)) scroller d w))
       = sent w ++ replicate k (DOWN scroller).
Proof.
  intros Ht P1 A1 L1 P2 A2 L2.
  cbn [scroll_down_loop]. rewrite P1, A1.
  destruct (length new1 =? 0)%nat eqn:Z1; [exists 1%nat; split; [lia|reflexivity]|].
  assert ((length new1 <? 2)%nat = true) as -> by now apply Nat.ltb_lt.
  destruct (too_few_item_time d + 1 >=? 2) eqn:T1;
    [exists 1%nat; split; [lia|reflexivity]|].
  cbn [top_state all_views_without_id all_actions prefix_scroll_event
       too_few_item_time whole_state_strs].
  rewrite P2, A2.
  destruct (length new2 =? 0)%nat eqn:Z2;
    [exists 2%nat; split; [lia|cbn [fst sent send add_transition];
                                now rewrite <- app_assoc]|].
  assert ((length new2 <? 2)%nat = true) as -> by now apply Nat.ltb_lt.
  assert ((too_few_item_time d + 1 + 1 >=? 2) = true) as -> by lia.
  exists 2%nat. split; [lia|]. cbn [fst sent send add_transition].
  now rewrite <- app_assoc.
Qed.

(** One scroller: a pass to the top, the pass downwards and a second pass
    to the top. *)
Lemma flatten_scroller_sent current_state scroller acc (w : World D) :
  exists up1 down up2,
    (up1 <= MAX_SCROLL_NUM)%nat /\ (down <= MAX_SCROLL_NUM)%nat
    /\ (up2 <= MAX_SCROLL_NUM)%nat
    /\ sent (fst (flatten_scroller device current_state scroller acc w))
       = sent w ++ replicate up1 (UP scroller) ++ replicate down (DOWN scroller)
                ++ replicate up2 (UP scroller).
Proof.
  unfold flatten_scroller, scroll_to_top.
  destruct (scroll_to_top_loop_sent MAX_SCROLL_NUM scroller (Some current_state)
    (views_for_mark acc) [] w) as (u1 & Hu1 & S1).
  destruct (scroll_to_top_loop device MAX_SCROLL_NUM scroller (Some current_state)
    (views_for_mark acc) [] w) as [w1 [[mark prefix]|e]]; cbn [fst] in S1.
  2:{ exists u1, 0%nat, 0%nat. repeat split; try lia. cbn [fst]. rewrite S1.
      cbn. now rewrite app_nil_r. }
  destruct (poll device w1) as [top|].
  2:{ exists u1, 0%nat, 0%nat. repeat split; try lia. cbn [fst]. rewrite S1.
      cbn. now rewrite app_nil_r. }
  match goal with
    | |- context [scroll_down_loop device MAX_SCROLL_NUM scroller ?d' w1] =>
    destruct (scroll_down_loop_sent MAX_SCROLL_NUM scroller d' w1) as (dn & Hdn & S2);
    destruct (scroll_down_loop device MAX_SCROLL_NUM scroller d' w1)
    as [w2 [d|e]]; cbn [fst] in S2
    end.
  2:{ exists u1, dn, 0%nat. repeat split; try lia. cbn [fst]. rewrite S2, S1.
      cbn. now rewrite app_nil_r, <- app_assoc. }
  destruct (merge_views _ _ _ _ _) as [[views actions]|e].
  2:{ exists u1, dn, 0%nat. repeat split; try lia. cbn [fst]. rewrite S2, S1.
      cbn. now rewrite app_nil_r, <- app_assoc. }
  destruct (scroll_to_top_loop_sent MAX_SCROLL_NUM scroller (Some (top_state d))
    [] [] w2) as (u2 & Hu2 & S3).
  destruct (scroll_to_top_loop device MAX_SCROLL_NUM scroller (Some (top_state d))
    [] [] w2) as [w3 [[mark' prefix']|e]]; cbn [fst] in S3 |- *;
    exists u1, dn, u2; repeat split; try lia;
    rewrite S3, S2, S1; now rewrite <- !app_assoc.
Qed.

End ScrollFacts.


(** C8, as amended: whatever the device does, every scroll loop makes at
    most MAX_SCROLL_NUM scrolls: a pass to the top sends at most that many
    upward scrolls, the downward loop at most that many downward scrolls, and
    a scroller costs one pass to the top, the downward loop and a second pass
    to the top, so the procedure ends.  The downward loop makes no further
    scroll after one that reveals no new view, nor after two in a row that
    each reveal fewer than two new views. *)
Theorem scroll_loops_are_bounded {D : Type} (device : Task.Device D) :
  (forall scroller mark old (w : Task.World D),
      exists k, (k <= MAX_SCROLL_NUM)%nat
        /\ Task.sent (fst (Task.scroll_to_top device scroller mark old w))
           = Task.sent w ++ replicate k (Task.UP scroller))
  /\ (forall scroller d (w : Task.World D),
        exists k, (k <= MAX_SCROLL_NUM)%nat
          /\ Task.sent (fst (Task.scroll_down_loop device MAX_SCROLL_NUM scroller d w))
             = Task.sent w ++ replicate k (Task.DOWN scroller))
  /\ (forall current_state scroller acc (w : Task.World D),
        exists up1 down up2,
          (up1 <= MAX_SCROLL_NUM)%nat /\ (down <= MAX_SCROLL_NUM)%nat
          /\ (up2 <= MAX_SCROLL_NUM)%nat
          /\ Task.sent (fst (Task.flatten_scroller device current_state scroller acc w))
             = Task.sent w ++ replicate up1 (Task.UP scroller)
                 ++ replicate down (Task.DOWN scroller)
                 ++ replicate up2 (Task.UP scroller))
  /\ (forall n scroller d (w : Task.World D) scrolled views actions,
        Task.poll device (Task.send device (Task.DOWN scroller) w) = Some scrolled ->
        Task.add_scrolled scroller (Task.prefix_scroll_event d)
          (described_views scrolled) (described_actions scrolled) 0 []
          (Task.all_views_without_id d) (Task.all_actions d)
        = Ret ([], views, actions) ->
        Task.sent (fst (Task.scroll_down_loop device (S n) scroller d w))
        = Task.sent w ++ [Task.DOWN scroller])
  /\ (forall n scroller d (w : Task.World D)
             s1 new1 views1 actions1 s2 new2 views2 actions2,
        0 <= Task.too_few_item_time d ->
        Task.poll device (Task.send device (Task.DOWN scroller) w) = Some s1 ->
        Task.add_scrolled scroller (Task.prefix_scroll_event d)
          (described_views s1) (described_actions s1) 0 []
          (Task.all_views_without_id d) (Task.all_actions d)
        = Ret (new1, views1, actions1) ->
        (length new1 < 2)%nat ->
        Task.poll device
          (Task.send device (Task.DOWN scroller)
             (Task.add_transition (Task.DOWN scroller) (Some (Task.top_state d))
                (Some s1) (Task.send device (Task.DOWN scroller) w))) = Some s2 ->
        Task.add_scrolled scroller (Task.prefix_scroll_event d ++ [Task.DOWN scroller])
          (described_views s2) (described_actions s2) 0 [] views1 actions1
        = Ret (new2, views2, actions2) ->
        (length new2 < 2)%nat ->
        exists k, (k <= 2)%nat
          /\ Task.sent (fst (Task.scroll_down_loop device (S (S n)) scroller d w))
             = Task.sent w ++ replicate k (Task.DOWN scroller)).
Proof.
  split; [|split; [|split; [|split]]].
  - intros scroller mark old w. apply scroll_to_top_loop_sent.
  - intros scroller d w. apply scroll_down_loop_sent.
  - intros current_state scroller acc w. apply flatten_scroller_sent.
  - intros n scroller d w scrolled views actions.
    apply scroll_down_stops_on_nothing_new.
  - intros n scroller d w s1 new1 views1 actions1 s2 new2 views2 actions2.
    apply scroll_down_stops_on_two_small.
Qed.

(** At the last row of the list a downward scroll shows nothing new: the
    loop stops after it. *)
Lemma scroll_loops_are_bounded_witness :
  Task.sent
    (fst (Task.scroll_down_loop Scenario.long_list 7 Scenario.list_view
            (Task.mkDown (Scenario.list_at 29) [Scenario.row 29] [Single BACK] [] 0 [])
            (Task.mkWorld 29%nat [] [])))
  = [] ++ [Task.DOWN Scenario.list_view].
Proof.
  apply (proj1 (proj2 (proj2 (proj2 (scroll_loops_are_bounded Scenario.long_list))))
    6%nat Scenario.list_view
    (Task.mkDown (Scenario.list_at 29) [Scenario.row 29] [Single BACK] [] 0 [])
    (Task.mkWorld 29%nat [] []) (Scenario.list_at 29)
    [Scenario.row 29] [Single BACK]);
    reflexivity.
Defined.

(** C8 as stated fails: flattening the list from row 20 sends fourteen
    upward scrolls for its one scroller, seven in the pass to the top and
    seven in the pass that restores it. *)
Lemma one_scroller_takes_fourteen_up_scrolls :
  length (List.filter (Task.is_scroll "UP")
            (Task.sent
               (fst (Task.flatten_scroller Scenario.long_list (Scenario.list_at 20)
                       Scenario.list_view
                       (Task.mkWhole [] [] [] [Scenario.row 20])
                       (Task.mkWorld 20%nat [] [])))))
  = 14%nat
  /\ (MAX_SCROLL_NUM < 14)%nat.
Proof. split; [vm_compute; reflexivity|unfold MAX_SCROLL_NUM; lia]. Qed.



(** ** Python strings: searching, slicing and replacing *)

Section TextFacts.
Import PyStr.

Lemma append_cons c (a b : string) : String c a +:+ b = String c (a +:+ b).
Proof. reflexivity. Qed.

Lemma append_nil (b : string) : EmptyString +:+ b = b.
Proof. reflexivity. Qed.

Lemma prefix_app s t : String.prefix s (s +:+ t) = true.
Proof.
  induction s as [|c s IH]; [now destruct t|].
  rewrite append_cons. simpl. destruct (ascii_dec c c); [exact IH | congruence].
Qed.

Lemma prefix_list s t :
  String.prefix s t = true ->
  exists r, String.list_ascii_of_string t = String.list_ascii_of_string s ++ r.
Proof.
  revert t. induction s as [|c s IH]; intros t Hp.
  - now exists (String.list_ascii_of_string t).
  - destruct t as [|d t]; [discriminate|]. simpl in Hp.
    destruct (ascii_dec c d) as [->|]; [|discriminate].
    destruct (IH t Hp) as [r Hr]. exists r. simpl. now rewrite Hr.
Qed.

Lemma lower_app a b : lower (a +:+ b) = lower a +:+ lower b.
Proof.
  induction a as [|c a IH]; [reflexivity|].
  rewrite append_cons. simpl. now rewrite IH.
Qed.

Lemma contains_prefix sub s : String.prefix sub s = true -> contains sub s = true.
Proof.
  intros Hp. destruct s as [|c s]; [now destruct sub|].
  cbn [contains]. now rewrite Hp.
Qed.

Lemma contains_app_r sub pre s :
  contains sub s = true -> contains sub (pre +:+ s) = true.
Proof.
  intros Hs. induction pre as [|c pre IH]; [exact Hs|].
  rewrite append_cons. simpl. rewrite IH. apply orb_true_r.
Qed.

Lemma contains_middle sub pre post : contains sub (pre +:+ sub +:+ post) = true.
Proof. apply contains_app_r, contains_prefix, prefix_app. Qed.

Lemma contains_cons sub c s :
  contains sub (String c s) = String.prefix sub (String c s) || contains sub s.
Proof. reflexivity. Qed.

Lemma find_from_cons i sub c s :
  find_from i sub (String c s)
  = if String.prefix sub (String c s) then Z.of_nat i else find_from (S i) sub s.
Proof. reflexivity. Qed.

Lemma find_from_missing i sub s : contains sub s = false -> find_from i sub s = -1.
Proof.
  revert i. induction s as [|c s IH]; intros i Hc.
  - now destruct sub.
  - rewrite contains_cons in Hc. apply orb_false_elim in Hc as [Hp Hc].
    rewrite find_from_cons, Hp. now apply IH.
Qed.

Lemma find_from_bounds i sub s :
  find_from i sub s = -1 \/ Z.of_nat i <= find_from i sub s.
Proof.
  revert i. induction s as [|c s IH]; intros i.
  - destruct sub; [right; simpl; lia | now left].
  - rewrite find_from_cons.
    destruct (String.prefix sub (String c s)); [right; lia|].
    destruct (IH (S i)) as [->|H]; [now left | right; lia].
Qed.

Lemma find_empty_sub s : find s EmptyString = 0.
Proof. unfold find. now destruct s. Qed.

Lemma string_length_app (a b : string) :
  String.length (a +:+ b) = (String.length a + String.length b)%nat.
Proof.
  induction a as [|c a IH]; [reflexivity|].
  rewrite append_cons. simpl. now rewrite IH.
Qed.

Lemma substring_drop a s :
  String.list_ascii_of_string (String.substring a (String.length s - a) s)
  = drop a (String.list_ascii_of_string s).
Proof.
  revert a. induction s as [|c s IH]; intros a.
  - now destruct a.
  - destruct a as [|a].
    + simpl. f_equal. specialize (IH 0%nat). rewrite Nat.sub_0_r in IH.
      rewrite IH. reflexivity.
    + simpl. apply IH.
Qed.

Lemma substring_middle (a b c : string) :
  String.substring (String.length a) (String.length b) (a +:+ b +:+ c) = b.
Proof.
  induction a as [|x a IH]; [|rewrite append_cons; exact IH].
  rewrite append_nil. simpl String.length. revert c.
  induction b as [|y b IHb]; intros c.
  - now destruct c.
  - rewrite append_cons. simpl. now rewrite IHb.
Qed.

Lemma list_ascii_app a b :
  String.list_ascii_of_string (a +:+ b)
  = String.list_ascii_of_string a ++ String.list_ascii_of_string b.
Proof.
  induction a as [|c a IH]; [reflexivity|].
  rewrite append_cons. simpl. now rewrite IH.
Qed.

Lemma append_assoc (a b c : string) : (a +:+ b) +:+ c = a +:+ (b +:+ c).
Proof.
  induction a as [|x a IH]; [reflexivity|].
  rewrite !append_cons. now rewrite IH.
Qed.

Lemma replace_char_app c by_ a b :
  replace_char c by_ (a +:+ b) = replace_char c by_ a +:+ replace_char c by_ b.
Proof.
  induction a as [|x a IH]; [reflexivity|].
  rewrite append_cons. simpl. rewrite IH.
  destruct (Ascii.eqb x c); [|reflexivity].
  now rewrite append_assoc.
Qed.

Lemma replace_one_char c new s :
  replace s (String c EmptyString) new = replace_char c new s.
Proof.
  unfold replace. induction s as [|x s IH]; [reflexivity|].
  simpl. rewrite IH. rewrite Ascii.eqb_sym.
  destruct (ascii_dec c x) as [->|Hn].
  - rewrite Ascii.eqb_refl. now destruct s.
  - apply Ascii.eqb_neq in Hn. now rewrite Hn.
Qed.

Lemma replace_from_cons old new x s :
  replace_from 0 old new (String x s)
  = if String.prefix old (String x s)
    then new +:+ replace_from (String.length old - 1) old new s
    else String x (replace_from 0 old new s).
Proof. reflexivity. Qed.

Lemma replace_from_lacks c old new s :
  c ∈ String.list_ascii_of_string old -> lacks c s ->
  replace_from 0 old new s = s.
Proof.
  intros Hold. induction s as [|x s IH]; intros Hs; [reflexivity|].
  unfold lacks in *. simpl in Hs.
  apply not_elem_of_cons in Hs as [Hx Hs].
  rewrite replace_from_cons. destruct (String.prefix old (String x s)) eqn:Hp.
  - exfalso. destruct (prefix_list _ _ Hp) as [r Hr]. simpl in Hr.
    assert (c ∈ x :: String.list_ascii_of_string s) as Hin
      by (rewrite Hr; apply elem_of_app; now left).
    apply elem_of_cons in Hin as [Hin|Hin]; [now apply Hx | now apply Hs].
  - now rewrite (IH Hs).
Qed.

Lemma replace_char_lacks c by_ s :
  lacks c by_ -> lacks c (replace_char c by_ s).
Proof.
  unfold lacks. intros Hby. induction s as [|x s IH]; simpl; [apply not_elem_of_nil|].
  destruct (Ascii.eqb x c) eqn:E.
  - rewrite list_ascii_app, elem_of_app. tauto.
  - simpl. apply not_elem_of_cons. split; [|exact IH].
    intros ->. now rewrite Ascii.eqb_refl in E.
Qed.

Lemma replace_char_keeps_lacking d c by_ s :
  lacks d by_ -> lacks d s -> lacks d (replace_char c by_ s).
Proof.
  unfold lacks. intros Hby. induction s as [|x s IH]; simpl; [easy|].
  intros Hs. apply not_elem_of_cons in Hs as [Hx Hs].
  destruct (Ascii.eqb x c).
  - rewrite list_ascii_app, elem_of_app. intros [?|?]; [easy | now apply IH].
  - simpl. apply not_elem_of_cons. split; [exact Hx | now apply IH].
Qed.

End TextFacts.

(** ** The task policy: texts of screens, views and answers *)

Section TaskTextFacts.
Import PyStr.

Lemma contains_empty s : contains EmptyString s = true.
Proof. now destruct s. Qed.

Lemma find_prefix sub s : String.prefix sub s = true -> find s sub = 0.
Proof.
  unfold find. intros Hp. destruct s as [|c s]; [now destruct sub|].
  now rewrite find_from_cons, Hp.
Qed.

Lemma length_list_ascii s :
  length (String.list_ascii_of_string s) = String.length s.
Proof. induction s as [|c s IH]; [reflexivity|]. simpl. now rewrite IH. Qed.

Lemma slice_from text (a : nat) :
  String.list_ascii_of_string (slice text (Some (Z.of_nat a)) None)
  = drop a (String.list_ascii_of_string text).
Proof.
  unfold slice, slice_index.
  destruct (Z.of_nat a <? 0) eqn:E; [apply Z.ltb_lt in E; lia|].
  destruct (Nat.le_gt_cases a (String.length text)) as [Hle|Hgt].
  - rewrite Z.min_l by lia. rewrite Nat2Z.id.
    replace (Z.to_nat (Z.of_nat (String.length text) - Z.of_nat a))
      with (String.length text - a)%nat by lia.
    apply substring_drop.
  - rewrite Z.min_r by lia. rewrite Nat2Z.id, Z.sub_diag.
    pose proof (substring_drop (String.length text) text) as H.
    rewrite Nat.sub_diag in H. change (Z.to_nat 0) with 0%nat. rewrite H.
    rewrite !drop_ge; [reflexivity | |]; rewrite length_list_ascii; lia.
Qed.

(** X1: a screen is taken for an authentication screen as soon as one of
    the keywords occurs anywhere in its text, inside any word and in any
    capitalisation. *)
Theorem auth_keyword_anywhere (pre w post kw : string) :
  kw ∈ Task.auth_keywords ->
  lower w = kw ->
  Task.is_authentication_screen (pre +:+ w +:+ post) = true.
Proof.
  intros Hkw Hw. unfold Task.is_authentication_screen.
  apply orb_true_iff. left. apply existsb_exists. exists kw.
  split; [now apply list_elem_of_In|].
  rewrite !lower_app, Hw. apply contains_middle.
Qed.

(** X2: the text typed into a text field is at most 30 characters long and
    holds neither a space nor a double quote; an answer that is longer
    after the replacements is dropped as a whole, not cut. *)
Theorem typed_text_is_short_and_plain (input_text : option string) :
  (String.length (Task.sanitize input_text) <= 30)%nat
  /\ lacks " " (Task.sanitize input_text)
  /\ lacks Task.double_quote (Task.sanitize input_text)
  /\ (forall t,
        input_text = Some t -> t <> "N/A" ->
        (30 < String.length
                (replace_char " " "-" (replace_char Task.double_quote "" t)))%nat ->
        Task.sanitize input_text = "").
Proof.
  assert (forall c : ascii, lacks c "") as Hnil by (intros c; apply not_elem_of_nil).
  unfold Task.sanitize. destruct input_text as [t|].
  2:{ refine (conj _ (conj (Hnil _) (conj (Hnil _) _))); [simpl; lia | discriminate]. }
  destruct (String.eqb_spec t "N/A") as [->|Hna].
  { refine (conj _ (conj (Hnil _) (conj (Hnil _) _))); [simpl; lia|].
    now intros t [= <-]. }
  destruct (30 <? _)%nat eqn:Hlen.
  - refine (conj _ (conj (Hnil _) (conj (Hnil _) _))); [simpl; lia|]. reflexivity.
  - apply Nat.ltb_ge in Hlen. split; [exact Hlen|]. split; [|split].
    + apply replace_char_lacks. intros Hin.
      apply list_elem_of_singleton in Hin. discriminate.
    + apply replace_char_keeps_lacking.
      * intros Hin. apply list_elem_of_singleton in Hin. discriminate.
      * apply replace_char_lacks, not_elem_of_nil.
    + intros t' [= <-] _ Hlong. lia.
Qed.

(** X3: the description of a text field.  With a content description the
    result is the input tag with that class around the text of the view, in
    which every ampersand has been replaced by the content description as
    well; without one, and with no ampersand in the text, it is the bare
    input tag around the text. *)
Theorem text_view_description (view : gmap string (option string)) :
  let content_description := safe_dict_get view "content_description" (Some "") in
  let view_text := safe_dict_get view "text" (Some "") in
  (content_description <> "" ->
   Task.get_text_view_description view
   = "<input class='" +:+ content_description +:+ "'>"
       +:+ replace view_text "&" content_description +:+ "</input>")
  /\ (content_description = "" -> lacks "&" view_text ->
      Task.get_text_view_description view
      = "<input>" +:+ view_text +:+ "</input>").
Proof.
  intros d t. unfold Task.get_text_view_description.
  fold d. fold t.
  assert ((if truthy t then replace "<input class='&'>#</input>" "#" t
           else replace "<input class='&'>#</input>" "#" "")
          = "<input class='&'>" +:+ t +:+ "</input>") as ->
    by now destruct t.
  split.
  - intros Hd. destruct d as [|c d]; [congruence|]. cbn [truthy].
    change "&" with (String "&"%char EmptyString).
    rewrite !replace_one_char, !replace_char_app.
    change (replace_char "&" (String c d) "<input class='&'>")
      with ("<input class='" +:+ String c d +:+ "'>").
    change (replace_char "&" (String c d) "</input>") with "</input>".
    now rewrite !append_assoc.
  - intros -> Ht. cbn [truthy]. unfold replace.
    change (replace_from 0 " class='&'" "" ("<input class='&'>" +:+ t +:+ "</input>"))
      with ("<input>" +:+ replace_from 0 " class='&'" "" (t +:+ "</input>")).
    rewrite (replace_from_lacks "&"); [reflexivity | |].
    + apply list_elem_of_In. simpl. tauto.
    + unfold lacks in *. rewrite list_ascii_app, elem_of_app.
      intros [?|Hin]; [easy|]. apply list_elem_of_In in Hin. simpl in Hin.
      intuition discriminate.
Qed.

(** X4: in [_extract_input_text] the test for a missing start marker
    never holds; when neither marker occurs in the text, the result is the
    text without its first len(start) - 1 characters, not the whole text.
    When the text begins with the start marker and the first end marker
    follows the body, the result is the body. *)
Theorem extract_input_text_markers :
  (forall text start,
      find text start + Z.of_nat (String.length start) <> -1)
  /\ (forall text start end_,
        contains start text = false -> contains end_ text = false ->
        String.list_ascii_of_string (Task.extract_input_text text start end_)
        = drop (String.length start - 1) (String.list_ascii_of_string text))
  /\ (forall start body end_ post,
        find (start +:+ body +:+ end_ +:+ post) end_
        = Z.of_nat (String.length start + String.length body) ->
        Task.extract_input_text (start +:+ body +:+ end_ +:+ post) start end_
        = body).
Proof.
  split; [|split].
  - intros text start. destruct start as [|c start].
    + rewrite find_empty_sub. simpl. lia.
    + unfold find. destruct (find_from_bounds 0 (String c start) text) as [->|H];
        simpl String.length; lia.
  - intros text start end_ Hs He. unfold Task.extract_input_text.
    unfold find. rewrite !find_from_missing by assumption.
    destruct start as [|c start]; [now rewrite contains_empty in Hs|].
    simpl String.length.
    replace (-1 + Z.of_nat (S (String.length start)))
      with (Z.of_nat (String.length start)) by lia.
    destruct (Z.of_nat (String.length start) =? -1) eqn:E;
      [apply Z.eqb_eq in E; lia|].
    change (negb (-1 =? -1)) with false. cbv iota.
    rewrite slice_from. simpl. now rewrite Nat.sub_0_r.
  - intros start body end_ post Hfind. unfold Task.extract_input_text.
    rewrite Hfind, (find_prefix start) by apply prefix_app.
    destruct (0 + Z.of_nat (String.length start) =? -1) eqn:E;
      [apply Z.eqb_eq in E; lia|].
    destruct (Z.of_nat (String.length start + String.length body) =? -1) eqn:E';
      [apply Z.eqb_eq in E'; lia|].
    cbn [negb]. unfold slice, slice_index.
    rewrite !string_length_app.
    destruct (0 + Z.of_nat (String.length start) <? 0) eqn:E1;
      [apply Z.ltb_lt in E1; lia|].
    destruct (Z.of_nat (String.length start + String.length body) <? 0) eqn:E2;
      [apply Z.ltb_lt in E2; lia|].
    rewrite !Z.min_l by lia.
    replace (Z.to_nat (0 + Z.of_nat (String.length start)))
      with (String.length start) by lia.
    replace (Z.to_nat (Z.of_nat (String.length start + String.length body)
                       - (0 + Z.of_nat (String.length start))))
      with (String.length body) by lia.
    apply substring_middle.
Qed.

Lemma existsb_flat_map {A B} (f : B -> bool) (g : A -> list B) (l : list A) :
  existsb f (flat_map g l) = existsb (fun a => existsb f (g a)) l.
Proof.
  induction l as [|a l IH]; [reflexivity|].
  simpl. now rewrite existsb_app, IH.
Qed.

Lemma existsb_filter {A} (f g : A -> bool) (l : list A) :
  existsb f (List.filter g l) = existsb (fun a => g a && f a) l.
Proof.
  induction l as [|a l IH]; [reflexivity|].
  simpl. destruct (g a); simpl; now rewrite IH.
Qed.

Lemma nav_pattern_words (f : string -> bool) (pattern : string) :
  In pattern Task.nav_patterns ->
  existsb (fun term => (3 <? String.length term)%nat && f term) (split_ws pattern)
  = existsb (fun pw => String.eqb pw.1 pattern && f pw.2) Task.nav_words.
Proof.
  intros Hin. simpl in Hin.
  repeat (destruct Hin as [<-|Hin];
          [vm_compute; repeat (destruct (f _)); reflexivity|]).
  destruct Hin.
Qed.

(** X5: [_has_navigation_hints] answers True exactly when a note that
    counts mentions one of the twelve gesture patterns and the text of the
    screen itself holds a word of that pattern that is longer than three
    letters; the word tap never counts. *)
Theorem navigation_hint_iff (app_notes : option (list Credentials.note_obj))
  (state_prompt : string) :
  Task.has_navigation_hints app_notes state_prompt = true
  <-> exists note pattern word,
        note ∈ Credentials.note_texts app_notes
        /\ (pattern, word) ∈ Task.nav_words
        /\ contains pattern (lower note) = true
        /\ contains word (lower state_prompt) = true.
Proof.
  unfold Task.has_navigation_hints, Credentials.note_texts.
  destruct app_notes as [note_objs|].
  2:{ split; [discriminate|]. intros (n & ? & ? & Hn & _).
      now apply elem_of_nil in Hn. }
  unfold Task.navigation_hints.
  rewrite existsb_flat_map. split.
  - intros H. apply existsb_exists in H as (note & Hnote & H).
    rewrite existsb_filter in H. apply existsb_exists in H as (pattern & Hpat & H).
    apply andb_true_iff in H as [Hc H].
    rewrite (nav_pattern_words _ _ Hpat) in H.
    apply existsb_exists in H as ([pat word] & Hpw & H).
    apply andb_true_iff in H as [Heq Hw]. apply String.eqb_eq in Heq.
    simpl in Heq, Hw. subst pat.
    exists note, pattern, word. repeat split; try assumption;
      now apply list_elem_of_In.
  - intros (note & pattern & word & Hnote & Hpw & Hc & Hw).
    assert (In pattern Task.nav_patterns) as Hpat.
    { apply list_elem_of_In in Hpw. simpl in Hpw.
      repeat (destruct Hpw as [[= <- <-]|Hpw]; [simpl; tauto|]). destruct Hpw. }
    apply existsb_exists. exists note. split; [now apply list_elem_of_In|].
    rewrite existsb_filter. apply existsb_exists. exists pattern.
    split; [exact Hpat|]. rewrite Hc. cbn [andb].
    rewrite (nav_pattern_words _ _ Hpat).
    apply existsb_exists. exists (pattern, word).
    split; [now apply list_elem_of_In|]. simpl.
    now rewrite String.eqb_refl, Hw.
Qed.

End TaskTextFacts.

(** The text Shopping list holds the keyword pin. *)
Lemma auth_keyword_anywhere_witness :
  Task.is_authentication_screen ("<p>Shop" +:+ "PIN" +:+ "g list</p>") = true.
Proof.
  apply (auth_keyword_anywhere "<p>Shop" "PIN" "g list</p>" "pin");
    [apply list_elem_of_In; simpl; tauto | reflexivity].
Defined.

(** An answer of 31 characters is not typed at all. *)
Lemma typed_text_is_short_and_plain_witness :
  Task.sanitize (Some "the quick brown fox jumps over.") = "".
Proof.
  apply (proj2 (proj2 (proj2 (typed_text_is_short_and_plain
                                (Some "the quick brown fox jumps over.")))))
    with (t := "the quick brown fox jumps over.");
    [reflexivity | discriminate | vm_compute; lia].
Defined.

(** The field labelled Name with the text R&D. *)
Lemma text_view_description_witness :
  Task.get_text_view_description Scenario.labelled_field
  = "<input class='Name'>RNameD</input>".
Proof.
  apply (proj1 (text_view_description Scenario.labelled_field)).
  vm_compute. discriminate.
Defined.

(** An answer without the markers loses its first five characters. *)
Lemma extract_input_text_markers_witness :
  String.list_ascii_of_string
    (Task.extract_input_text "hello world" "Text: " " Thought")
  = String.list_ascii_of_string " world".
Proof.
  apply (proj1 (proj2 extract_input_text_markers) "hello world" "Text: " " Thought");
    reflexivity.
Defined.

(** ** The loop over several passes *)

Section LoopRun.
Import Loop.

Variable event_count : Z.
Variable master_is_None : bool.

Lemma try_body_event (p : Pass) (l : Loop) (event : Generated) :
  try_body master_is_None p l = Ret (Some event) ->
  event <> GenFinished
  /\ pass_event master_is_None p l = Ret event.
Proof.
  unfold try_body. destruct (pass_event master_is_None p l) as [ev|e]; [|discriminate].
  cbn. destruct ev; try discriminate; destruct (add_event p); cbn;
    intros [= <-]; now split.
Qed.

Lemma start_pass_counted (p : Pass) (l : Loop) :
  counted event_count master_is_None l ->
  counted event_count master_is_None (start_pass event_count master_is_None p l).
Proof.
  intros (Hc & Hle & Hhead & Hfin). unfold start_pass.
  destruct (enabled p && (action_count l <? event_count)) eqn:Hg; [|exact (conj Hc (conj Hle (conj Hhead Hfin)))].
  apply andb_true_iff in Hg as [_ Hlt]. apply Z.ltb_lt in Hlt.
  destruct (try_body master_is_None p l) as [[event|]|e] eqn:Hb.
  - apply try_body_event in Hb as [Hne Hev]. unfold counted. cbn.
    rewrite length_app. cbn. repeat split; try lia.
    + intros Hm e. destruct (sent l) as [|x xs] eqn:Hs.
      * cbn. intros [= <-]. unfold pass_event in Hev.
        simpl in Hc. rewrite Hc, Hm in Hev. simpl in Hev. congruence.
      * cbn. intros [= <-]. now apply (Hhead Hm).
    + rewrite elem_of_app, list_elem_of_singleton. intros [?|?]; [easy | congruence].
  - exact (conj Hc (conj Hle (conj Hhead Hfin))).
  - destruct e; try exact (conj Hc (conj Hle (conj Hhead Hfin))).
Qed.

Lemma passes_counted (ps : list Pass) (l : Loop) :
  counted event_count master_is_None l ->
  counted event_count master_is_None (passes event_count master_is_None ps l).
Proof.
  revert l. induction ps as [|p ps IH]; intros l Hl; [exact Hl|].
  cbn. destruct (status l); [|exact Hl]. now apply IH, start_pass_counted.
Qed.

End LoopRun.

(** X6: whatever happens in the passes, [action_count] is the number of
    events [add_event] accepted, it never exceeds [event_count], the terminal
    signal FINISHED is never handed to [add_event], and with no master the
    first event sent is the forced KillAppEvent. *)
Theorem loop_counts_accepted_events (event_count : Z) (master_is_None : bool)
  (ps : list Loop.Pass) :
  let l := Loop.start event_count master_is_None ps in
  Loop.action_count l = Z.of_nat (length (Loop.sent l))
  /\ Loop.action_count l <= Z.max 0 event_count
  /\ (master_is_None = true ->
      forall e, head (Loop.sent l) = Some e -> e = GenEvent KillAppEvent)
  /\ GenFinished ∉ Loop.sent l.
Proof.
  apply passes_counted. unfold Loop.counted. cbn.
  repeat split; [lia | discriminate | apply not_elem_of_nil].
Qed.

Section StartFacts.
Import Loop.

Variable event_count : Z.
Variable master_is_None : bool.
Variable c : Start.policy_class.
Hypothesis no_parameter : Start.generate_event_params c <> 1%nat.

Lemma generate_event_raises (body : res Generated) :
  Start.generate_event c body = Raise TypeError.
Proof.
  unfold Start.generate_event, call.
  destruct (Nat.eqb_spec (Start.generate_event_params c) 1); [contradiction | reflexivity].
Qed.

Lemma start_pass_only_kill (x : bool * res Generated * res unit) (l : Loop) :
  only_kill l -> only_kill (start_pass event_count master_is_None (Start.pass_of c x) l).
Proof.
  destruct x as [[en body] add]. intros Hl. unfold start_pass.
  destruct (enabled _ && _); [|exact Hl].
  unfold try_body, pass_event. cbn [Start.pass_of generate_event add_event].
  rewrite generate_event_raises.
  destruct Hl as [[Hs Hc]|[Hs Hc]]; rewrite Hc; cbn [Z.eqb andb].
  - destruct master_is_None; cbn; [|now left].
    destruct add as [[]|e]; cbn.
    + right. now rewrite Hs.
    + destruct e; cbn; now left.
  - change (1 =? 0) with false. cbn. now right.
Qed.

Lemma passes_only_kill (xs : list (bool * res Generated * res unit)) (l : Loop) :
  only_kill l ->
  only_kill (passes event_count master_is_None (map (Start.pass_of c) xs) l).
Proof.
  revert l. induction xs as [|x xs IH]; intros l Hl; [exact Hl|].
  cbn. destruct (status l); [|exact Hl]. now apply IH, start_pass_only_kill.
Qed.

End StartFacts.

(** X7: [start] calls [generate_event] with the input manager, which the
    none policy and the replay policy do not accept: driven by [start], they
    never get to choose an event.  All the loop sends is the forced
    KillAppEvent of its first pass, and [action_count] stays at 1 at most. *)
Theorem start_never_runs_parameterless_policies
  (event_count : Z) (master_is_None : bool) (c : Start.policy_class)
  (xs : list (bool * res Generated * res unit)) :
  Start.generate_event_params c <> 1%nat ->
  let l := Loop.start event_count master_is_None (map (Start.pass_of c) xs) in
  (Loop.sent l = [] \/ Loop.sent l = [GenEvent KillAppEvent])
  /\ Loop.action_count l <= 1
  /\ (forall body, Start.generate_event c body = Raise TypeError).
Proof.
  intros Hc l.
  assert (Loop.only_kill l) as [[Hs Ha]|[Hs Ha]]
    by (apply passes_only_kill; [exact Hc | now left]).
  - split; [now left|]. split; [lia | now apply generate_event_raises].
  - split; [now right|]. split; [lia | now apply generate_event_raises].
Qed.

(** Three passes with the replay policy, whose body has a BACK to offer. *)
Lemma start_never_runs_parameterless_policies_witness :
  Loop.sent
    (Loop.start 10 true
       (map (Start.pass_of Start.UtgReplayPolicy)
            (replicate 3 (true, Ret (GenEvent BACK), Ret tt))))
  = [GenEvent KillAppEvent].
Proof.
  destruct (start_never_runs_parameterless_policies 10 true Start.UtgReplayPolicy
              (replicate 3 (true, Ret (GenEvent BACK), Ret tt)))
    as [[H|H] _]; [discriminate | discriminate H | exact H].
Defined.

(** ** State-based policies: what [generate_event] keeps and returns *)

Section WrapperFacts.
Import Based.

Context {ScriptEvent ViewTree : Type}.
Variable view_tree : DeviceState -> ViewTree.
Variable get_transformed_event :
  ScriptEvent -> @Policy ScriptEvent ViewTree -> Generated.

#[local] Abbreviation Policy := (@Policy ScriptEvent ViewTree).
#[local] Abbreviation generate_event :=
  (generate_event view_tree get_transformed_event).
#[local] Abbreviation run := (run view_tree get_transformed_event).

Lemma push_bounded_length {A} (n : nat) (l : list A) (x : A) :
  (length l <= n)%nat -> (length (push_bounded n l x) <= n)%nat.
Proof.
  intros Hl. unfold push_bounded.
  destruct (Nat.ltb_spec n (length (l ++ [x]))) as [Hlt|Hge]; [|exact Hge].
  rewrite length_drop, length_app. cbn. lia.
Qed.

Lemma push_bounded_last {A} (n : nat) (l : list A) (x : A) :
  (0 < n)%nat -> last (push_bounded n l x) = Some x.
Proof.
  intros Hn. unfold push_bounded.
  destruct (Nat.ltb_spec n (length (l ++ [x]))) as [Hlt|Hge]; [|apply last_snoc].
  rewrite length_app in Hlt. cbn in Hlt.
  destruct l as [|y l]; [cbn in Hlt; lia|]. cbn. rewrite drop_0. apply last_snoc.
Qed.

(** The fields a call leaves alone or extends. *)
Lemma finish_fields humanoid old event (p : Policy) :
  let p' := fst (finish humanoid old event p) in
  script p' = script p /\ script_events p' = script_events p
  /\ script_event_idx p' = script_event_idx p
  /\ current_state p' = current_state p
  /\ humanoid_view_trees p' = humanoid_view_trees p
  /\ humanoid_events p'
     = (if humanoid then push_bounded 3 (humanoid_events p) event
        else humanoid_events p)
  /\ utg p' = utg p.
Proof. unfold finish. destruct humanoid, old as [[?|]|]; cbn; repeat split. Qed.

Lemma from_utg_fields humanoid b (p : Policy) :
  let p' := fst (from_utg humanoid b p) in
  script p' = script p /\ script_events p' = script_events p
  /\ script_event_idx p' = script_event_idx p
  /\ current_state p' = current_state p
  /\ humanoid_view_trees p' = humanoid_view_trees p
  /\ (humanoid_events p' = humanoid_events p
      \/ exists e, humanoid_events p' = push_bounded 3 (humanoid_events p) e)
  /\ utg p' = utg p.
Proof.
  unfold from_utg. destruct b as [[old event]|e]; [|cbn; repeat split; now left].
  destruct (finish_fields humanoid (Some old) event p)
    as (? & ? & ? & ? & ? & He & ?).
  repeat split; try assumption.
  destruct humanoid; [right; now exists event | now left].
Qed.

Lemma generate_event_histories device_state humanoid b (p : Policy) :
  let p' := fst (generate_event device_state humanoid b p) in
  (humanoid_view_trees p' = humanoid_view_trees p
   \/ exists x, humanoid_view_trees p' = push_bounded 4 (humanoid_view_trees p) x)
  /\ (humanoid_events p' = humanoid_events p
      \/ exists e, humanoid_events p' = push_bounded 3 (humanoid_events p) e).
Proof.
  unfold Based.generate_event.
  destruct device_state as [current|]; [|cbn; split; now left].
  set (p0 := update_utg (set_current_state (Some current) p)).
  set (p1 := if humanoid then _ else p0).
  assert (humanoid_events p1 = humanoid_events p) as He1
    by (subst p1 p0; now destruct humanoid).
  assert (humanoid_view_trees p1 = humanoid_view_trees p
          \/ exists x, humanoid_view_trees p1
                       = push_bounded 4 (humanoid_view_trees p) x) as Ht1.
  { subst p1 p0. destruct humanoid; [right | now left].
    now exists (view_tree current). }
  clearbody p1. clear p0.
  assert (forall q : Policy,
             humanoid_view_trees q = humanoid_view_trees p1 ->
             humanoid_events q = humanoid_events p1 ->
             forall old event,
               let p' := fst (finish humanoid old event q) in
               (humanoid_view_trees p' = humanoid_view_trees p
                \/ exists x, humanoid_view_trees p'
                             = push_bounded 4 (humanoid_view_trees p) x)
               /\ (humanoid_events p' = humanoid_events p
                   \/ exists e, humanoid_events p'
                                = push_bounded 3 (humanoid_events p) e)) as Hfin.
  { intros q Hqt Hqe old event.
    destruct (finish_fields humanoid old event q) as (_ & _ & _ & _ & Ht & He & _).
    cbn. rewrite Ht, He, Hqt, Hqe, He1. split; [exact Ht1|].
    destruct humanoid; [right; now exists event | now left]. }
  assert (forall q : Policy,
             humanoid_view_trees q = humanoid_view_trees p1 ->
             humanoid_events q = humanoid_events p1 ->
             let p' := fst (from_utg humanoid b q) in
             (humanoid_view_trees p' = humanoid_view_trees p
              \/ exists x, humanoid_view_trees p'
                           = push_bounded 4 (humanoid_view_trees p) x)
             /\ (humanoid_events p' = humanoid_events p
                 \/ exists e, humanoid_events p'
                              = push_bounded 3 (humanoid_events p) e)) as Hutg.
  { intros q Hqt Hqe.
    destruct (from_utg_fields humanoid b q) as (_ & _ & _ & _ & Ht & He & _).
    cbn. rewrite Ht, Hqt. split; [exact Ht1|]. now rewrite Hqe, He1 in He. }
  destruct (script_events p1 !! script_event_idx p1) as [se|].
  - destruct (is_None _).
    + destruct (script _) as [op|]; [|now apply Hutg].
      destruct (op current) as [[|first events]|]; [| |now apply Hutg].
      * cbn. rewrite He1. split; [exact Ht1 | now left].
      * destruct (is_None _); [now apply Hutg | now apply Hfin].
    + now apply Hfin.
  - cbn [is_None]. destruct (script p1) as [op|]; [|now apply Hutg].
    destruct (op current) as [[|first events]|]; [| |now apply Hutg].
    * cbn. rewrite He1. split; [exact Ht1 | now left].
    * destruct (is_None _); [now apply Hutg | now apply Hfin].
Qed.

Lemma run_histories calls (p : Policy) :
  (length (humanoid_view_trees p) <= 4)%nat ->
  (length (humanoid_events p) <= 3)%nat ->
  (length (humanoid_view_trees (fst (run calls p))) <= 4)%nat
  /\ (length (humanoid_events (fst (run calls p))) <= 3)%nat.
Proof.
  revert p. induction calls as [|[[ds h] b] calls IH]; intros p Ht He; [now split|].
  cbn. destruct (generate_event ds h b p) as [p1 r] eqn:E.
  destruct (Based.run _ _ calls p1) as [p2 rs] eqn:E2.
  cbn. change p2 with (fst (p2, rs)). rewrite <- E2.
  destruct (generate_event_histories ds h b p) as [Ht1 He1].
  rewrite E in Ht1, He1. cbn in Ht1, He1.
  apply IH.
  - destruct Ht1 as [->|[x ->]]; [exact Ht | now apply push_bounded_length].
  - destruct He1 as [->|[e ->]]; [exact He | now apply push_bounded_length].
Qed.

(** X8: with a humanoid service the policy keeps the view trees of the
    last four states and the last three events, whatever the calls do; a
    call that reads a state puts its view tree last. *)
Theorem humanoid_history_is_bounded :
  (forall calls (p : Policy),
      (length (humanoid_view_trees p) <= 4)%nat ->
      (length (humanoid_events p) <= 3)%nat ->
      (length (humanoid_view_trees (fst (run calls p))) <= 4)%nat
      /\ (length (humanoid_events (fst (run calls p))) <= 3)%nat)
  /\ (forall current b (p : Policy),
        last (humanoid_view_trees (fst (generate_event (Some current) true b p)))
        = Some (view_tree current)).
Proof.
  split; [exact run_histories|].
  intros current b p. unfold Based.generate_event.
  set (p1 := set_humanoid_view_trees _ _).
  assert (last (humanoid_view_trees p1) = Some (view_tree current)) as H1
    by (apply push_bounded_last; lia).
  clearbody p1.
  assert (forall q : Policy,
             humanoid_view_trees q = humanoid_view_trees p1 ->
             forall old event,
               last (humanoid_view_trees (fst (finish true old event q)))
               = Some (view_tree current)) as Hfin.
  { intros q Hq old event.
    destruct (finish_fields true old event q) as (_ & _ & _ & _ & Ht & _).
    cbn in Ht. now rewrite Ht, Hq. }
  assert (forall q : Policy,
             humanoid_view_trees q = humanoid_view_trees p1 ->
             last (humanoid_view_trees (fst (from_utg true b q)))
             = Some (view_tree current)) as Hutg.
  { intros q Hq.
    destruct (from_utg_fields true b q) as (_ & _ & _ & _ & Ht & _).
    cbn in Ht. now rewrite Ht, Hq. }
  destruct (script_events p1 !! script_event_idx p1) as [se|].
  - destruct (is_None _).
    + destruct (script _) as [op|]; [|now apply Hutg].
      destruct (op current) as [[|first events]|]; [exact H1 | |now apply Hutg].
      destruct (is_None _); [now apply Hutg | now apply Hfin].
    + now apply Hfin.
  - cbn [is_None]. destruct (script p1) as [op|]; [|now apply Hutg].
    destruct (op current) as [[|first events]|]; [exact H1 | |now apply Hutg].
    destruct (is_None _); [now apply Hutg | now apply Hfin].
Qed.

(** X9: an event taken from the script is never returned.  Whenever the
    method returns an event, the state could not be read and the event is
    BACK, or the event is the one [generate_event_based_on_utg] gave; a
    pending scripted event is consumed and the call ends in the
    UnboundLocalError of [old_state]. *)
Theorem scripted_events_are_never_returned :
  (forall device_state humanoid b (p : Policy) event,
      snd (generate_event device_state humanoid b p) = Returned event ->
      (device_state = None /\ event = GenEvent BACK)
      \/ exists old_state, b = Ret (old_state, event))
  /\ (forall current humanoid b (p : Policy) script_event,
        script_events p !! script_event_idx p = Some script_event ->
        (forall q, get_transformed_event script_event q <> GenNone) ->
        snd (generate_event (Some current) humanoid b p)
        = Raised (UnboundLocalError "old_state")
        /\ script_event_idx (fst (generate_event (Some current) humanoid b p))
           = S (script_event_idx p)
        /\ last_event (fst (generate_event (Some current) humanoid b p))
           = last_event p).
Proof.
  assert (forall humanoid b (q : Policy) event,
             snd (from_utg humanoid b q) = Returned event ->
             exists old_state, b = Ret (old_state, event)) as Hutg.
  { intros humanoid b q event. unfold from_utg.
    destruct b as [[old ev]|e]; [|discriminate].
    cbn. intros [= <-]. now exists old. }
  split.
  - intros device_state humanoid b p event. unfold Based.generate_event.
    destruct device_state as [current|]; [|cbn; intros [= <-]; now left].
    set (p1 := if humanoid then _ else _). clearbody p1.
    intros H. right. revert H.
    destruct (script_events p1 !! script_event_idx p1) as [se|].
    + destruct (is_None _); [|discriminate].
      destruct (script _) as [op|]; [|now apply Hutg].
      destruct (op current) as [[|first events]|];
        [discriminate | |now apply Hutg].
      destruct (is_None _); [now apply Hutg | discriminate].
    + cbn [is_None]. destruct (script p1) as [op|]; [|now apply Hutg].
      destruct (op current) as [[|first events]|];
        [discriminate | |now apply Hutg].
      destruct (is_None _); [now apply Hutg | discriminate].
  - intros current humanoid b p se Hse Hev. unfold Based.generate_event.
    set (p1 := if humanoid then _ else _).
    assert (script_events p1 = script_events p
            /\ script_event_idx p1 = script_event_idx p
            /\ last_event p1 = last_event p) as (E1 & E2 & E3)
      by (subst p1; now destruct humanoid).
    clearbody p1. rewrite E1, E2, Hse.
    specialize (Hev p1).
    destruct (get_transformed_event se p1); cbn [is_None]; try contradiction;
      unfold finish; destruct humanoid; cbn; now rewrite E3.
Qed.

(** X10: what a call records in the UTG.  After a call that returned the
    event [generate_event_based_on_utg] gave, the next call that reads a
    state adds the transition by this event, from the state that call
    reported (the state it had read when it reported none) to the state now
    read, whatever the next call then does. *)
Theorem returned_event_becomes_utg_edge
  (s1 s2 : DeviceState) (h1 h2 : bool) (old : option DeviceState)
  (event : Generated) (b2 : res (option DeviceState * Generated)) (p : Policy) :
  script p = None ->
  script_events p !! script_event_idx p = None ->
  let p1 := fst (generate_event (Some s1) h1 (Ret (old, event)) p) in
  snd (generate_event (Some s1) h1 (Ret (old, event)) p) = Returned event
  /\ utg (fst (generate_event (Some s2) h2 b2 p1))
     = utg p ++ [(last_event p, last_state p, Some s1);
                 (event, Some (default s1 old), Some s2)].
Proof.
  intros Hs He.
  assert (forall (q : Policy) s h b,
             script q = None ->
             script_events q !! script_event_idx q = None ->
             generate_event (Some s) h b q
             = from_utg h b
                 (if h
                  then set_humanoid_view_trees
                         (push_bounded 4 (humanoid_view_trees q) (view_tree s))
                         (update_utg (set_current_state (Some s) q))
                  else update_utg (set_current_state (Some s) q))) as Hgen.
  { intros q s h b Hq1 Hq2. unfold Based.generate_event.
    set (q1 := if h then _ else _).
    assert (script_events q1 = script_events q
            /\ script_event_idx q1 = script_event_idx q
            /\ script q1 = script q) as (E1 & E2 & E3)
      by (subst q1; now destruct h).
    rewrite E1, E2, Hq2. cbn [is_None]. now rewrite E3, Hq1. }
  cbn zeta. rewrite (Hgen p s1 h1 _ Hs He). cbn zeta.
  set (q1 := if h1 then _ else _).
  assert (script q1 = None /\ script_events q1 = script_events p
          /\ script_event_idx q1 = script_event_idx p
          /\ current_state q1 = Some s1
          /\ utg q1 = utg p ++ [(last_event p, last_state p, Some s1)])
    as (F1 & F2 & F3 & F4 & F5) by (subst q1; now destruct h1).
  clearbody q1. unfold from_utg at 1 2.
  split; [reflexivity|].
  destruct (finish_fields h1 (Some old) event q1)
    as (G1 & G2 & G3 & G4 & _ & _ & G7).
  set (p1 := fst (finish h1 (Some old) event q1)) in *.
  assert (last_event p1 = event
          /\ last_state p1 = Some (default s1 old)) as [L1 L2].
  { subst p1. unfold finish. destruct h1, old; cbn; rewrite ?F4; now split. }
  rewrite Hgen by congruence.
  cbn zeta. set (q2 := if h2 then _ else _).
  assert (utg q2 = utg p1 ++ [(last_event p1, last_state p1, Some s2)]) as U2
    by (subst q2; now destruct h2).
  clearbody q2.
  destruct (from_utg_fields h2 b2 q2) as (_ & _ & _ & _ & _ & _ & U).
  cbn in U. rewrite U, U2, G7, F5, L1, L2. now rewrite <- app_assoc.
Qed.

(** X11: the naive and the manual policy declare
    [generate_event_based_on_utg] without the parameter it is called with.
    Every call of [generate_event] therefore ends in TypeError, or in BACK
    when the state could not be read; the body that chooses an event never
    runs, and the last event and last state of the policy never change. *)
Theorem parameterless_subclasses_never_choose (c : subclass)
  (calls : list (option DeviceState * bool * res (option DeviceState * Generated)))
  (p : Policy) :
  based_on_utg_params c <> 1%nat ->
  script p = None ->
  script_events p = [] ->
  let called :=
    map (fun x => (x.1, Based.generate_event_based_on_utg c x.2)) calls in
  Forall (fun r => r = Returned (GenEvent BACK) \/ r = Raised (Exn TypeError))
         (snd (run called p))
  /\ last_event (fst (run called p)) = last_event p
  /\ last_state (fst (run called p)) = last_state p.
Proof.
  intros Hc. cbn zeta. revert p.
  induction calls as [|[[ds h] body] calls IH]; intros p Hs He.
  { cbn. now repeat split. }
  assert (Based.generate_event_based_on_utg c body = Raise TypeError) as Hb.
  { unfold Based.generate_event_based_on_utg, call.
    destruct (Nat.eqb_spec (based_on_utg_params c) 1); [contradiction | reflexivity]. }
  cbn [map fst snd Based.run]. rewrite Hb.
  destruct (generate_event ds h (Raise TypeError) p) as [p1 r] eqn:E.
  assert ((r = Returned (GenEvent BACK) \/ r = Raised (Exn TypeError))
          /\ script p1 = None /\ script_events p1 = []
          /\ last_event p1 = last_event p /\ last_state p1 = last_state p)
    as (Hr & Hs1 & He1 & Hl1 & Hl2).
  { revert E. unfold Based.generate_event.
    destruct ds as [current|]; [|intros [= <- <-]; cbn; now repeat split; [left|..]].
    set (q := if h then _ else _).
    assert (script q = None /\ script_events q = []
            /\ last_event q = last_event p /\ last_state q = last_state p)
      as (Q1 & Q2 & Q3 & Q4) by (subst q; now destruct h).
    clearbody q. rewrite Q2, lookup_nil. cbn. rewrite Q1. cbn.
    intros [= <- <-]. repeat split; try assumption. now right. }
  specialize (IH p1 Hs1 He1).
  destruct (Based.run _ _ _ p1) as [p2 rs]. cbn in *.
  destruct IH as (IH1 & IH2 & IH3).
  split; [now constructor|]. split; congruence.
Qed.

End WrapperFacts.

(** After six polls four view trees and three events are kept. *)
Lemma humanoid_history_is_bounded_witness :
  (length (Based.humanoid_view_trees
             (fst (Based.run state_str Scenario.transformed_none
                     Scenario.six_taps Scenario.unscripted))) <= 4)%nat
  /\ (length (Based.humanoid_events
                (fst (Based.run state_str Scenario.transformed_none
                        Scenario.six_taps Scenario.unscripted))) <= 3)%nat.
Proof.
  apply (proj1 (humanoid_history_is_bounded state_str Scenario.transformed_none));
    simpl; lia.
Defined.

(** The pending scripted BACK is not returned. *)
Lemma scripted_events_are_never_returned_witness :
  snd (Based.generate_event state_str Scenario.transformed_back
         (Some Scenario.home_screen) false (Ret (None, GenNone)) Scenario.scripted)
  = Based.Raised (Based.UnboundLocalError "old_state").
Proof.
  apply (proj2 (scripted_events_are_never_returned state_str
                  Scenario.transformed_back)
           Scenario.home_screen false (Ret (None, GenNone)) Scenario.scripted tt);
    [reflexivity | discriminate].
Defined.

(** A tap chosen on the home screen, then the settings screen is read. *)
Lemma returned_event_becomes_utg_edge_witness :
  Based.utg
    (fst (Based.generate_event state_str Scenario.transformed_none
            (Some Scenario.settings_screen) false (Raise IndexError)
            (fst (Based.generate_event state_str Scenario.transformed_none
                    (Some Scenario.home_screen) false
                    (Ret (None, GenEvent (TouchEvent Scenario.ok_button)))
                    Scenario.unscripted))))
  = [(GenNone, None, Some Scenario.home_screen);
     (GenEvent (TouchEvent Scenario.ok_button), Some Scenario.home_screen,
      Some Scenario.settings_screen)].
Proof.
  apply (returned_event_becomes_utg_edge state_str Scenario.transformed_none
           Scenario.home_screen Scenario.settings_screen false false None
           (GenEvent (TouchEvent Scenario.ok_button)) (Raise IndexError)
           Scenario.unscripted); reflexivity.
Defined.

(** The naive policy on the home screen: the tap its body would choose is
    never returned. *)
Lemma parameterless_subclasses_never_choose_witness :
  Forall (fun r => r = Based.Returned (GenEvent BACK)
                   \/ r = Based.Raised (Based.Exn TypeError))
         (snd (Based.run state_str Scenario.transformed_none
                 [(Some Scenario.home_screen, false,
                   Based.generate_event_based_on_utg Based.UtgNaiveSearchPolicy
                     (Ret (None, GenEvent (TouchEvent Scenario.ok_button))))]
                 Scenario.unscripted)).
Proof.
  apply (parameterless_subclasses_never_choose state_str
           Scenario.transformed_none Based.UtgNaiveSearchPolicy
           [(Some Scenario.home_screen, false,
             Ret (None, GenEvent (TouchEvent Scenario.ok_button)))]
           Scenario.unscripted);
    [discriminate | reflexivity | reflexivity].
Defined.

(** ** The replay policy: the cursor and the end of a replay *)

Section ReplayRun.
Import Replay.

Lemma generate_event_stuck device app (p : Policy) (k : nat) :
  can_try p = false -> generate_event device app p k = (p, k, None).
Proof.
  unfold can_try, generate_event. intros H.
  destruct (Z.to_nat _); [reflexivity|]. cbn [tries]. now rewrite H.
Qed.

Lemma tries_none device app fuel (p p' : Policy) (k k' : nat) :
  (Z.to_nat (MAX_REPLY_TRIES - num_replay_tries p) <= fuel)%nat ->
  tries fuel device app p k = (p', k', None) ->
  can_try p' = false.
Proof.
  revert p k. induction fuel as [|fuel IH]; intros p k Hf.
  - cbn. intros [= <- <-]. unfold can_try.
    assert ((num_replay_tries p <? MAX_REPLY_TRIES) = false) as -> by lia.
    apply andb_false_r.
  - cbn [tries]. fold (can_try p). destruct (can_try p) eqn:G.
    + apply andb_true_iff in G as [_ G]. apply Z.ltb_lt in G.
      destruct (current_state (device k)); [|discriminate].
      destruct (first_match _ _ _) as [[j ed]|].
      * now destruct (negb _).
      * apply IH. cbn [num_replay_tries set_tries]. lia.
    + now intros [= <- <-].
Qed.

Lemma tries_some device app fuel (p p' : Policy) (k k' : nat) (r : option InputEvent) :
  tries fuel device app p k = (p', k', r) ->
  event_paths p' = event_paths p
  /\ (event_idx p <= event_idx p')%nat
  /\ (k <= k')%nat
  /\ forall e, r = Some e -> Replay.replayed app p p' e.
Proof.
  revert p k. induction fuel as [|fuel IH]; intros p k.
  - cbn. intros [= <- <- <-]. repeat split; try lia. discriminate.
  - cbn [tries]. destruct (_ && _).
    2:{ intros [= <- <- <-]. repeat split; try lia. discriminate. }
    destruct (current_state (device k)) as [cs|].
    2:{ intros [= <- <- <-]. cbn. repeat split; try lia.
        intros e [= <-]. left. now repeat split. }
    cbn [event_idx event_paths set_tries].
    destruct (first_match _ _ _) as [[j ed]|] eqn:M.
    + apply first_match_spec in M as (n & -> & Hl & _).
      rewrite lookup_drop in Hl.
      destruct (negb _); intros [= <- <- <-]; cbn; repeat split; try lia.
      * intros e [= <-]. right. left. now split.
      * intros e [= <-]. right. right. exists (event_idx p + n)%nat, ed.
        repeat split; [lia | exact Hl].
    + intros H. apply IH in H as (H1 & H2 & H3 & H4).
      cbn in H1, H2. split; [exact H1|]. split; [exact H2|]. split; [lia|].
      exact H4.
Qed.

(** The counter of tries: a call either resets it, by returning BACK or the
    event of a record, or leaves it raised by one for every poll made. *)
Lemma tries_counter device app fuel (p p' : Policy) (k k' : nat)
  (r : option InputEvent) :
  tries fuel device app p k = (p', k', r) ->
  (exists e, r = Some e /\ num_replay_tries p' = 0)
  \/ (num_replay_tries p' = num_replay_tries p + Z.of_nat (k' - k)
      /\ event_idx p' = event_idx p
      /\ (r = None
          \/ (r = Some (IntentEvent (ComponentIntent (component app)))
              /\ (k < k')%nat))).
Proof.
  revert p k. induction fuel as [|fuel IH]; intros p k.
  - cbn. intros [= <- <- <-]. right. rewrite Nat.sub_diag.
    split; [cbn; lia|]. split; [reflexivity | now left].
  - cbn [tries]. destruct (_ && _).
    2:{ intros [= <- <- <-]. right. rewrite Nat.sub_diag.
        split; [cbn; lia|]. split; [reflexivity | now left]. }
    destruct (current_state (device k)) as [cs|].
    2:{ intros [= <- <- <-]. left. now exists (KeyEvent "BACK"). }
    cbn [event_idx event_paths set_tries].
    destruct (first_match _ _ _) as [[j ed]|] eqn:M.
    + clear IH M. destruct (negb _); intros [= <- <- <-].
      * right. cbn [num_replay_tries event_idx set_tries].
        split; [lia|]. split; [reflexivity|]. right. split; [reflexivity | lia].
      * left. now exists (event ed).
    + intros H. pose proof (tries_some _ _ _ _ _ _ _ _ H) as (_ & _ & Hk & _).
      apply IH in H as [H|(H1 & H2 & H3)]; [now left|].
      right. cbn [num_replay_tries event_idx set_tries] in H1, H2.
      split; [lia|]. split; [exact H2|].
      destruct H3 as [H3|[H3 H4]]; [now left|]. right. split; [exact H3 | lia].
Qed.

End ReplayRun.

(** X12: in the replay policy an answer of None is final.  When
    [generate_event] returns no event, the records are used up or the
    counter of tries has reached MAX_REPLY_TRIES, the call has raised the
    counter by one for every poll it made, and from then on every call
    returns None at once, without reading the device and whatever the
    device would show.  The counter counts more than the polls that found no
    record: a call that returns the intent bringing the app to the
    foreground leaves the cursor where it is and the counter raised (unless
    that intent is itself the event of a record it replays). *)
Theorem replay_none_is_final (device device' : nat -> Replay.Poll)
  (app : Replay.App) (p p' : Replay.Policy) (k k' : nat) :
  Replay.generate_event device app p k = (p', k', None) ->
  ((length (Replay.event_paths p') <= Replay.event_idx p')%nat
   \/ MAX_REPLY_TRIES <= Replay.num_replay_tries p')
  /\ Replay.num_replay_tries p'
     = Replay.num_replay_tries p + Z.of_nat (k' - k)
  /\ (forall n k'',
        Replay.run n device' app p' k'' = (p', k'', replicate n None))
  /\ (forall (q q' : Replay.Policy) (j j' : nat),
        Replay.generate_event device app q j
        = (q', j', Some (IntentEvent (ComponentIntent (Replay.component app)))) ->
        Replay.num_replay_tries q' = 0
        \/ (Replay.num_replay_tries q'
            = Replay.num_replay_tries q + Z.of_nat (j' - j)
            /\ (j < j')%nat
            /\ Replay.event_idx q' = Replay.event_idx q)).
Proof.
  intros H. pose proof (tries_counter _ _ _ _ _ _ _ _ H) as Hc.
  apply tries_none in H; [|lia].
  split; [|split; [|split]].
  - unfold Replay.can_try in H. apply andb_false_iff in H as [H|H].
    + left. now apply Nat.ltb_ge.
    + right. lia.
  - destruct Hc as [(e & He & _)|(Hc & _)]; [discriminate | exact Hc].
  - intros n. induction n as [|n IH]; intros k''; [reflexivity|].
    cbn [Replay.run]. rewrite generate_event_stuck by exact H.
    now rewrite IH.
  - intros q q' j j' Hq.
    apply tries_counter in Hq as [(e & _ & He)|(H1 & H2 & [H3|[_ H3]])];
      [now left | discriminate | right; now repeat split].
Qed.

(** X13: the replay policy moves its cursor forward only.  A call that
    returns an event returns BACK for an unreadable state, the intent that
    brings the app to the foreground, or the event of a loadable record at or
    after the cursor, and then the cursor stands right after that record: no
    record is replayed twice and none out of order.  The records themselves
    are never changed. *)
Theorem replay_cursor_moves_forward (device : nat -> Replay.Poll)
  (app : Replay.App) (p p' : Replay.Policy) (k k' : nat) (r : option InputEvent) :
  Replay.generate_event device app p k = (p', k', r) ->
  Replay.event_paths p' = Replay.event_paths p
  /\ (Replay.event_idx p <= Replay.event_idx p')%nat
  /\ (k <= k')%nat
  /\ forall e, r = Some e -> Replay.replayed app p p' e.
Proof. apply tries_some. Qed.

(** With the app in the background the home screen is polled five times:
    each call returns the intent that brings the app to the foreground, the
    record of the home screen stays at the cursor, and the sixth call gives
    up for good, even on a device that shows the recorded screens with the
    app in the foreground. *)
Lemma replay_none_is_final_witness :
  Replay.run 6 Scenario.background_device Scenario.some_app
    (Replay.init Scenario.recorded) 0
  = (Replay.mkPolicy Scenario.recorded 2 5 None None, 5%nat,
     replicate 5 (Some (IntentEvent
                          (ComponentIntent (Replay.component Scenario.some_app))))
     ++ [None])
  /\ Scenario.recorded !! 2%nat
     = Some (Some (Replay.mkEventDict "home" (TouchEvent Scenario.ok_button)))
  /\ Replay.run 3 Scenario.replaying_device Scenario.some_app
       (Replay.mkPolicy Scenario.recorded 2 5 None None) 7
     = (Replay.mkPolicy Scenario.recorded 2 5 None None, 7%nat,
        replicate 3 None).
Proof.
  split; [reflexivity|]. split; [reflexivity|].
  apply (proj1 (proj2 (proj2
           (replay_none_is_final Scenario.background_device
              Scenario.replaying_device Scenario.some_app
              (Replay.mkPolicy Scenario.recorded 2 5 None None)
              (Replay.mkPolicy Scenario.recorded 2 5 None None)
              5 5 eq_refl)))).
Defined.

(** The first call on the recording of the scenario replays the record at
    index 2. *)
Lemma replay_cursor_moves_forward_witness :
  Replay.replayed Scenario.some_app (Replay.init Scenario.recorded)
    (Replay.mkPolicy Scenario.recorded 3 0
       (Some (TouchEvent Scenario.ok_button)) None)
    (TouchEvent Scenario.ok_button).
Proof.
  apply (proj2 (proj2 (proj2
           (replay_cursor_moves_forward Scenario.replaying_device
              Scenario.some_app (Replay.init Scenario.recorded)
              (Replay.mkPolicy Scenario.recorded 3 0
                 (Some (TouchEvent Scenario.ok_button)) None)
              0 1 (Some (TouchEvent Scenario.ok_button)) eq_refl)))).
  reflexivity.
Defined.

(** ** The naive policy: what is selected and what is remembered *)

Section NaiveFacts.
Import Naive.

Variable cfg : Config.
Variable p : Policy.
Variable state : DeviceState.

(** The three searches of [select_a_view] over the list of candidates. *)
Lemma select_a_view_searches :
  (forall l, shuffle_views (rnd cfg) l ≡ₚ l) ->
  exists views2 views3,
    (forall v, v ∈ views2 <-> selectable cfg state v)
    /\ views3 ≡ₚ views2
    /\ select_a_view cfg p state
       = match List.find (fun v => preferred v && unexplored p state v) views2 with
         | Some v => Some v
         | None =>
             match List.find (unexplored p state) views2 with
             | Some v => Some v
             | None =>
                 List.find
                   (fun v => bool_decide
                      (Exists (fun t => t.1.1 = view_str v)
                              (elements (state_transitions p))))
                   views3
             end
         end.
Proof.
  intros Hperm. unfold select_a_view.
  set (views0 := filter _ (views state)).
  set (views1 := if random_input cfg then _ else views0).
  set (views2 := match search_method cfg with
                 | POLICY_NAIVE_DFS => _ | POLICY_NAIVE_BFS => _ | _ => views1
                 end).
  set (views3 := if random_input cfg then _ else views2).
  exists views2, views3.
  assert (forall v, v ∈ views1
                    <-> v ∈ views state /\ view_enabled v = true
                        /\ view_children v = []) as H1.
  { intros v. assert (v ∈ views1 <-> v ∈ views0) as ->.
    { subst views1. destruct (random_input cfg); [|reflexivity].
      now rewrite (Hperm views0). }
    subst views0. rewrite list_elem_of_filter.
    destruct (view_enabled v), (view_children v); cbn; intuition congruence. }
  split; [|split].
  - intros v. unfold selectable. fold (mock_view_back state) in views2.
    subst views2. destruct (search_method cfg);
      rewrite ?elem_of_app, ?elem_of_cons, ?elem_of_nil, H1;
      intuition congruence.
  - subst views3. destruct (random_input cfg); [apply Hperm | reflexivity].
  - reflexivity.
Qed.

Lemma has_transition_decide (v : View) :
  bool_decide (Exists (fun t => t.1.1 = view_str v)
                      (elements (state_transitions p))) = true
  <-> has_transition p v.
Proof.
  rewrite bool_decide_eq_true, Exists_exists. unfold has_transition.
  split; intros (t & Ht & E); exists t; (split; [|exact E]);
    now apply elem_of_elements.
Qed.

(** X14: [select_a_view] of the naive policy, when shuffling only
    reorders.  A selected view is an enabled view without children or the
    mock BACK view, and it is unexplored in this activity or has a recorded
    transition.  An unexplored preferred button wins over everything else,
    any unexplored view over the explored ones, and the answer is None only
    when every candidate is explored and none has a recorded transition. *)
Theorem naive_selects_by_priority :
  (forall l, shuffle_views (rnd cfg) l ≡ₚ l) ->
  (forall v,
      select_a_view cfg p state = Some v ->
      selectable cfg state v
      /\ (unexplored p state v = true \/ has_transition p v))
  /\ (forall u,
        selectable cfg state u -> preferred u = true ->
        unexplored p state u = true ->
        exists v, select_a_view cfg p state = Some v
                  /\ preferred v = true /\ unexplored p state v = true)
  /\ (forall u,
        selectable cfg state u -> unexplored p state u = true ->
        exists v, select_a_view cfg p state = Some v
                  /\ unexplored p state v = true)
  /\ (select_a_view cfg p state = None ->
      forall u, selectable cfg state u ->
                unexplored p state u = false /\ ~ has_transition p u).
Proof.
  intros Hperm.
  destruct (select_a_view_searches Hperm) as (views2 & views3 & H2 & H3 & ->).
  assert (forall f v, List.find f views2 = Some v -> selectable cfg state v /\ f v = true)
    as Hfound2.
  { intros f v Hf. apply find_first in Hf as (pre & post & E & Fv & _).
    split; [|exact Fv]. apply H2. rewrite E, elem_of_app, elem_of_cons. auto. }
  split; [|split; [|split]].
  - intros v.
    destruct (List.find (fun v => preferred v && unexplored p state v) views2)
      as [v1|] eqn:F1.
    { intros [= <-]. apply Hfound2 in F1 as [Hs Hv].
      apply andb_true_iff in Hv as [_ Hv]. auto. }
    destruct (List.find (unexplored p state) views2) as [v2|] eqn:F2.
    { intros [= <-]. apply Hfound2 in F2 as [Hs Hv]. auto. }
    intros F3. apply find_first in F3 as (pre & post & E & Fv & _).
    split.
    + apply H2. rewrite <- H3, E, elem_of_app, elem_of_cons. auto.
    + right. now apply has_transition_decide.
  - intros u Hu Hp Hx.
    destruct (find_exists (fun v => preferred v && unexplored p state v) views2 u)
      as [v Hv]; [now apply H2 | now rewrite Hp, Hx|].
    rewrite Hv. exists v. split; [reflexivity|].
    apply Hfound2 in Hv as [_ Hv]. now apply andb_true_iff in Hv.
  - intros u Hu Hx.
    destruct (List.find (fun v => preferred v && unexplored p state v) views2)
      as [v1|] eqn:F1.
    { exists v1. split; [reflexivity|]. apply Hfound2 in F1 as [_ Hv].
      now apply andb_true_iff in Hv. }
    destruct (find_exists (unexplored p state) views2 u) as [v Hv];
      [now apply H2 | exact Hx|].
    rewrite Hv. exists v. split; [reflexivity|]. now apply Hfound2 in Hv.
  - destruct (List.find (fun v => preferred v && unexplored p state v) views2)
      as [v1|] eqn:F1; [discriminate|].
    destruct (List.find (unexplored p state) views2) as [v2|] eqn:F2;
      [discriminate|].
    intros F3 u Hu. split.
    + destruct (unexplored p state u) eqn:Hx; [|reflexivity].
      destruct (find_exists (unexplored p state) views2 u) as [v Hv];
        [now apply H2 | exact Hx | congruence].
    + intros Ht. apply has_transition_decide in Ht.
      assert (u ∈ views3) as Hu3 by (rewrite H3; now apply H2).
      destruct (find_exists
                  (fun v => bool_decide
                     (Exists (fun t => t.1.1 = view_str v)
                             (elements (state_transitions p))))
                  views3 u Hu3 Ht) as [v Hv].
      congruence.
Qed.

(** A selected view is unexplored or has a recorded transition, however
    the views are shuffled. *)
Lemma select_a_view_found (v : View) :
  select_a_view cfg p state = Some v ->
  unexplored p state v = true \/ has_transition p v.
Proof.
  unfold select_a_view.
  set (views2 := match search_method cfg with
                 | POLICY_NAIVE_DFS => _ | POLICY_NAIVE_BFS => _ | _ => _
                 end).
  clearbody views2.
  destruct (List.find _ views2) as [v1|] eqn:F1.
  { intros [= <-]. apply find_first in F1 as (_ & _ & _ & Fv & _).
    apply andb_true_iff in Fv as [_ Fv]. now left. }
  destruct (List.find (unexplored p state) views2) as [v2|] eqn:F2.
  { intros [= <-]. apply find_first in F2 as (_ & _ & _ & Fv & _). now left. }
  intros F3. apply find_first in F3 as (_ & _ & _ & Fv & _).
  right. now apply has_transition_decide.
Qed.

End NaiveFacts.

Section NaiveRun.
Import Naive.

Lemma save_state_transition_fields cfg ev old new (p : Policy) :
  explored_views (save_state_transition cfg ev old new p) = explored_views p
  /\ state_transitions p ⊆ state_transitions (save_state_transition cfg ev old new p).
Proof.
  unfold save_state_transition.
  destruct ev, old, new; try (split; reflexivity).
  destruct (is_different_from _ _ _); cbn; split; try reflexivity.
  apply union_subseteq_r.
Qed.

(** What a call of [generate_event_based_on_utg] keeps and returns. *)
Lemma naive_call cfg st (p : Policy) :
  let p' := fst (generate_event_based_on_utg cfg st p) in
  let r := snd (generate_event_based_on_utg cfg st p) in
  explored_views p ⊆ explored_views p'
  /\ state_transitions p ⊆ state_transitions p'
  /\ (forall v,
        r = Ret (TouchEvent v) ->
        (foreground_activity st, view_str v) ∈ explored_views p'
        /\ (unexplored p st v = false -> has_transition p' v))
  /\ (forall e,
        r = Ret e ->
        e = IntentEvent StartIntent \/ e = IntentEvent StopIntent
        \/ e = KeyEvent "BACK" \/ exists v, e = TouchEvent v).
Proof.
  unfold generate_event_based_on_utg.
  destruct (save_state_transition_fields cfg (last_event_str p) (last_state p)
              (Some st) p) as [E0 T0].
  set (p0 := save_state_transition _ _ _ _ p) in *. clearbody p0.
  assert (forall q : Policy,
             explored_views q = explored_views p ->
             state_transitions p ⊆ state_transitions q ->
             let res :=
               match select_a_view cfg q st with
               | Some view_to_touch =>
                   (save_explored_view st (view_str view_to_touch)
                      (set_flag (last_event_flag q +:+ EVENT_FLAG_TOUCH)
                                (Some (view_str view_to_touch)) q),
                    Ret (if PyStr.startswith (view_str view_to_touch) "BACK"
                         then KeyEvent "BACK" else TouchEvent view_to_touch))
               | None =>
                   (set_flag (last_event_flag q +:+ EVENT_FLAG_STOP_APP)
                             (Some EVENT_FLAG_STOP_APP) q,
                    Ret (IntentEvent StopIntent))
               end in
             explored_views p ⊆ explored_views (fst res)
             /\ state_transitions p ⊆ state_transitions (fst res)
             /\ (forall v,
                   snd res = Ret (TouchEvent v) ->
                   (foreground_activity st, view_str v) ∈ explored_views (fst res)
                   /\ (unexplored p st v = false -> has_transition (fst res) v))
             /\ (forall e,
                   snd res = Ret e ->
                   e = IntentEvent StartIntent \/ e = IntentEvent StopIntent
                   \/ e = KeyEvent "BACK" \/ exists v, e = TouchEvent v)) as Hcont.
  { intros q Eq Tq. cbn zeta.
    destruct (select_a_view cfg q st) as [view|] eqn:Sel; cbn.
    - split; [rewrite Eq; apply union_subseteq_r|]. split; [exact Tq|]. split.
      + intros v. destruct (PyStr.startswith _ _); [discriminate|].
        intros [= <-]. split; [now apply elem_of_union_l, elem_of_singleton|].
        intros Hx. apply select_a_view_found in Sel as [Sel|Sel]; [|exact Sel].
        unfold unexplored in *. rewrite Eq in Sel. congruence.
      + intros e. destruct (PyStr.startswith _ _); intros [= <-]; eauto.
    - split; [now rewrite Eq|]. split; [exact Tq|]. split; [discriminate|].
      intros e [= <-]. auto. }
  destruct (is_foreground cfg).
  { apply Hcont; [exact E0 | exact T0]. }
  destruct (_ >? _).
  { cbn. split; [now rewrite E0|]. split; [exact T0|]. split; discriminate. }
  destruct (PyStr.endswith _ _).
  { apply Hcont; [exact E0 | exact T0]. }
  cbn. split; [now rewrite E0|]. split; [exact T0|]. split; [discriminate|].
  intros e [= <-]. auto.
Qed.

Lemma naive_run_explored calls (p : Policy) :
  explored_views p ⊆ explored_views (fst (run calls p))
  /\ state_transitions p ⊆ state_transitions (fst (run calls p)).
Proof.
  revert p. induction calls as [|[cfg st] calls IH]; intros p; [now split|].
  cbn [run]. destruct (naive_call cfg st p) as (E & T & _).
  destruct (generate_event_based_on_utg cfg st p) as [p1 r]. cbn in E, T.
  set (p1' := mkPolicy _ _ _ _ (Some st)).
  destruct (IH p1') as [E' T']. destruct (run calls p1') as [p2 rs].
  cbn in *. split; etrans; eassumption.
Qed.

End NaiveRun.

(** X15: what the naive policy remembers.  Its sets of explored views and
    of state transitions only grow, along any run; a view it touches is in
    the explored set afterwards, and a view already explored in the activity
    is touched again only when a transition by a view of that name is
    recorded.  The events it returns are the start intent, the stop intent,
    the BACK key and touches, nothing else. *)
Theorem naive_remembers_what_it_touched (cfg : Config) (st : DeviceState)
  (p : Naive.Policy) :
  let p' := fst (Naive.generate_event_based_on_utg cfg st p) in
  let r := snd (Naive.generate_event_based_on_utg cfg st p) in
  (forall v,
      r = Ret (TouchEvent v) ->
      (foreground_activity st, view_str v) ∈ Naive.explored_views p'
      /\ (Naive.unexplored p st v = false -> Naive.has_transition p' v))
  /\ (forall e,
        r = Ret e ->
        e = IntentEvent StartIntent \/ e = IntentEvent StopIntent
        \/ e = KeyEvent "BACK" \/ exists v, e = TouchEvent v)
  /\ (forall calls,
        Naive.explored_views p ⊆ Naive.explored_views (fst (Naive.run calls p))
        /\ Naive.state_transitions p
           ⊆ Naive.state_transitions (fst (Naive.run calls p))).
Proof.
  destruct (naive_call cfg st p) as (_ & _ & H3 & H4).
  split; [exact H3|]. split; [exact H4|]. intros calls. apply naive_run_explored.
Qed.

(** On the home screen the unexplored OK button is selected. *)
Lemma naive_selects_by_priority_witness :
  exists v,
    Naive.select_a_view Scenario.naive_cfg Naive.init Scenario.home_screen = Some v
    /\ Naive.preferred v = true
    /\ Naive.unexplored Naive.init Scenario.home_screen v = true.
Proof.
  apply (proj1 (proj2 (naive_selects_by_priority Scenario.naive_cfg Naive.init
                         Scenario.home_screen (fun l => reflexivity _)))
           Scenario.ok_button);
    [left; split; [constructor | split; reflexivity] | reflexivity | reflexivity].
Defined.

(** The touch of the OK button on the home screen is remembered. *)
Lemma naive_remembers_what_it_touched_witness :
  ("MainActivity", "view_ok")
  ∈ Naive.explored_views
      (fst (Naive.generate_event_based_on_utg
              (mkConfig false POLICY_NAIVE_DFS None Scenario.identity_random true
                        Scenario.differs)
              Scenario.home_screen Naive.init)).
Proof.
  apply (proj1 (proj1 (naive_remembers_what_it_touched
                         (mkConfig false POLICY_NAIVE_DFS None
                                   Scenario.identity_random true Scenario.differs)
                         Scenario.home_screen Naive.init)
                  Scenario.ok_button eq_refl)).
Defined.

(** ** The greedy policy: when a call can fail *)

Section GreedyTotal.
Import Greedy.

Variable cfg : Config.
Variable utg : UTG.

Hypothesis no_humanoid : humanoid cfg = None.
Hypothesis graph_search :
  search_method cfg = POLICY_GREEDY_DFS \/ search_method cfg = POLICY_GREEDY_BFS.
Hypothesis shuffle_reorders : forall l, shuffle_events (rnd cfg) l ≡ₚ l.

Lemma candidate_events_with_back st :
  exists events, candidate_events cfg utg st = Ret events /\ BACK ∈ events.
Proof.
  unfold candidate_events. rewrite no_humanoid.
  destruct graph_search as [-> | ->]; eexists; (split; [reflexivity|]).
  - apply elem_of_app. right. now apply list_elem_of_singleton.
  - apply elem_of_cons. now left.
Qed.

Lemma select_event_returns st p : exists e, snd (select_event cfg utg st p) = Ret e.
Proof.
  unfold select_event.
  destruct (candidate_events_with_back st) as (events & -> & Hback).
  destruct (List.find _ events) as [e|]; [now exists e|].
  destruct (get_nav_target cfg utg st p) as [p1 target].
  destruct (match target with Some _ => _ | None => None end) as [e|];
    [now exists e|].
  destruct (random_explore p1); [|now eexists].
  destruct (shuffle_events (rnd cfg) events) as [|e l] eqn:S; [|now exists e].
  exfalso. rewrite <- (shuffle_reorders events), S in Hback.
  now apply elem_of_nil in Hback.
Qed.

End GreedyTotal.

(** X16: under greedy DFS or BFS without a humanoid service, and with a
    shuffle that only reorders, [generate_event_based_on_utg] of the greedy
    policy never raises: the list of candidates always holds BACK, so even
    the random pick has something to take. *)
Theorem greedy_always_returns_an_event (cfg : Config) (utg : UTG)
  (st : DeviceState) (p : Greedy.Policy) :
  humanoid cfg = None ->
  search_method cfg = POLICY_GREEDY_DFS \/ search_method cfg = POLICY_GREEDY_BFS ->
  (forall l, shuffle_events (rnd cfg) l ≡ₚ l) ->
  exists e, snd (Greedy.generate_event_based_on_utg cfg utg st p) = Ret e.
Proof.
  intros Hh Hs Hp. unfold Greedy.generate_event_based_on_utg.
  destruct (Greedy.on_depth st p) as [p1 [e|]]; [now exists e|].
  now apply select_event_returns.
Qed.

(** With nothing left to explore and random exploration on, BACK is taken. *)
Lemma greedy_always_returns_an_event_witness :
  exists e,
    snd (Greedy.generate_event_based_on_utg Scenario.greedy_cfg
           Scenario.exhausted_utg Scenario.home_screen
           (Greedy.mkPolicy None (-1) 0 0 "" ∅ true)) = Ret e.
Proof.
  apply (greedy_always_returns_an_event Scenario.greedy_cfg Scenario.exhausted_utg
           Scenario.home_screen (Greedy.mkPolicy None (-1) 0 0 "" ∅ true));
    [reflexivity | left; reflexivity | intros l; reflexivity].
Defined.

(** ** The task policy: the index the oracle answers *)

Section OracleIndex.
Import Task.

Variables (tools : Tools) (state_prompt : string).

(** X17: what the answer of the oracle selects, for every index but -1.
    With [n] candidate actions, an index below -n, or any index when there is
    no candidate, raises IndexError; every other index selects an action: the
    first one for an index of n or more, the one counted from the end for a
    negative index.  A selected text field gets the text of the answer, and
    the list of candidates handed back differs from the one given at that
    position only. *)
Theorem oracle_index_selects (candidate_actions : list Action) (given : bool)
  (reply : OracleReply) (idx : Z) :
  reply_idx reply = Ret idx ->
  idx <> -1 ->
  let n := length candidate_actions in
  ((idx < - Z.of_nat n \/ n = 0%nat) ->
   handle_reply tools state_prompt candidate_actions given reply = Raise IndexError)
  /\ (- Z.of_nat n <= idx -> n <> 0%nat ->
      exists a d,
        candidate_actions !! selected_position n idx = Some a
        /\ handle_reply tools state_prompt candidate_actions given reply = Ret d
        /\ chosen d = ChosenAction (with_input (reply_input_text reply) a)
        /\ candidates d
           = Some (<[selected_position n idx
                     := with_input (reply_input_text reply) a]> candidate_actions)).
Proof.
  intros Hidx Hne n. unfold handle_reply. rewrite Hidx. cbn [mbind res_bind].
  assert ((idx =? -1) = false) as -> by lia.
  fold n. unfold selected_position.
  destruct (idx >=? Z.of_nat n) eqn:Hge.
  - (* clamped to 0 *)
    split.
    + intros [Hlow|Hz]; [lia|]. subst n.
      destruct candidate_actions; [reflexivity | discriminate].
    + intros _ Hn. destruct candidate_actions as [|a l]; [now subst n|].
      exists a. cbn [py_index]. unfold py_index. cbn [length lookup].
      destruct a as [[]|]; cbn; eexists; repeat split; reflexivity.
  - assert (idx < Z.of_nat n) as Hlt by lia.
    unfold py_index, py_setitem. fold n.
    destruct (idx <? 0) eqn:Hneg.
    + assert ((0 <=? idx) = false) as -> by lia. cbn [andb].
      destruct (- Z.of_nat n <=? idx) eqn:Hlow; cbn [andb].
      * split; [intros [?|Hz]; lia|]. intros _ _.
        destruct (lookup_lt_is_Some_2 candidate_actions (Z.to_nat (Z.of_nat n + idx)))
          as [a Ha]; [fold n; lia|].
        replace (idx + Z.of_nat n) with (Z.of_nat n + idx) by lia.
        exists a. rewrite Ha. cbn [mbind res_bind].
        destruct a as [[]|]; cbn; fold n;
          rewrite ?Hneg, ?Hlow; cbn [Z.leb andb];
          assert ((0 <=? idx) = false) as E by lia; rewrite ?E; cbn [andb];
          rewrite ?Hlow; cbn;
          eexists; repeat split; try reflexivity;
          rewrite ?list_insert_id by exact Ha; reflexivity.
      * split; [reflexivity|]. intros; lia.
    + assert ((0 <=? idx) = true) as E0 by lia.
      assert ((idx <? Z.of_nat n) = true) as E1 by lia.
      rewrite E0, E1. cbn [andb].
      split; [intros [?|Hz]; lia|]. intros _ _.
      destruct (lookup_lt_is_Some_2 candidate_actions (Z.to_nat idx))
        as [a Ha]; [fold n; lia|].
      exists a. rewrite Ha. cbn [mbind res_bind].
      destruct a as [[]|]; cbn; fold n; rewrite ?E0, ?E1; cbn;
        eexists; repeat split; try reflexivity;
        rewrite ?list_insert_id by exact Ha; reflexivity.
Qed.

End OracleIndex.

(** The answer -2 with three candidates selects the second one. *)
Lemma oracle_index_selects_witness :
  exists a d,
    Scenario.three_actions !! Task.selected_position 3 (-2) = Some a
    /\ Task.handle_reply Scenario.plain_tools "screen" Scenario.three_actions
         false (Scenario.oracle_says (-2)) = Ret d
    /\ Task.chosen d = Task.ChosenAction (Task.with_input None a)
    /\ Task.candidates d
       = Some (<[Task.selected_position 3 (-2) := Task.with_input None a]>
                 Scenario.three_actions).
Proof.
  apply (proj2 (oracle_index_selects Scenario.plain_tools "screen"
                  Scenario.three_actions false (Scenario.oracle_says (-2)) (-2)
                  eq_refl ltac:(discriminate)));
    [simpl; lia | discriminate].
Defined.

(** ** The task policy: the two histories *)

Section TaskHistory.
Import Task.

Context {D : Type} (device : Device D).
Variables (tools : Tools) (app_name : string) (task : option string).
Variable app_notes : option (list Credentials.note_obj).

Lemma on_depth_history st (p : Policy) :
  let p' := fst (on_depth app_name task st p) in
  match snd (on_depth app_name task st p) with
  | Some _ =>
      (action_history p' = ["- launchApp " +:+ app_name]
       /\ length (thought_history p') = 1%nat)
      \/ (exists a t, action_history p' = action_history p ++ [a]
                      /\ thought_history p' = thought_history p ++ [t])
  | None =>
      action_history p' = action_history p
      /\ thought_history p' = thought_history p
  end.
Proof.
  unfold on_depth.
  set (p0 := if bool_decide _ then _ else p).
  assert (action_history p0 = action_history p
          /\ thought_history p0 = thought_history p) as [A0 T0]
    by (subst p0; now destruct (bool_decide _)).
  clearbody p0.
  destruct (app_activity_depth st <? 0).
  - set (p1 := if _ || _ then _ else _).
    assert (action_history p1 = action_history p
            /\ thought_history p1 = thought_history p) as [A1 T1]
      by (subst p1; now destruct (_ || _)).
    clearbody p1.
    destruct (negb _); [|now cbn].
    destruct (_ >? _); cbn; [now split | now left].
  - destruct (app_activity_depth st >? 0); [|now cbn].
    destruct (_ >? _); [|now cbn].
    cbn. right. rewrite A0, T0. now eexists _, _.
Qed.

(** X18: the action history and the thought history of the task policy
    keep the same length.  A call that returns an event resets both to one
    entry (the launch of the app) or adds one entry to each; a call that
    returns FINISHED or raises leaves both as they are. *)
Theorem task_histories_stay_aligned (reply : OracleReply) (st : DeviceState)
  (p : Policy) (w : World D) :
  let result := generate_event_based_on_utg device tools app_name task app_notes
                  reply st p w in
  let p' := snd (fst result) in
  (length (action_history p) = length (thought_history p) ->
   length (action_history p') = length (thought_history p'))
  /\ (forall last e,
        snd result = Ret (last, GenEvent e) ->
        length (action_history p') = 1%nat
        \/ length (action_history p') = S (length (action_history p)))
  /\ ((snd result = Ret (None, GenFinished) \/ exists e, snd result = Raise e) ->
      action_history p' = action_history p
      /\ thought_history p' = thought_history p).
Proof.
  cbn zeta. unfold generate_event_based_on_utg.
  pose proof (on_depth_history st p) as Hd. cbn zeta in Hd.
  destruct (on_depth app_name task st p) as [p1 [event|]]; cbn [fst snd] in Hd.
  { cbn [fst snd]. split; [|split].
    - intros Hl. destruct Hd as [[-> ->]|(a & t & -> & ->)]; [reflexivity|].
      rewrite !length_app. cbn. lia.
    - intros last e _. destruct Hd as [[-> _]|(a & t & -> & _)]; [now left|].
      right. rewrite length_app. cbn. lia.
    - intros [H|[e H]]; discriminate H. }
  destruct Hd as [A1 T1].
  assert (forall (w' : World D) (decision : res Decision),
             let result :=
               match decision with
               | Raise e => (w', p1, Raise e)
               | Ret decision =>
                   match chosen decision with
                   | ChosenFinished => (w', p1, Ret (None, GenFinished))
                   | ChosenAction (Sequence events) =>
                       match send_but_last device events None w' with
                       | (w'', _, Raise e) => (w'', p1, Raise e)
                       | (w'', last_state, Ret event) =>
                           (w'',
                            add_history
                              (get_action_descv2 tools st event
                                 (view_description decision))
                              (default "" (thought decision)) p1,
                            Ret (last_state, GenEvent event))
                       end
                   | ChosenAction (Single event) =>
                       (w',
                        add_history
                          (get_action_descv2 tools st event
                             (view_description decision))
                          (default "" (thought decision)) p1,
                        Ret (None, GenEvent event))
                   end
               end in
             (length (action_history p) = length (thought_history p) ->
              length (action_history (snd (fst result)))
              = length (thought_history (snd (fst result))))
             /\ (forall last e,
                   snd result = Ret (last, GenEvent e) ->
                   length (action_history (snd (fst result))) = 1%nat
                   \/ length (action_history (snd (fst result)))
                      = S (length (action_history p)))
             /\ ((snd result = Ret (None, GenFinished)
                  \/ exists e, snd result = Raise e) ->
                 action_history (snd (fst result)) = action_history p
                 /\ thought_history (snd (fst result)) = thought_history p))
    as Hfinish.
  { intros w' decision. cbn zeta.
    assert (forall a t,
               length (action_history p) = length (thought_history p) ->
               length (action_history (add_history a t p1))
               = length (thought_history (add_history a t p1))) as Hadd.
    { intros a t Hl. cbn. rewrite !length_app, A1, T1. cbn. lia. }
    assert (forall a t,
               length (action_history (add_history a t p1))
               = S (length (action_history p))) as Hadd1.
    { intros a t. cbn. rewrite length_app, A1. cbn. lia. }
    destruct decision as [decision|e]; cbn [fst snd].
    2:{ split; [now rewrite A1, T1|]. split; [discriminate | now intros _]. }
    destruct (chosen decision) as [|[event|events]]; cbn [fst snd].
    - split; [now rewrite A1, T1|]. split; [discriminate | now intros _].
    - split; [apply Hadd|]. split; [intros; right; apply Hadd1|].
      intros [H|[e H]]; discriminate H.
    - destruct (send_but_last device events None w') as [[w'' last] [event|e]];
        cbn [fst snd].
      + split; [apply Hadd|]. split; [intros; right; apply Hadd1|].
        intros [H|[e H]]; discriminate H.
      + split; [now rewrite A1, T1|]. split; [discriminate | now intros _]. }
  destruct (scrollable_views st) as [|scroller scrollers]; [apply Hfinish|].
  destruct (flatten_scrollers device st (scroller :: scrollers) _ w)
    as [w' [whole|e]]; [apply Hfinish|].
  cbn [fst snd]. split; [now rewrite A1, T1|]. split; [discriminate | now intros _].
Qed.

End TaskHistory.

(** A tap chosen by the oracle on the home screen adds one entry to each
    history. *)
Lemma task_histories_stay_aligned_witness :
  length (Task.action_history
            (snd (fst (Task.generate_event_based_on_utg Scenario.long_list
                         Scenario.plain_tools "app" None None
                         (Scenario.oracle_says 0) Scenario.home_screen
                         (Task.init false) (Task.mkWorld 0%nat [] [])))))
  = length (Task.thought_history
              (snd (fst (Task.generate_event_based_on_utg Scenario.long_list
                           Scenario.plain_tools "app" None None
                           (Scenario.oracle_says 0) Scenario.home_screen
                           (Task.init false) (Task.mkWorld 0%nat [] []))))).
Proof.
  apply (proj1 (task_histories_stay_aligned Scenario.long_list
                  Scenario.plain_tools "app" None None (Scenario.oracle_says 0)
                  Scenario.home_screen (Task.init false)
                  (Task.mkWorld 0%nat [] []))).
  reflexivity.
Defined.

(** ** The task policy: the authentication shortcut *)

Section AuthShortcut.
Import Task.

Lemma first_line_first {A} (f : string -> option A) (lines : list string)
  (k i : nat) (line : string) (a : A) :
  lines !! i = Some line ->
  f line = Some a ->
  (forall j l, (j < i)%nat -> lines !! j = Some l -> f l = None) ->
  first_line f lines k = Some ((k + i)%nat, a).
Proof.
  revert k i. induction lines as [|l lines IH]; intros k i Hi Hf Hb; [discriminate|].
  destruct i as [|i]; cbn [first_line].
  - cbn in Hi. injection Hi as ->. rewrite Hf. now rewrite Nat.add_0_r.
  - rewrite (Hb 0%nat l) by (lia || reflexivity).
    replace (k + S i)%nat with (S k + i)%nat by lia.
    apply IH; [exact Hi | exact Hf|].
    intros j l' Hj Hl'. apply (Hb (S j) l'); [lia | exact Hl'].
Qed.

Lemma pin_field_is_authentication state_prompt :
  has_pin_field state_prompt = true ->
  is_authentication_screen state_prompt = true.
Proof.
  unfold has_pin_field, is_authentication_screen. intros H.
  apply andb_true_iff in H as [_ H]. apply orb_true_iff. left.
  apply existsb_exists. exists "pin". split; [simpl; tauto | exact H].
Qed.

(** X19: on a screen with an input field that mentions a PIN, the oracle
    is not asked.  When the credentials hold a PIN and the candidate action
    at the index of the first line of the prompt that shows an input with
    pin or digit is a text field, the policy returns the action that types
    the PIN there, whatever the oracle would answer; with no notes
    configured the PIN typed is 1234. *)
Theorem pin_screen_bypasses_the_oracle (tools : Tools)
  (app_notes : option (list Credentials.note_obj)) (state_prompt : string)
  (candidate_actions : list Action) (given : bool)
  (i : nat) (line : string) (view : View) (old pin : string) :
  has_pin_field state_prompt = true ->
  Credentials.dict_get (auth_credentials app_notes state_prompt) "pin" = Some pin ->
  PyStr.split_char "010" state_prompt !! i = Some line ->
  pin_field_line line = true ->
  (forall j l, (j < i)%nat -> PyStr.split_char "010" state_prompt !! j = Some l ->
               pin_field_line l = false) ->
  candidate_actions !! i = Some (Single (SetTextEvent view old)) ->
  (forall reply,
      get_action tools app_notes state_prompt candidate_actions given reply
      = Ret (mkDecision
               (ChosenAction (Single (SetTextEvent view pin)))
               (Some (<[i := Single (SetTextEvent view pin)]> candidate_actions))
               (Some (get_item_properties_from_id tools state_prompt (Z.of_nat i)))
               (Some ("Using pin '" +:+ pin +:+ "' from app notes for authentication"))
               None))
  /\ (app_notes = None -> pin = "1234").
Proof.
  intros Hpin Hcred Hline Hf Hbefore Hcand. split.
  - intros reply. unfold get_action.
    rewrite (pin_field_is_authentication _ Hpin).
    unfold try_direct_auth_action.
    rewrite (pin_field_is_authentication _ Hpin). cbn [negb].
    destruct (auth_credentials app_notes state_prompt) as [|c cs] eqn:Hc;
      [discriminate|].
    assert (first_input_index (c :: cs) state_prompt = Some (i, "pin")) as ->.
    { unfold first_input_index. fold (has_pin_field state_prompt).
      unfold Credentials.dict_has. rewrite Hcred, Hpin. cbn [andb].
      rewrite (first_line_first _ _ 0 i line "pin" Hline); [reflexivity| |].
      - fold (pin_field_line line). now rewrite Hf.
      - intros j l Hj Hl. fold (pin_field_line l). now rewrite (Hbefore j l Hj Hl). }
    rewrite Hcand, Hcred. reflexivity.
  - intros ->. unfold auth_credentials in Hcred.
    change (Credentials.extract_credentials_from_notes None None)
      with [("pin", "1234")] in Hcred.
    destruct (_ && _) in Hcred; cbn in Hcred; congruence.
Qed.

End AuthShortcut.

(** The PIN screen of the scenario with no notes: 1234 goes into the field
    at index 1, although the oracle says the task is finished. *)
Lemma pin_screen_bypasses_the_oracle_witness :
  Task.get_action Scenario.plain_tools None Scenario.pin_prompt
    Scenario.pin_actions false (Scenario.oracle_says (-1))
  = Ret (Task.mkDecision
           (Task.ChosenAction (Single (SetTextEvent Scenario.pin_view "1234")))
           (Some (<[1%nat := Single (SetTextEvent Scenario.pin_view "1234")]>
                    Scenario.pin_actions))
           (Some (Task.get_item_properties_from_id Scenario.plain_tools
                    Scenario.pin_prompt 1))
           (Some ("Using pin '" +:+ "1234" +:+ "' from app notes for authentication"))
           None).
Proof.
  refine (proj1 (pin_screen_bypasses_the_oracle Scenario.plain_tools None
                   Scenario.pin_prompt Scenario.pin_actions false 1
                   "<input id=1>Enter PIN</input>" Scenario.pin_view "" "1234"
                   _ _ _ _ _ _) _);
    try reflexivity.
  intros j l Hj. destruct j as [|j]; [|lia]. intros [= <-]. reflexivity.
Defined.

(** ** The task policy: the views and actions gathered by scrolling *)

Section FlattenFacts.
Import Task.

Context {D : Type} (device : Device D).

(** Every state the device shows lists as many actions as views. *)
Hypothesis aligned_states :
  forall d s, get_current_state device d = Some s ->
              length (described_views s) = length (described_actions s).

Lemma add_scrolled_aligned scroller prefix scrolled_views actions_of
  (id : nat) (found views : list string) (actions : list Action) :
  (id + length scrolled_views <= length actions_of)%nat ->
  length views = length actions ->
  exists found' new,
    add_scrolled scroller prefix scrolled_views actions_of id found views actions
    = Ret (found', views ++ new.*1, actions ++ new.*2)
    /\ (NoDup views -> NoDup (views ++ new.*1))
    /\ (forall v, v ∈ scrolled_views -> v ∈ views ++ new.*1).
Proof.
  revert id found views actions.
  induction scrolled_views as [|sv rest IH]; intros id found views actions Hid Hlen.
  - exists found, []. cbn. rewrite !app_nil_r. repeat split; [auto|].
    intros v Hv. now apply elem_of_nil in Hv.
  - cbn [add_scrolled]. cbn [length] in Hid.
    destruct (bool_decide_reflect (sv ∈ views)) as [Hin|Hnin].
    + destruct (IH (S id) found views actions) as (found' & new & E & Hnd & Hall);
        [lia | exact Hlen|].
      exists found', new. split; [exact E|]. split; [exact Hnd|].
      intros v Hv. apply elem_of_cons in Hv as [->|Hv]; [|now apply Hall].
      apply elem_of_app. now left.
    + destruct (lookup_lt_is_Some_2 actions_of id) as [action Ha]; [lia|].
      rewrite Ha.
      destruct (IH (S id) (found ++ [sv]) (views ++ [sv])
                  (actions ++ [Sequence (prefix ++ [DOWN scroller; action])]))
        as (found' & new & E & Hnd & Hall);
        [lia | rewrite !length_app; cbn; lia|].
      exists found',
        ((sv, Sequence (prefix ++ [DOWN scroller; action])) :: new).
      cbn [fmap list_fmap fst snd].
      rewrite E. rewrite <- !app_assoc. cbn [app]. split; [reflexivity|].
      split.
      * intros Hv.
        replace (views ++ sv :: new.*1) with ((views ++ [sv]) ++ new.*1)
          by now rewrite <- app_assoc.
        apply Hnd. apply NoDup_app. split; [exact Hv|]. split.
        -- intros x Hx Hx'. apply list_elem_of_singleton in Hx'. now subst.
        -- apply NoDup_singleton.
      * intros v Hv.
        replace (views ++ sv :: new.*1) with ((views ++ [sv]) ++ new.*1)
          by now rewrite <- app_assoc.
        apply elem_of_cons in Hv as [->|Hv]; [|now apply Hall].
        apply elem_of_app. left. apply elem_of_app. right.
        now apply list_elem_of_singleton.
Qed.

(** A loop ends by a [return], or in the AttributeError of a state that
    could not be read. *)
#[local] Abbreviation unreadable :=
  (exists d0, get_current_state device d0 = None).

Lemma scroll_to_top_loop_ends n scroller old mark prefix (w : World D) :
  (exists res, snd (scroll_to_top_loop device n scroller old mark prefix w) = Ret res)
  \/ (snd (scroll_to_top_loop device n scroller old mark prefix w)
      = Raise AttributeError /\ unreadable).
Proof.
  revert old mark prefix w. induction n as [|n IH]; intros old mark prefix w.
  { left. now eexists. }
  cbn [scroll_to_top_loop].
  destruct (poll device (send device (UP scroller) w)) as [scrolled|] eqn:P.
  - destruct (new_views _ _) as [[|v vs] mark'].
    + left. now eexists.
    + apply IH.
  - right. split; [reflexivity|].
    now exists (dev (send device (UP scroller) w)).
Qed.

Lemma scroll_down_loop_aligned n scroller (d : Down) (w : World D) :
  length (all_views_without_id d) = length (all_actions d) ->
  (exists d',
      snd (scroll_down_loop device n scroller d w) = Ret d'
      /\ length (all_views_without_id d') = length (all_actions d')
      /\ forall v, v ∈ all_views_without_id d -> v ∈ all_views_without_id d')
  \/ (snd (scroll_down_loop device n scroller d w) = Raise AttributeError
      /\ unreadable).
Proof.
  revert d w. induction n as [|n IH]; intros d w Hd.
  { left. exists d. now repeat split. }
  cbn [scroll_down_loop].
  destruct (poll device (send device (DOWN scroller) w)) as [scrolled|] eqn:P.
  2:{ right. split; [reflexivity|].
      now exists (dev (send device (DOWN scroller) w)). }
  destruct (add_scrolled_aligned scroller (prefix_scroll_event d)
              (described_views scrolled) (described_actions scrolled) 0 []
              (all_views_without_id d) (all_actions d))
    as (found & new & -> & _ & _).
  { cbn. rewrite (aligned_states _ _ P). lia. }
  { exact Hd. }
  assert (length (all_views_without_id d ++ new.*1)
          = length (all_actions d ++ new.*2)) as Hlen
    by (rewrite !length_app, !length_fmap; lia).
  assert (forall v, v ∈ all_views_without_id d
                    -> v ∈ all_views_without_id d ++ new.*1) as Hin
    by (intros v Hv; apply elem_of_app; now left).
  destruct (length found =? 0)%nat.
  { left. eexists. split; [reflexivity|]. now split. }
  destruct (_ >=? 2).
  { left. eexists. split; [reflexivity|]. now split. }
  destruct (IH (mkDown scrolled (all_views_without_id d ++ new.*1)
                  (all_actions d ++ new.*2)
                  (prefix_scroll_event d ++ [DOWN scroller])
                  (if (length found <? 2)%nat
                   then too_few_item_time d + 1 else too_few_item_time d)
                  (whole_state_strs d ++ [state_str (top_state d)]))
              (add_transition (DOWN scroller) (Some (top_state d)) (Some scrolled)
                 (send device (DOWN scroller) w)) Hlen)
    as [(d' & E & Hl & Hsub)|[E Hu]].
  - left. exists d'. split; [exact E|]. split; [exact Hl|].
    intros v Hv. apply Hsub. cbn. now apply Hin.
  - right. now split.
Qed.

Lemma merge_views_aligned views actions (id : nat) whole_views whole_actions :
  (id + length views <= length actions)%nat ->
  length whole_views = length whole_actions ->
  exists new,
    merge_views views actions id whole_views whole_actions
    = Ret (whole_views ++ new.*1, whole_actions ++ new.*2)
    /\ (NoDup whole_views -> NoDup (whole_views ++ new.*1))
    /\ (forall v, v ∈ views -> v ∈ whole_views ++ new.*1).
Proof.
  revert id whole_views whole_actions.
  induction views as [|view rest IH]; intros id wv wa Hid Hlen.
  - exists []. cbn. rewrite !app_nil_r. repeat split; [auto|].
    intros v Hv. now apply elem_of_nil in Hv.
  - cbn [merge_views]. cbn [length] in Hid.
    destruct (bool_decide_reflect (view ∈ wv)) as [Hin|Hnin].
    + destruct (IH (S id) wv wa) as (new & E & Hnd & Hall); [lia | exact Hlen|].
      exists new. split; [exact E|]. split; [exact Hnd|].
      intros v Hv. apply elem_of_cons in Hv as [->|Hv]; [|now apply Hall].
      apply elem_of_app. now left.
    + destruct (lookup_lt_is_Some_2 actions id) as [action Ha]; [lia|].
      rewrite Ha.
      destruct (IH (S id) (wv ++ [view]) (wa ++ [action]))
        as (new & E & Hnd & Hall); [lia | rewrite !length_app; cbn; lia|].
      exists ((view, action) :: new). cbn [fmap list_fmap fst snd].
      rewrite E. rewrite <- !app_assoc. cbn [app]. split; [reflexivity|].
      split.
      * intros Hv.
        replace (wv ++ view :: new.*1) with ((wv ++ [view]) ++ new.*1)
          by now rewrite <- app_assoc.
        apply Hnd. apply NoDup_app. split; [exact Hv|]. split.
        -- intros x Hx Hx'. apply list_elem_of_singleton in Hx'. now subst.
        -- apply NoDup_singleton.
      * intros v Hv.
        replace (wv ++ view :: new.*1) with ((wv ++ [view]) ++ new.*1)
          by now rewrite <- app_assoc.
        apply elem_of_cons in Hv as [->|Hv]; [|now apply Hall].
        apply elem_of_app. left. apply elem_of_app. right.
        now apply list_elem_of_singleton.
Qed.

(** What one scroller adds to the views and actions gathered so far. *)
Lemma flatten_scroller_aligned st scroller (acc : Whole) (w : World D) :
  length (whole_state_views acc) = length (whole_state_actions acc) ->
  (exists whole,
      snd (flatten_scroller device st scroller acc w) = Ret whole
      /\ length (whole_state_views whole) = length (whole_state_actions whole)
      /\ (NoDup (whole_state_views acc) -> NoDup (whole_state_views whole))
      /\ whole_state_views acc `prefix_of` whole_state_views whole
      /\ whole_state_actions acc `prefix_of` whole_state_actions whole
      /\ forall w1 res top,
           scroll_to_top device scroller (views_for_mark acc) st w = (w1, Ret res) ->
           poll device w1 = Some top ->
           forall v, v ∈ described_views top -> v ∈ whole_state_views whole)
  \/ (snd (flatten_scroller device st scroller acc w) = Raise AttributeError
      /\ unreadable).
Proof.
  intros Hacc. unfold flatten_scroller, scroll_to_top.
  destruct (scroll_to_top_loop_ends MAX_SCROLL_NUM scroller (Some st)
              (views_for_mark acc) [] w) as [[res E]|[E Hu]];
    destruct (scroll_to_top_loop device MAX_SCROLL_NUM scroller (Some st)
                (views_for_mark acc) [] w) as [w1 r1] eqn:S1;
    cbn [snd] in E; subst r1; [|right; now split].
  destruct res as [mark prefix].
  destruct (poll device w1) as [top|] eqn:P1.
  2:{ right. split; [reflexivity|]. now exists (dev w1). }
  destruct (scroll_down_loop_aligned MAX_SCROLL_NUM scroller
              (mkDown top (described_views top)
                      (map Single (described_actions top)) prefix 0
                      (whole_strs acc)) w1)
    as [(d & E & Hl & Hsub)|[E Hu]].
  { cbn. rewrite length_map. apply (aligned_states _ _ P1). }
  2:{ destruct (scroll_down_loop _ _ _ _ w1) as [w2 r2]. cbn [snd] in E.
      subst r2. right. now split. }
  destruct (scroll_down_loop _ _ _ _ w1) as [w2 r2]. cbn [snd] in E. subst r2.
  destruct (merge_views_aligned (all_views_without_id d) (all_actions d) 0
              (whole_state_views acc) (whole_state_actions acc))
    as (new & -> & Hnd & Hall); [cbn; lia | exact Hacc|].
  destruct (scroll_to_top_loop_ends MAX_SCROLL_NUM scroller (Some (top_state d))
              [] [] w2) as [[[mark2 prefix2] E]|[E Hu]];
    destruct (scroll_to_top_loop device MAX_SCROLL_NUM scroller
                (Some (top_state d)) [] [] w2) as [w3 r3];
    cbn [snd] in E; subst r3; [|right; now split].
  left. eexists. split; [reflexivity|]. cbn [whole_state_views whole_state_actions].
  split; [rewrite !length_app, !length_fmap; lia|].
  split; [exact Hnd|]. split; [now apply prefix_app_r|].
  split; [now apply prefix_app_r|].
  intros w1' res' top' Hs Hp v Hv. injection Hs as <- _.
  rewrite P1 in Hp. injection Hp as <-.
  apply Hall, Hsub. exact Hv.
Qed.

Lemma flatten_scrollers_aligned st scrollers (acc : Whole) (w : World D) :
  length (whole_state_views acc) = length (whole_state_actions acc) ->
  (exists whole,
      snd (flatten_scrollers device st scrollers acc w) = Ret whole
      /\ length (whole_state_views whole) = length (whole_state_actions whole)
      /\ (NoDup (whole_state_views acc) -> NoDup (whole_state_views whole))
      /\ whole_state_views acc `prefix_of` whole_state_views whole
      /\ whole_state_actions acc `prefix_of` whole_state_actions whole)
  \/ (snd (flatten_scrollers device st scrollers acc w) = Raise AttributeError
      /\ unreadable).
Proof.
  revert acc w. induction scrollers as [|scroller rest IH]; intros acc w Hacc.
  { left. exists acc. now repeat split. }
  cbn [flatten_scrollers].
  destruct (flatten_scroller_aligned st scroller acc w Hacc)
    as [(whole & E & Hl & Hnd & Hp & Hpa & _)|[E Hu]];
    destruct (flatten_scroller device st scroller acc w) as [w1 r1];
    cbn [snd] in E; subst r1; [|right; now split].
  destruct (IH whole w1 Hl) as [(whole' & E & Hl' & Hnd' & Hp' & Hpa')|[E Hu]].
  - left. exists whole'. split; [exact E|]. split; [exact Hl'|].
    split; [auto|]. split; etrans; eassumption.
  - right. now split.
Qed.

End FlattenFacts.

(** X20: scroll flattening keeps views and actions side by side.  When
    every state the device shows lists as many actions as views, the views
    and actions gathered over all scrollers have the same length, no view is
    listed twice, and what was gathered before a scroller is kept in front;
    the views of the top of a region are all among the result.  The only
    failure is the AttributeError of a state that could not be read: no
    index is ever out of range. *)
Theorem flattening_keeps_views_and_actions_aligned {D : Type}
  (device : Task.Device D) (st : DeviceState) (w : Task.World D) :
  (forall d s, Task.get_current_state device d = Some s ->
               length (described_views s) = length (described_actions s)) ->
  (forall scrollers,
      (exists whole,
          snd (Task.flatten_scrollers device st scrollers
                 (Task.mkWhole [] [] [] (described_views st)) w) = Ret whole
          /\ length (Task.whole_state_views whole)
             = length (Task.whole_state_actions whole)
          /\ NoDup (Task.whole_state_views whole))
      \/ (snd (Task.flatten_scrollers device st scrollers
                 (Task.mkWhole [] [] [] (described_views st)) w)
          = Raise AttributeError
          /\ exists d0, Task.get_current_state device d0 = None))
  /\ (forall scroller acc whole w1 res top,
        length (Task.whole_state_views acc) = length (Task.whole_state_actions acc) ->
        snd (Task.flatten_scroller device st scroller acc w) = Ret whole ->
        Task.scroll_to_top device scroller (Task.views_for_mark acc) st w
        = (w1, Ret res) ->
        Task.poll device w1 = Some top ->
        Task.whole_state_views acc `prefix_of` Task.whole_state_views whole
        /\ Task.whole_state_actions acc `prefix_of` Task.whole_state_actions whole
        /\ forall v, v ∈ described_views top -> v ∈ Task.whole_state_views whole).
Proof.
  intros Hal. split.
  - intros scrollers.
    destruct (flatten_scrollers_aligned device Hal st scrollers
                (Task.mkWhole [] [] [] (described_views st)) w eq_refl)
      as [(whole & E & Hl & Hnd & _)|[E Hu]].
    + left. exists whole. split; [exact E|]. split; [exact Hl|].
      apply Hnd. apply NoDup_nil_2.
    + right. now split.
  - intros scroller acc whole w1 res top Hacc E Hs Hp.
    destruct (flatten_scroller_aligned device Hal st scroller acc w Hacc)
      as [(whole' & E' & _ & _ & Hpre & Hpre' & Htop)|[E' _]]; [|congruence].
    assert (whole' = whole) as -> by congruence.
    split; [exact Hpre|]. split; [exact Hpre'|]. exact (Htop w1 res top Hs Hp).
Qed.

(** The list of thirty rows with one row on the screen. *)
Lemma flattening_keeps_views_and_actions_aligned_witness :
  (exists whole,
      snd (Task.flatten_scrollers Scenario.long_list (Scenario.list_at 20)
             [Scenario.list_view]
             (Task.mkWhole [] [] [] (described_views (Scenario.list_at 20)))
             (Task.mkWorld 20%nat [] [])) = Ret whole
      /\ length (Task.whole_state_views whole)
         = length (Task.whole_state_actions whole)
      /\ NoDup (Task.whole_state_views whole))
  \/ (snd (Task.flatten_scrollers Scenario.long_list (Scenario.list_at 20)
             [Scenario.list_view]
             (Task.mkWhole [] [] [] (described_views (Scenario.list_at 20)))
             (Task.mkWorld 20%nat [] []))
      = Raise AttributeError
      /\ exists d0, Task.get_current_state Scenario.long_list d0 = None).
Proof.
  apply (proj1 (flattening_keeps_views_and_actions_aligned Scenario.long_list
                  (Scenario.list_at 20) (Task.mkWorld 20%nat [] [])
                  ltac:(intros d s [= <-]; reflexivity))).
Defined.

(** ** Regular expressions: what the group of a match holds *)

Section GroupFacts.
Import Re.

Lemma all_ascii_spec (P : ascii -> bool) :
  all_ascii P = true -> forall x, P x = true.
Proof.
  unfold all_ascii. intros H x.
  rewrite forallb_forall in H. specialize (H (nat_of_ascii x)).
  rewrite ascii_nat_embedding in H. apply H.
  apply in_seq. pose proof (nat_ascii_bounded x). lia.
Qed.

Lemma eats_weaken ok s body : eats ok s body -> eats ok false body.
Proof.
  intros H k p q Hm. destruct (H k p q Hm) as (p' & pre & ? & ? & ? & ? & _).
  exists p', pre. repeat split; try assumption. discriminate.
Qed.

Lemma one_eats ok ok' :
  (forall x, ok' x = true -> ok x = true) -> eats ok true (one ok').
Proof.
  intros Hok k p q H. apply one_some in H as (x & xs & R & O & H).
  eexists _, [x]. split; [exact H|]. cbn. rewrite R.
  repeat split; [|discriminate]. constructor; [now apply Hok | constructor].
Qed.

Lemma loop_eats ok s body (k : pos -> option pos) fuel p q :
  eats ok s body ->
  (greedy_loop body k fuel p = Some q \/ lazy_loop body k fuel p = Some q) ->
  exists p' pre,
    k p' = Some q
    /\ rest p = pre ++ rest p'
    /\ Forall (fun x => ok x = true) pre
    /\ group1 p' = group1 p.
Proof.
  intros Hb. revert p. induction fuel as [|fuel IH]; intros p.
  { cbn. intros [H|H]; exists p, []; now repeat split. }
  cbn [greedy_loop lazy_loop]. intros H.
  assert (k p = Some q
          \/ body (fun p' => if (length (rest p') <? length (rest p))%nat
                             then greedy_loop body k fuel p' else None) p = Some q
          \/ body (fun p' => if (length (rest p') <? length (rest p))%nat
                             then lazy_loop body k fuel p' else None) p = Some q)
    as [Hk|Hbody].
  { destruct H as [H|H]; apply or_else_some in H; tauto. }
  { exists p, []. now repeat split. }
  assert (exists p1 pre1,
             (greedy_loop body k fuel p1 = Some q \/ lazy_loop body k fuel p1 = Some q)
             /\ rest p = pre1 ++ rest p1
             /\ Forall (fun x => ok x = true) pre1
             /\ group1 p1 = group1 p) as (p1 & pre1 & Hl & R1 & F1 & G1).
  { destruct Hbody as [Hbody|Hbody];
      apply Hb in Hbody as (p1 & pre1 & Hl & R1 & F1 & G1 & _);
      destruct (_ <? _)%nat; try discriminate;
      exists p1, pre1; repeat split; auto. }
  apply IH in Hl as (p2 & pre2 & Hk & R2 & F2 & G2).
  exists p2, (pre1 ++ pre2). split; [exact Hk|].
  split; [now rewrite R1, R2, app_assoc|].
  split; [now apply Forall_app | congruence].
Qed.

Lemma only_eats ok r : only ok r = true -> eats ok (consumes r) (m r).
Proof.
  induction r as [w| |c|negated items|r1 IH1 r2 IH2|r IH|r IH|r IH|r IH|n r IH
    |r IH|r IH|]; cbn [only consumes]; intros Ho.
  - (* Str *)
    intros k p q. cbn [m]. revert p Ho.
    induction w as [|c w IHw]; intros p Ho H.
    + exists p, []. repeat split; [exact H | constructor | discriminate].
    + cbn [String.list_ascii_of_string forallb] in Ho.
      apply andb_true_iff in Ho as [Hc Ho].
      apply (one_eats ok) in H as (p1 & pre1 & H & R1 & F1 & G1 & N1).
      2:{ intros x Hx. pose proof (all_ascii_spec _ Hc x) as Hi.
          cbn in Hi. now rewrite Hx in Hi. }
      destruct (IHw p1 Ho H) as (p2 & pre2 & Hk & R2 & F2 & G2 & _).
      exists p2, (pre1 ++ pre2). split; [exact Hk|].
      split; [now rewrite R1, R2, app_assoc|].
      split; [now apply Forall_app|]. split; [congruence|].
      intros _ E. apply app_eq_nil in E as [E _]. now apply N1.
  - (* Any *)
    cbn [m]. apply one_eats. intros x Hx.
    pose proof (all_ascii_spec _ Ho x) as Hi. cbn in Hi. now rewrite Hx in Hi.
  - cbn [m]. apply one_eats. intros x Hx.
    pose proof (all_ascii_spec _ Ho x) as Hi. cbn in Hi. now rewrite Hx in Hi.
  - cbn [m]. apply one_eats. intros x Hx.
    pose proof (all_ascii_spec _ Ho x) as Hi. cbn in Hi. now rewrite Hx in Hi.
  - (* Seq *)
    apply andb_true_iff in Ho as [Ho1 Ho2].
    intros k p q. cbn [m]. intros H.
    apply (IH1 Ho1) in H as (p1 & pre1 & H & R1 & F1 & G1 & N1).
    apply (IH2 Ho2) in H as (p2 & pre2 & H & R2 & F2 & G2 & N2).
    exists p2, (pre1 ++ pre2). split; [exact H|].
    split; [now rewrite R1, R2, app_assoc|].
    split; [now apply Forall_app|]. split; [congruence|].
    intros Hs E. apply app_eq_nil in E as [E1 E2].
    apply orb_true_iff in Hs as [Hs|Hs]; [now apply N1 | now apply N2].
  - (* Star *)
    intros k p q. cbn [m]. intros H.
    destruct (loop_eats ok _ (m r) k _ p q (IH Ho) (or_introl H))
      as (p' & pre & ? & ? & ? & ?).
    exists p', pre. repeat split; try assumption. discriminate.
  - (* LazyStar *)
    intros k p q. cbn [m]. intros H.
    destruct (loop_eats ok _ (m r) k _ p q (IH Ho) (or_intror H))
      as (p' & pre & ? & ? & ? & ?).
    exists p', pre. repeat split; try assumption. discriminate.
  - (* Plus *)
    intros k p q. cbn [m]. intros H.
    apply (IH Ho) in H as (p1 & pre1 & H & R1 & F1 & G1 & N1).
    destruct (loop_eats ok _ (m r) k _ p1 q (IH Ho) (or_introl H))
      as (p2 & pre2 & Hk & R2 & F2 & G2).
    exists p2, (pre1 ++ pre2). split; [exact Hk|].
    split; [now rewrite R1, R2, app_assoc|].
    split; [now apply Forall_app|]. split; [congruence|].
    intros Hs E. apply app_eq_nil in E as [E _]. now apply N1.
  - (* Opt *)
    intros k p q. cbn [m]. intros H. apply or_else_some in H as [H|H].
    + apply (IH Ho) in H as (p1 & pre1 & H & R1 & F1 & G1 & _).
      exists p1, pre1. repeat split; try assumption. discriminate.
    + exists p, []. repeat split; [exact H | constructor | discriminate].
  - (* Repeat *)
    intros k p q. cbn [m]. revert k p.
    induction n as [|n IHn]; intros k p H.
    + exists p, []. repeat split; [exact H | constructor | discriminate].
    + apply (IH Ho) in H as (p1 & pre1 & H & R1 & F1 & G1 & N1).
      apply IHn in H as (p2 & pre2 & H & R2 & F2 & G2 & _).
      exists p2, (pre1 ++ pre2). split; [exact H|].
      split; [now rewrite R1, R2, app_assoc|].
      split; [now apply Forall_app|]. split; [congruence|].
      cbn. intros Hs E. apply app_eq_nil in E as [E _]. now apply N1.
  - discriminate.
  - (* NGroup *)
    intros k p q. cbn [m]. apply (IH Ho).
  - (* WordB *)
    intros k p q. cbn [m]. destruct (at_boundary p); [|discriminate].
    intros H. exists p, []. repeat split; [exact H | constructor | discriminate].
Qed.

Lemma group_free_keeps r (k : pos -> option pos) :
  group_free r = true ->
  (forall p q, k p = Some q -> group1 q = group1 p) ->
  forall p q, m r k p = Some q -> group1 q = group1 p.
Proof.
  intros Hr Hk p q H.
  apply (only_eats _ _ Hr) in H as (p1 & _ & H & _ & _ & G & _).
  rewrite <- G. now apply Hk.
Qed.

Lemma has_group_sets ok r (k : pos -> option pos) :
  has_group ok r = true ->
  (forall p q, k p = Some q -> group1 q = group1 p) ->
  forall p q, m r k p = Some q ->
    exists l, group1 q = Some l /\ l <> [] /\ Forall (fun x => ok x = true) l.
Proof.
  revert k. induction r as [w| |c|negated items|r1 IH1 r2 IH2|r IH|r IH|r IH|r IH
    |n r IH|r IH|r IH|]; cbn [has_group]; intros k Hr Hk p q; try discriminate.
  - (* Seq *)
    cbn [m]. intros H. apply orb_true_iff in Hr as [Hr|Hr];
      apply andb_true_iff in Hr as [Hr1 Hr2].
    + apply (IH1 (m r2 k) Hr1) in H; [exact H|].
      now apply group_free_keeps.
    + apply (only_eats _ _ Hr1) in H as (p1 & _ & H & _).
      now apply (IH2 k Hr2 Hk) in H.
  - (* Group *)
    cbn [m]. intros H. apply andb_true_iff in Hr as [Ho Hc].
    apply (only_eats _ _ Ho) in H as (p1 & pre & H & R & F & _ & N).
    apply Hk in H. cbn [group1] in H. exists pre.
    split; [|split; [now apply N | exact F]].
    rewrite H. f_equal. rewrite R, length_app.
    replace (length pre + length (rest p1) - length (rest p1))%nat
      with (length pre) by lia.
    now rewrite take_app_length.
  - (* NGroup *)
    cbn [m]. now apply IH.
Qed.

(** The group of a match found by [search]. *)
Lemma search_group ok r text g :
  has_group ok r = true ->
  search r text = Some g ->
  g <> "" /\ Forall (fun x => ok x = true) (String.list_ascii_of_string g).
Proof.
  intros Hr. unfold search.
  destruct (search_from r None _) as [q|] eqn:S; [|discriminate].
  cbn. intros [= <-].
  apply search_from_some in S as (before & s & _ & M).
  apply (has_group_sets ok r Some Hr) in M as (l & G & N & F);
    [|now intros ? ? [= <-]].
  unfold group_of. rewrite G.
  rewrite String.list_ascii_of_string_of_list_ascii. split; [|exact F].
  destruct l; [contradiction | discriminate].
Qed.

Lemma findall_group ok r fuel before s g :
  has_group ok r = true ->
  g ∈ findall_from r fuel before s ->
  g <> "" /\ Forall (fun x => ok x = true) (String.list_ascii_of_string g).
Proof.
  intros Hr. revert before s. induction fuel as [|fuel IH]; intros before s;
    cbn [findall_from]; [intros H; now apply elem_of_nil in H|].
  assert (g ∈ match s with [] => [] | x :: s' => findall_from r fuel (Some x) s' end
          -> g <> "" /\ Forall (fun x => ok x = true) (String.list_ascii_of_string g))
    as Hstep.
  { destruct s as [|x s']; [intros H; now apply elem_of_nil in H | apply IH]. }
  destruct (match_at r before s) as [q|] eqn:M; [|exact Hstep].
  intros H. apply elem_of_cons in H as [->|H].
  - apply (has_group_sets ok r Some Hr) in M as (l & G & N & F);
      [|now intros ? ? [= <-]].
    unfold group_of. rewrite G.
    rewrite String.list_ascii_of_string_of_list_ascii. split; [|exact F].
    destruct l; [contradiction | discriminate].
  - destruct (_ <? _)%nat; [now apply IH in H | now apply Hstep].
Qed.

End GroupFacts.

(** ** Credentials: what an extracted value looks like *)

Section CredentialValues.
Import Re Credentials.

Lemma dict_set_ok d key v :
  Forall credential_ok d -> credential_ok (key, v) ->
  Forall credential_ok (dict_set d key v).
Proof.
  intros Hd Hv. induction Hd as [|[k v'] d Hk Hd IH]; cbn [dict_set].
  - constructor; [exact Hv | constructor].
  - destruct (String.eqb k key) eqn:E.
    + apply String.eqb_eq in E as ->. now constructor.
    + now constructor.
Qed.

Lemma first_match_group ok patterns text g :
  forallb (has_group ok) patterns = true ->
  first_match patterns text = Some g ->
  g <> "" /\ Forall (fun x => ok x = true) (String.list_ascii_of_string g).
Proof.
  induction patterns as [|r patterns IH]; cbn [first_match forallb];
    [discriminate|].
  intros H. apply andb_true_iff in H as [Hr Hrest].
  destruct (search r text) as [g'|] eqn:S.
  - intros [= <-]. exact (search_group ok r text g' Hr S).
  - now apply IH.
Qed.

Lemma scan_table_ok (table : list (string * list re)) text d :
  Forall (fun entry => entry.1 ∈ ["pin"; "password"; "username"; "email"]
                       /\ forallb (has_group (value_char entry.1)) entry.2 = true)
         table ->
  Forall credential_ok d ->
  Forall credential_ok
    (foldl (fun credentials '(cred_type, patterns) =>
              match first_match patterns text with
              | Some g => dict_set credentials cred_type g
              | None => credentials
              end) d table).
Proof.
  intros Ht. revert d. induction Ht as [|[t ps] table [Hin Hps] Ht IH];
    intros d Hd; cbn [foldl]; [exact Hd|].
  apply IH. destruct (first_match ps text) as [g|] eqn:F; [|exact Hd].
  apply dict_set_ok; [exact Hd|].
  destruct (first_match_group _ ps text g Hps F) as [N Fa].
  now repeat split.
Qed.

Lemma scan_text_ok text d :
  Forall credential_ok d -> Forall credential_ok (scan_text text d).
Proof.
  apply scan_table_ok. unfold credential_patterns.
  repeat constructor; cbn [fst]; try (vm_compute; reflexivity);
    rewrite !elem_of_cons; auto 6.
Qed.

Lemma set_default_ok d text :
  Forall credential_ok d ->
  Forall credential_ok
    (set_default d (head (findall standalone_four_digits text))).
Proof.
  intros Hd. destruct (head _) as [first|] eqn:H; cbn [set_default]; [|exact Hd].
  apply dict_set_ok; [exact Hd|].
  apply head_Some_elem_of in H. unfold findall in H.
  apply (findall_group PyStr.is_digit) in H as [N F]; [|now vm_compute].
  split; [apply elem_of_cons; now left|]. now split.
Qed.

Lemma from_text_ok text : Forall credential_ok (from_text text).
Proof.
  unfold from_text. pose proof (scan_text_ok text [] (List.Forall_nil _)) as H.
  destruct (negb _); [now apply set_default_ok | exact H].
Qed.

Lemma scan_notes_ok texts d :
  Forall credential_ok d ->
  Forall credential_ok
    (foldl (fun credentials note_text => scan_text note_text credentials) d texts).
Proof.
  revert d. induction texts as [|t texts IH]; intros d Hd; cbn [foldl];
    [exact Hd|].
  apply IH. now apply scan_text_ok.
Qed.

Lemma from_config_ok app_notes : Forall credential_ok (from_config app_notes).
Proof.
  unfold from_config.
  pose proof (scan_notes_ok (note_texts app_notes) [] (List.Forall_nil _)) as H.
  set (c := foldl _ _ _) in *.
  assert (Forall credential_ok
            (if negb (dict_has c "pin")
             then if PyStr.truthy (all_notes app_notes)
                  then set_default c
                         (head (findall standalone_four_digits (all_notes app_notes)))
                  else c
             else c)) as H'.
  { destruct (negb _); [|exact H].
    destruct (PyStr.truthy _); [now apply set_default_ok | exact H]. }
  destruct (if negb _ then _ else _) as [|e c']; [|exact H'].
  cbn [dict_set]. constructor; [|constructor].
  split; [apply elem_of_cons; now left|]. split; [discriminate|].
  cbn. now repeat (constructor; [reflexivity|]).
Qed.

(** X21: every entry of the dictionary that
    [_extract_credentials_from_notes] returns has one of the keys "pin",
    "password", "username" and "email" and a value that is not empty; the
    value of "pin" is made of digits, and the other values hold no white
    space, no dot and no comma. *)
Theorem extracted_credentials_are_plain app_notes notes_text key v :
  (key, v) ∈ extract_credentials_from_notes app_notes notes_text ->
  key ∈ ["pin"; "password"; "username"; "email"]
  /\ v <> ""
  /\ Forall (fun x => value_char key x = true) (String.list_ascii_of_string v).
Proof.
  intros H.
  assert (Forall credential_ok (extract_credentials_from_notes app_notes notes_text))
    as Hall.
  { unfold extract_credentials_from_notes.
    destruct notes_text as [text|]; [|apply from_config_ok].
    destruct (PyStr.truthy text); [apply from_text_ok | apply from_config_ok]. }
  rewrite Forall_forall in Hall. exact (Hall _ H).
Qed.

(** An address is cut at the first dot of its domain. *)
Lemma extracted_credentials_are_plain_witness :
  ("email", "a@b") ∈ extract_credentials_from_notes None (Some "email: a@b.com")
  /\ "a@b" <> ""
  /\ Forall (fun x => value_char "email" x = true)
            (String.list_ascii_of_string "a@b").
Proof.
  assert (("email", "a@b")
            ∈ extract_credentials_from_notes None (Some "email: a@b.com")) as H.
  { vm_compute. apply list_elem_of_singleton. reflexivity. }
  split; [exact H|].
  exact (proj2 (extracted_credentials_are_plain None (Some "email: a@b.com")
                  "email" "a@b" H)).
Defined.

End CredentialValues.

(** ** The greedy policy: what the humanoid ranking returns *)

Section HumanoidRanking.
Import Greedy.
Variables (cfg : Config) (utg : UTG) (current_state : DeviceState).

Lemma py_index_ret {A} (l : list A) i a :
  py_index l i = Ret a ->
  exists n, l !! n = Some a
            /\ forall (l' : list A) x, length l' = length l ->
                 py_setitem l' i x = Ret (<[n:=x]> l').
Proof.
  unfold py_index, py_setitem. intros H.
  destruct ((0 <=? i) && (i <? Z.of_nat (length l))) eqn:E1.
  - destruct (l !! Z.to_nat i) as [a'|] eqn:L; [|discriminate].
    injection H as ->. exists (Z.to_nat i). split; [exact L|].
    intros l' x ->. now rewrite E1.
  - destruct ((- Z.of_nat (length l) <=? i) && (i <? 0)) eqn:E2; [|discriminate].
    destruct (l !! Z.to_nat (Z.of_nat (length l) + i)) as [a'|] eqn:L;
      [|discriminate].
    injection H as ->. exists (Z.to_nat (Z.of_nat (length l) + i)).
    split; [exact L|]. intros l' x ->. now rewrite E1, E2.
Qed.

Lemma py_index_in_range {A} (l : list A) i :
  - Z.of_nat (length l) <= i < Z.of_nat (length l) ->
  exists a, py_index l i = Ret a.
Proof.
  intros R. unfold py_index.
  destruct ((0 <=? i) && (i <? Z.of_nat (length l))) eqn:E1.
  - destruct (lookup_lt_is_Some_2 l (Z.to_nat i)) as [a ->]; [lia | now exists a].
  - assert ((- Z.of_nat (length l) <=? i) && (i <? 0) = true) as -> by lia.
    destruct (lookup_lt_is_Some_2 l (Z.to_nat (Z.of_nat (length l) + i)))
      as [a ->]; [lia | now exists a].
Qed.

Lemma py_index_out_of_range {A} (l : list A) i :
  ~ (- Z.of_nat (length l) <= i < Z.of_nat (length l)) ->
  py_index l i = Raise IndexError.
Proof.
  intros R. unfold py_index.
  assert ((0 <=? i) && (i <? Z.of_nat (length l)) = false) as -> by lia.
  now assert ((- Z.of_nat (length l) <=? i) && (i <? 0) = false) as -> by lia.
Qed.

Lemma py_index_only_IndexError {A} (l : list A) i e :
  py_index l i = Raise e -> e = IndexError.
Proof. unfold py_index. repeat case_match; congruence. Qed.

Lemma py_setitem_only_IndexError {A} (l : list A) i x e :
  py_setitem l i x = Raise e -> e = IndexError.
Proof. unfold py_setitem. repeat case_match; congruence. Qed.

Lemma mapM_res_ret {A B} (f : A -> res B) (l : list A) k :
  mapM f l = Ret k -> Forall2 (fun x y => f x = Ret y) l k.
Proof.
  revert k. induction l as [|a l IH]; intros k; simpl.
  - intros [= <-]. constructor.
  - destruct (f a) as [b|] eqn:Fa; simpl; [|discriminate].
    destruct (mapM f l) as [bs|]; simpl; [|discriminate].
    intros [= <-]. constructor; [exact Fa | now apply IH].
Qed.

Lemma mapM_res_fails {A B} (f : A -> res B) (l : list A) x e :
  (forall y e', f y = Raise e' -> e' = e) ->
  x ∈ l -> f x = Raise e -> mapM f l = Raise e.
Proof.
  intros Hone Hin Hx. induction Hin as [x l|x a l Hin IH]; simpl.
  - now rewrite Hx.
  - destruct (f a) as [b|e'] eqn:Fa; simpl.
    + now rewrite IH.
    + now rewrite (Hone _ _ Fa).
Qed.

(** The exchange of [new_idx[0]] and [new_idx[new_first]]. *)
Lemma exchange_permutes (new_idx : list Z) new_first l :
  (a ← py_index new_idx new_first;
   b ← py_index new_idx 0;
   l ← py_setitem new_idx 0 a;
   py_setitem l new_first b) = Ret l ->
  l ≡ₚ new_idx.
Proof.
  destruct (py_index new_idx new_first) as [a|] eqn:Ia; [|discriminate].
  destruct (py_index new_idx 0) as [b|] eqn:Ib; [|discriminate].
  apply py_index_ret in Ia as (n1 & L1 & S1).
  apply py_index_ret in Ib as (n0 & L0 & S0).
  cbn. rewrite (S0 new_idx a eq_refl). cbn.
  rewrite (S1 (<[n0:=a]> new_idx) b (length_insert _ _ _)).
  intros [= <-]. now apply Permutation_insert_swap.
Qed.

Lemma exchange_only_IndexError (new_idx : list Z) new_first e :
  (a ← py_index new_idx new_first;
   b ← py_index new_idx 0;
   l ← py_setitem new_idx 0 a;
   py_setitem l new_first b) = Raise e ->
  e = IndexError.
Proof.
  intros H.
  apply bind_res_raise in H as [H|(a & _ & H)];
    [now apply py_index_only_IndexError in H|].
  apply bind_res_raise in H as [H|(b & _ & H)];
    [now apply py_index_only_IndexError in H|].
  apply bind_res_raise in H as [H|(l & _ & H)];
    now apply py_setitem_only_IndexError in H.
Qed.

Lemma ranked_picks text (evs : list InputEvent) (idx : list Z) out :
  Forall2 (fun i y => (e ← py_index evs i; Ret (set_text_of text e)) = Ret y)
          idx out ->
  exists picked,
    Forall2 (fun i e => py_index evs i = Ret e) idx picked
    /\ out = set_text_of text <$> picked.
Proof.
  induction 1 as [|i y idx out Hi _ (picked & Hp & ->)].
  - exists []. split; [constructor | reflexivity].
  - destruct (py_index evs i) as [e|] eqn:E; [|discriminate].
    injection Hi as <-. exists (e :: picked). split; [now constructor | reflexivity].
Qed.

(** X22: the humanoid ranking neither invents nor drops an index.  When
    [__sort_inputs_by_humanoid] returns, its result holds, for every index
    the service gave, the candidate event at that index (with Python's
    negative indices), a [SetTextEvent] carrying the service's text: in the
    service's order when the current state was reached before, and up to
    the exchange of two indices otherwise.  With an unreached state and no
    index the call raises [ValueError], and an index that is out of range
    makes it raise [IndexError]. *)
Theorem humanoid_ranking_reorders reply possible_events :
  (forall out,
      sort_inputs_by_humanoid cfg utg current_state reply possible_events = Ret out ->
      exists picked,
        Forall2 (fun i e => py_index possible_events i = Ret e)
                (indices reply) picked
        /\ out ≡ₚ set_text_of (reply_text reply) <$> picked
        /\ (is_state_reached utg current_state = true ->
            out = set_text_of (reply_text reply) <$> picked))
  /\ (is_state_reached utg current_state = false ->
      indices reply = [] ->
      sort_inputs_by_humanoid cfg utg current_state reply possible_events
      = Raise ValueError)
  /\ (forall i,
        i ∈ indices reply ->
        ~ (- Z.of_nat (length possible_events) <= i
           < Z.of_nat (length possible_events)) ->
        sort_inputs_by_humanoid cfg utg current_state reply possible_events
        = Raise IndexError).
Proof.
  unfold sort_inputs_by_humanoid. split; [|split].
  - intros out H.
    destruct (is_state_reached utg current_state) eqn:R; cbn [negb] in H.
    + cbn in H. apply mapM_res_ret, ranked_picks in H as (picked & Hp & ->).
      exists picked. now repeat split.
    + destruct (_ <? 0); [discriminate|].
      match type of H with
      | ?exchange ≫= _ = _ => destruct exchange as [l|] eqn:X; [|discriminate]
      end.
      apply exchange_permutes in X. cbn in H.
      apply mapM_res_ret in H.
      destruct (Permutation_Forall2 X H) as (out' & Po & H').
      apply ranked_picks in H' as (picked & Hp & ->).
      exists picked. split; [exact Hp|]. split; [exact Po | discriminate].
  - intros -> ->. reflexivity.
  - intros i Hin Hout.
    assert (forall l : list Z, i ∈ l ->
              mapM (fun idx => e ← py_index possible_events idx;
                               Ret (set_text_of (reply_text reply) e)) l
              = Raise IndexError) as Hmap.
    { intros l Hl. apply (mapM_res_fails _ l i); [|exact Hl|].
      - intros y e' Hy. apply bind_res_raise in Hy as [Hy|(a & _ & Hy)];
          [now apply py_index_only_IndexError in Hy | discriminate].
      - now rewrite py_index_out_of_range. }
    destruct (negb _); [|now apply Hmap].
    destruct (_ <? 0) eqn:Hi.
    { destruct (indices reply); [now apply elem_of_nil in Hin|].
      cbn [length] in Hi. apply Z.ltb_lt in Hi. lia. }
    match goal with
    | |- ?exchange ≫= _ = _ => destruct exchange as [l|e] eqn:X
    end.
    + apply exchange_permutes in X. apply Hmap. now rewrite X.
    + now apply exchange_only_IndexError in X as ->.
Qed.

End HumanoidRanking.

Lemma humanoid_ranking_reorders_witness :
  Greedy.sort_inputs_by_humanoid Scenario.greedy_cfg Scenario.exhausted_utg
    Scenario.home_screen (mkReply [-1; 0] "hello")
    [TouchEvent Scenario.ok_button; SetTextEvent Scenario.ok_button ""]
  = Ret [SetTextEvent Scenario.ok_button "hello"; TouchEvent Scenario.ok_button]
  /\ exists picked,
       Forall2 (fun i e =>
                  py_index [TouchEvent Scenario.ok_button;
                            SetTextEvent Scenario.ok_button ""] i = Ret e)
               [-1; 0] picked
       /\ [SetTextEvent Scenario.ok_button "hello"; TouchEvent Scenario.ok_button]
          ≡ₚ Greedy.set_text_of "hello" <$> picked
       /\ (is_state_reached Scenario.exhausted_utg Scenario.home_screen = true ->
           [SetTextEvent Scenario.ok_button "hello"; TouchEvent Scenario.ok_button]
           = Greedy.set_text_of "hello" <$> picked).
Proof.
  split; [reflexivity|].
  exact (proj1 (humanoid_ranking_reorders Scenario.greedy_cfg
                  Scenario.exhausted_utg Scenario.home_screen
                  (mkReply [-1; 0] "hello")
                  [TouchEvent Scenario.ok_button;
                   SetTextEvent Scenario.ok_button ""]) _ eq_refl).
Defined.

(** ** The record of choices *)

Section SaveFacts.
Import Save.
Context {StateStrs : Type}.

Lemma save2yaml_file task file_name state_prompt idx (state_str : StateStrs)
  inputs files :
  let e := mkEntry state_prompt idx inputs state_str in
  save2yaml task file_name state_prompt idx state_str inputs files
  = <[file_name := mkDoc task (S (length (records_of files file_name)))
                         (records_of files file_name ++ [e])]> files.
Proof.
  unfold save2yaml, records_of. cbv zeta.
  destruct (files !! file_name) as [old|] eqn:L.
  - rewrite L. cbn [records]. now rewrite length_app, Nat.add_1_r.
  - rewrite lookup_insert_eq. cbn [records app length].
    now rewrite insert_insert_eq.
Qed.

(** X23: the YAML file of choices only grows.  After any non-empty sequence
    of [_save2yaml] calls on one file, the file holds the records it held
    (none if it did not exist), unchanged and in place, followed by one
    record per call in the order of the calls; [step_num] is the number of
    records in the file, the new ones included; [task_name] is the task of
    the last call; and no other file is touched. *)
Theorem saved_choices_only_grow file_name
  (calls : list (option string * Entry StateStrs))
  (files : gmap string (Doc StateStrs)) :
  calls <> [] ->
  (exists doc,
      saves file_name calls files !! file_name = Some doc
      /\ records doc = records_of files file_name ++ calls.*2
      /\ step_num doc = length (records doc)
      /\ Some (task_name doc) = last calls.*1)
  /\ forall other, other <> file_name ->
       saves file_name calls files !! other = files !! other.
Proof.
  revert files. induction calls as [|[task e] calls IH]; intros files Hne;
    [contradiction|].
  cbn [saves]. rewrite save2yaml_file. destruct e as [sp idx inp ss].
  cbn [State Choice Input entry_state_str].
  set (files1 := <[file_name := _]> files).
  assert (records_of files1 file_name
          = records_of files file_name ++ [mkEntry sp idx inp ss]) as R1.
  { unfold records_of at 1, files1. now rewrite lookup_insert_eq. }
  assert (forall other, other <> file_name -> files1 !! other = files !! other)
    as O1.
  { intros other Ho. unfold files1. now rewrite lookup_insert_ne. }
  destruct calls as [|c calls].
  - cbn [saves fmap list_fmap]. split; [|exact O1].
    eexists. split; [unfold files1; apply lookup_insert_eq|].
    cbn [records step_num task_name snd fst last].
    split; [reflexivity|]. split; [|reflexivity].
    now rewrite length_app, Nat.add_1_r.
  - destruct (IH files1) as ((doc & L & R & N & T) & O); [discriminate|].
    split.
    + exists doc. split; [exact L|]. split; [|split; [exact N|]].
      * rewrite R, R1, <- app_assoc. reflexivity.
      * rewrite T. reflexivity.
    + intros other Ho. rewrite O by exact Ho. now apply O1.
Qed.

End SaveFacts.

Lemma saved_choices_only_grow_witness :
  [(Some "log in", Save.mkEntry "prompt" 2 "null" "home");
   (None, Save.mkEntry "prompt" 0 "bob" "settings")] <> []
  /\ exists doc,
       Save.saves "out/log in.yaml"
         [(Some "log in", Save.mkEntry "prompt" 2 "null" "home");
          (None, Save.mkEntry "prompt" 0 "bob" "settings")] ∅
       !! "out/log in.yaml" = Some doc
       /\ Save.records doc
          = Save.records_of ∅ "out/log in.yaml"
            ++ [(Some "log in", Save.mkEntry "prompt" 2 "null" "home");
                (None, Save.mkEntry "prompt" 0 "bob" "settings")].*2
       /\ Save.step_num doc = length (Save.records doc)
       /\ Some (Save.task_name doc)
          = last [(Some "log in", Save.mkEntry "prompt" 2 "null" "home");
                  (None, Save.mkEntry "prompt" 0 "bob" "settings")].*1.
Proof.
  split; [discriminate|].
  exact (proj1 (saved_choices_only_grow (StateStrs := string) "out/log in.yaml"
                  [(Some "log in", Save.mkEntry "prompt" 2 "null" "home");
                   (None, Save.mkEntry "prompt" 0 "bob" "settings")] ∅
                  ltac:(discriminate))).
Defined.

(** ** Credentials from explicit notes text (C7) *)

Section NotesText.
Import Re Credentials.

Lemma one_step ok (k : pos -> option pos) before x xs g :
  ok x = true ->
  one ok k (mkPos before (x :: xs) g) = k (mkPos (Some x) xs g).
Proof. intros H. unfold one, advance. cbn [rest group1]. now rewrite H. Qed.

Lemma one_fail ok (k : pos -> option pos) before x xs g :
  ok x = false -> one ok k (mkPos before (x :: xs) g) = None.
Proof. intros H. unfold one. cbn [rest]. now rewrite H. Qed.

Lemma digit_is_no_separator x :
  PyStr.is_digit x = true ->
  xorb false (existsb (in_cls x) [CChar ":"; CSpace; CChar "="]) = false.
Proof.
  intros H. destruct x as [[] [] [] [] [] [] [] []];
    vm_compute in H |- *; congruence.
Qed.

Lemma digit_is_lower x : PyStr.is_digit x = true -> PyStr.lower_char x = x.
Proof.
  intros H. destruct x as [[] [] [] [] [] [] [] []];
    vm_compute in H |- *; congruence.
Qed.

(** A greedy run of digits to the end of the text. *)
Lemma digits_loop (k : pos -> option pos) ds before g q :
  Forall (fun x => PyStr.is_digit x = true) ds ->
  k (mkPos (match last ds with Some c => Some c | None => before end) [] g)
  = Some q ->
  greedy_loop (m (Class CDigit)) k (length ds) (mkPos before ds g) = Some q.
Proof.
  intros Hd. revert before. induction Hd as [|x ds Hx Hd IH]; intros before Hk.
  - exact Hk.
  - cbn [length greedy_loop m]. rewrite one_step by exact Hx.
    cbn [rest length]. rewrite (proj2 (Nat.ltb_lt _ _) (Nat.lt_succ_diag_r _)).
    assert (greedy_loop (m (Class CDigit)) k (length ds) (mkPos (Some x) ds g)
            = Some q) as E.
    { apply IH. rewrite last_cons in Hk. now destruct (last ds). }
    cbn [m] in E. now rewrite E.
Qed.

(** The group (\d+) on a text that is digits to its end. *)
Lemma digits_to_the_end c ds before g :
  Forall (fun x => PyStr.is_digit x = true) (c :: ds) ->
  exists q,
    m digits Some (mkPos before (c :: ds) g) = Some q
    /\ group1 q = Some (c :: ds).
Proof.
  intros Hd. inversion Hd as [|? ? Hc Hds]; subst.
  eexists. split.
  - unfold digits. cbn [m]. rewrite one_step by exact Hc.
    cbn [rest].
    pose proof (digits_loop
                  (fun p' => Some (mkPos (prev p') (rest p')
                                     (Some (take (length (c :: ds)
                                                  - length (rest p')) (c :: ds)))))
                  ds (Some c) g _ Hds eq_refl) as E.
    cbn [m] in E. exact E.
  - cbn [group1]. f_equal. apply take_ge. cbn [rest length]. lia.
Qed.

(** The first PIN pattern on the text "pin: " followed by digits. *)
Lemma pin_colon_matches c ds :
  Forall (fun x => PyStr.is_digit x = true) (c :: ds) ->
  exists q,
    match_at (Seq (Str "pin") (Seq sep digits)) None
             ("p" :: "i" :: "n" :: ":" :: " " :: c :: ds)%char = Some q
    /\ group1 q = Some (c :: ds).
Proof.
  intros Hd.
  destruct (digits_to_the_end c ds (Some " "%char) None Hd) as (q & Hq & Hg).
  exists q. split; [|exact Hg].
  inversion Hd as [|? ? Hc Hds]; subst.
  unfold match_at. cbn [m]. rewrite !one_step by reflexivity.
  unfold sep. cbn [m]. rewrite one_step by reflexivity.
  cbn [rest length greedy_loop]. rewrite one_step by reflexivity.
  cbn [rest length].
  rewrite (proj2 (Nat.ltb_lt _ _) (Nat.lt_succ_diag_r _)).
  rewrite one_fail by now apply digit_is_no_separator.
  cbn [or_else]. now rewrite Hq.
Qed.

(** [re.search] with the first PIN pattern on "pin: " followed by digits. *)
Lemma search_pin_colon d :
  d <> "" ->
  Forall (fun x => PyStr.is_digit x = true) (String.list_ascii_of_string d) ->
  search (Seq (Str "pin") (Seq sep digits)) ("pin: " +:+ d) = Some d.
Proof.
  intros Hne Hd. destruct d as [|c d]; [contradiction|].
  cbn [String.list_ascii_of_string] in Hd.
  destruct (pin_colon_matches c _ Hd) as (q & Hq & Hg).
  unfold search. rewrite list_ascii_app.
  change (String.list_ascii_of_string "pin: ")
    with ["p"; "i"; "n"; ":"; " "]%char.
  cbn [app String.list_ascii_of_string search_from]. rewrite Hq.
  cbn [fmap option_fmap option_map]. unfold group_of. rewrite Hg.
  f_equal. cbn [String.string_of_list_ascii]. f_equal.
  apply String.string_of_list_ascii_of_string.
Qed.

(** No letter of a word occurs in a text of digits. *)
Lemma contains_in_digits c kw d :
  PyStr.is_digit c = false ->
  Forall (fun x => PyStr.is_digit x = true) (String.list_ascii_of_string d) ->
  PyStr.contains (String c kw) d = false.
Proof.
  intros Hc. induction d as [|x d IH]; intros Hd; [reflexivity|].
  cbn [String.list_ascii_of_string] in Hd.
  inversion Hd as [|? ? Hx Hds]; subst.
  rewrite contains_cons, (IH Hds), orb_false_r. cbn [String.prefix].
  destruct (ascii_dec c x) as [->|_]; [congruence | reflexivity].
Qed.

Lemma lower_digits d :
  Forall (fun x => PyStr.is_digit x = true) (String.list_ascii_of_string d) ->
  PyStr.lower d = d.
Proof.
  induction d as [|x d IH]; intros Hd; [reflexivity|].
  cbn [String.list_ascii_of_string] in Hd.
  inversion Hd as [|? ? Hx Hds]; subst.
  cbn [PyStr.lower]. now rewrite digit_is_lower, IH.
Qed.

(** The words of the other patterns do not occur in "pin: " followed by
    digits. *)
Lemma no_other_keyword d kw :
  kw ∈ ["password"; "use"; "pass"; "username"; "user"; "email"] ->
  Forall (fun x => PyStr.is_digit x = true) (String.list_ascii_of_string d) ->
  PyStr.contains kw (PyStr.lower ("pin: " +:+ d)) = false.
Proof.
  intros Hkw Hd. rewrite lower_app, (lower_digits d Hd).
  change (PyStr.lower "pin: ") with "pin: ".
  rewrite !append_cons, append_nil, !contains_cons.
  repeat (apply elem_of_cons in Hkw as [->|Hkw]);
    [..|now apply elem_of_nil in Hkw];
    rewrite contains_in_digits by (reflexivity || exact Hd); reflexivity.
Qed.

Lemma first_match_without patterns kws text :
  forallb (fun r => existsb (fun kw => mentions kw r) kws) patterns = true ->
  (forall kw, kw ∈ kws ->
     PyStr.lower kw = kw /\ PyStr.contains kw (PyStr.lower text) = false) ->
  first_match patterns text = None.
Proof.
  intros Hp Hk. induction patterns as [|r rest IH]; [reflexivity|].
  cbn [forallb] in Hp. apply andb_true_iff in Hp as [Hr Hrest].
  cbn [first_match].
  apply existsb_exists in Hr as (kw & Hin & Hm).
  destruct (Hk kw (proj2 (list_elem_of_In _ _) Hin)) as [Hlow Hc].
  rewrite (search_none_without_keyword kw r text Hlow Hm Hc). now apply IH.
Qed.

Lemma from_text_pin_colon d :
  d <> "" ->
  Forall (fun x => PyStr.is_digit x = true) (String.list_ascii_of_string d) ->
  from_text ("pin: " +:+ d) = [("pin", d)].
Proof.
  intros Hne Hd.
  assert (first_match pin_patterns ("pin: " +:+ d) = Some d) as Hpin.
  { unfold pin_patterns. cbn [first_match].
    now rewrite search_pin_colon. }
  assert (forall patterns,
             forallb (fun r => existsb (fun kw => mentions kw r)
                                 ["password"; "use"; "pass"; "username"; "user";
                                  "email"]) patterns = true ->
             first_match patterns ("pin: " +:+ d) = None) as Hnone.
  { intros patterns Hp. apply (first_match_without _ _ _ Hp).
    intros kw Hkw. split; [|now apply no_other_keyword].
    repeat (apply elem_of_cons in Hkw as [->|Hkw]);
      [..|now apply elem_of_nil in Hkw]; reflexivity. }
  unfold from_text, scan_text, credential_patterns. cbn [foldl].
  rewrite Hpin, !Hnone by reflexivity. reflexivity.
Qed.

(** What the dictionary holds for each type, in terms of the patterns. *)
Lemma from_text_by_patterns text :
  dict_get (from_text text) "pin"
  = match first_match pin_patterns text with
    | Some g => Some g
    | None => head (findall standalone_four_digits text)
    end
  /\ dict_get (from_text text) "password" = first_match password_patterns text
  /\ dict_get (from_text text) "username" = first_match username_patterns text
  /\ dict_get (from_text text) "email" = first_match email_patterns text.
Proof.
  unfold from_text, scan_text, credential_patterns. cbn [foldl].
  destruct (first_match pin_patterns text),
           (first_match password_patterns text),
           (first_match username_patterns text),
           (first_match email_patterns text),
           (head (findall standalone_four_digits text));
    cbn; repeat split.
Qed.

(** C7: explicit notes text "pin: 4821" gives the PIN 4821 and nothing
    else, and so does "pin: " followed by any digits, of which there need
    not be four: the value comes from the first PIN pattern.  For every
    non-empty notes text the dictionary holds, for each type, the group of
    the first of its patterns that matches, and for the PIN the first
    standalone four digits when no PIN pattern matches.  A non-empty notes
    text with no credential keyword and no standalone four-digit token gives
    the empty dictionary; the authentication shortcut, on a screen with a PIN
    field and notes in which no credential is found, works with the default
    PIN 1234. *)
Theorem credentials_from_text_and_default_pin :
  (forall app_notes,
      extract_credentials_from_notes app_notes (Some "pin: 4821") = [("pin", "4821")])
  /\ (forall app_notes d,
        d <> "" ->
        Forall (fun x => PyStr.is_digit x = true) (String.list_ascii_of_string d) ->
        extract_credentials_from_notes app_notes (Some ("pin: " +:+ d))
        = [("pin", d)])
  /\ (forall app_notes text,
        text <> "" ->
        let credentials := extract_credentials_from_notes app_notes (Some text) in
        dict_get credentials "pin"
        = match first_match pin_patterns text with
          | Some g => Some g
          | None => head (findall standalone_four_digits text)
          end
        /\ dict_get credentials "password" = first_match password_patterns text
        /\ dict_get credentials "username" = first_match username_patterns text
        /\ dict_get credentials "email" = first_match email_patterns text)
  /\ (forall app_notes,
        extract_credentials_from_notes app_notes (Some "9999 pin: 4821")
        = [("pin", "4821")]
        /\ extract_credentials_from_notes app_notes
             (Some "Password: hunter2, user=bob")
           = [("password", "hunter2"); ("username", "bob")])
  /\ (forall app_notes text,
        text <> "" ->
        no_keyword text = true ->
        has_four_digit_token text = false ->
        extract_credentials_from_notes app_notes (Some text) = [])
  /\ (forall app_notes state_prompt,
        PyStr.contains "<input" (PyStr.lower state_prompt)
        && PyStr.contains "pin" (PyStr.lower state_prompt) = true ->
        Forall (fun t => no_keyword t = true) (note_texts app_notes) ->
        has_four_digit_token (all_notes app_notes) = false ->
        Task.is_authentication_screen state_prompt = true
        /\ Task.auth_credentials app_notes state_prompt = [("pin", "1234")]).
Proof.
  split; [|split; [|split; [|split; [|split]]]].
  - intros app_notes. vm_compute. reflexivity.
  - intros app_notes d Hne Hd. unfold extract_credentials_from_notes.
    rewrite append_cons. cbn [PyStr.truthy]. rewrite <- append_cons.
    now apply from_text_pin_colon.
  - intros app_notes text Hne. unfold extract_credentials_from_notes.
    destruct text as [|c text]; [congruence|]. cbn [PyStr.truthy].
    apply from_text_by_patterns.
  - intros app_notes. split; vm_compute; reflexivity.
  - intros app_notes text Hne Hk Ht. unfold extract_credentials_from_notes.
    destruct text as [|c text]; [congruence|]. cbn [PyStr.truthy].
    now apply from_text_no_credentials.
  - intros app_notes state_prompt Hpin Hnotes Htok.
    apply andb_true_iff in Hpin as [Hin Hp]. split.
    + unfold Task.is_authentication_screen. apply orb_true_iff. left.
      apply existsb_exists. exists "pin". split; [|exact Hp].
      cbn. tauto.
    + unfold Task.auth_credentials, extract_credentials_from_notes.
      rewrite from_config_default.
      * reflexivity.
      * now apply scan_notes_no_keyword.
      * now apply findall_no_token.
Qed.

End NotesText.

(** Five digits after "pin: " are all taken: the value is the group of the
    pattern, not a standalone token of four digits. *)
Lemma credentials_from_text_and_default_pin_witness :
  Credentials.extract_credentials_from_notes None (Some ("pin: " +:+ "48213"))
  = [("pin", "48213")].
Proof.
  apply (proj1 (proj2 credentials_from_text_and_default_pin) None "48213");
    [discriminate | repeat constructor].
Defined.
